(** * Mock Prometheus engine of cb-demos/stage: scenarios, engine state,
      query evaluation and text exposition

    Shallow embedding of [internal/prometheus] (scenarios.go, mock.go,
    metrics.go, handlers.go).

    Conventions of the embedding.
    - A Go [string] is a byte sequence: [string] of the Standard Library
      (a list of 8-bit [ascii]).
    - [time.Duration] is an [int64] count of nanoseconds: [Z], with the
      wrap-around written out where the code can reach it.
    - [float64] is embedded as the real numbers [R]: arithmetic is exact,
      rounding, infinities and NaN are not represented.  Comparisons are the
      decidable comparisons of [R]; [float64(n)] for an integer [n] is
      [IZR n].  A number read from text is the exception: [ParseFloat]
      gives the [float64] nearest to the decimal, as the range test and the
      messages of the code depend on it.
    - [map[K]V] is stdpp's [gmap]; a [range] over a map visits the entries in
      an order the language leaves unspecified, which is embedded as a
      relation (any permutation of the entries).
    - [time.Now()] is an explicit argument. *)

From Stdlib Require Import ZArith Reals Lra Lia String Ascii List Sorted
DecimalString DecimalPos.
From stdpp Require Import gmap strings.

Local Open Scope Z_scope.

(** ** Go conversions and the runtime packages the code calls *)

(** [int64] wrap-around and the [uint64] reading of an [int64]. *)
Definition wrap64 (z : Z) : Z := (z + 2 ^ 63) mod 2 ^ 64 - 2 ^ 63.
Definition uint64 (z : Z) : Z := z mod 2 ^ 64.

(** Comparisons of [float64] values as decidable propositions. *)
#[global] Instance Rlt_decision (x y : R) : Decision (x < y)%R := Rlt_dec x y.
#[global] Instance Rgt_decision (x y : R) : Decision (x > y)%R := Rgt_dec x y.

(** [int(x)] for a [float64] [x]: truncation toward zero. *)
Definition int_of_float64 (x : R) : Z :=
  if Rle_dec 0 x then Zfloor x else Zceil x.

(** *** package time *)

Module time.

Definition Duration := Z.

(** An instant, as nanoseconds on the wall clock. *)
Definition Time := Z.

Definition Nanosecond : Duration := 1.
Definition Microsecond : Duration := 1000 * Nanosecond.
Definition Millisecond : Duration := 1000 * Microsecond.
Definition Second : Duration := 1000 * Millisecond.
Definition Minute : Duration := 60 * Second.
Definition Hour : Duration := 60 * Minute.

Definition maxDuration : Duration := 2 ^ 63 - 1.
Definition minDuration : Duration := - 2 ^ 63.

(** [lessThanHalf(x, y)]: [uint64(x)+uint64(x) < uint64(y)]. *)
Definition lessThanHalf (x y : Duration) : bool :=
  uint64 (uint64 x + uint64 x) <? uint64 y.

(** [d.Round(m)]: nearest multiple of [m], halfway values away from
    zero; the maximum (minimum) duration when the result does not fit. *)
Definition Round (d m : Duration) : Duration :=
  if m <=? 0 then d
  else
    let r := Z.rem d m in
    if d <? 0 then
      let r := - r in
      if lessThanHalf r m then wrap64 (d + r)
      else
        let d1 := wrap64 (d - m + r) in
        if d1 <? d then d1 else minDuration
    else
      if lessThanHalf r m then wrap64 (d - r)
      else
        let d1 := wrap64 (d + m - r) in
        if d1 >? d then d1 else maxDuration.

(** [d.Hours()], [d.Minutes()], [d.Seconds()]: the whole part converted
    and the remainder divided, as floating-point numbers. *)
Definition Hours (d : Duration) : R :=
  let hour := Z.quot d Hour in
  let nsec := Z.rem d Hour in
  (IZR hour + IZR nsec / (60 * 60 * 1e9))%R.

Definition Minutes (d : Duration) : R :=
  let min := Z.quot d Minute in
  let nsec := Z.rem d Minute in
  (IZR min + IZR nsec / (60 * 1e9))%R.

Definition Seconds (d : Duration) : R :=
  let sec := Z.quot d Second in
  let nsec := Z.rem d Second in
  (IZR sec + IZR nsec / 1e9)%R.

(** [t.Sub(u)], saturating at the extreme durations. *)
Definition Sub (t u : Time) : Duration :=
  let d := t - u in
  if d <? minDuration then minDuration
  else if maxDuration <? d then maxDuration
  else d.

(** [time.Since(t)] with the clock reading passed in. *)
Definition Since (now t : Time) : Duration := Sub now t.

(** [t.Unix()]: whole seconds since the epoch. *)
Definition Unix (t : Time) : Z := t / Second.

End time.

(** *** package strings *)

Module gostrings.

Fixpoint HasPrefix (s prefix : string) {struct prefix} : bool :=
  match prefix with
  | "" => true
  | String c prefix' =>
      match s with
      | "" => false
      | String d s' => if Ascii.eqb c d then HasPrefix s' prefix' else false
      end
  end.

(** [Contains(s, substr)]: [substr] starts at some offset of [s]. *)
Fixpoint Contains (s substr : string) : bool :=
  HasPrefix s substr ||
  match s with
  | "" => false
  | String _ s' => Contains s' substr
  end.

(** White space per [unicode.IsSpace], on the UTF-8 bytes.  One byte:
    tab, LF, VT, FF, CR, space.  Two bytes: U+0085, U+00A0.  Three bytes:
    U+1680, U+2000..U+200A, U+2028, U+2029, U+202F, U+205F, U+3000. *)
Definition isSpace1 (c : ascii) : bool := Ascii.is_space c.

Definition isSpace2 (c d : ascii) : bool :=
  match N_of_ascii c, N_of_ascii d with
  | 194, 133 | 194, 160 => true
  | _, _ => false
  end%N.

Definition isSpace3 (c d e : ascii) : bool :=
  match N_of_ascii c, N_of_ascii d, N_of_ascii e with
  | 225, 154, 128 => true
  | 226, 128, n => (128 <=? n) && (n <=? 138) || (n =? 168) || (n =? 169)
                   || (n =? 175)
  | 226, 129, 159 => true
  | 227, 128, 128 => true
  | _, _, _ => false
  end%N.

(** A byte that occurs in no white-space rune: below 128 and not one of
    the six one-byte spaces. *)
Definition plain (c : ascii) : bool :=
  negb (isSpace1 c) && (N_of_ascii c <? 128)%N.

(** Dropping leading white-space runes.  With [back] the bytes of a rune
    arrive last byte first (the string is read from its end). *)
Fixpoint trimLeading (back : bool) (s : string) : string :=
  match s with
  | "" => ""
  | String c s1 =>
      if isSpace1 c then trimLeading back s1
      else
        match s1 with
        | "" => s
        | String d s2 =>
            if (if back then isSpace2 d c else isSpace2 c d)
            then trimLeading back s2
            else
              match s2 with
              | "" => s
              | String e s3 =>
                  if (if back then isSpace3 e d c else isSpace3 c d e)
                  then trimLeading back s3
                  else s
              end
        end
  end.

Definition TrimLeftSpace (s : string) : string := trimLeading false s.

Definition TrimRightSpace (s : string) : string :=
  String.rev (trimLeading true (String.rev s)).

Definition TrimSpace (s : string) : string :=
  TrimRightSpace (TrimLeftSpace s).

(** [TrimPrefix]-like helper: the rest of [s] after [prefix]. *)
Fixpoint cutPrefix (s prefix : string) {struct prefix} : option string :=
  match prefix with
  | "" => Some s
  | String c prefix' =>
      match s with
      | "" => None
      | String d s' => if Ascii.eqb c d then cutPrefix s' prefix' else None
      end
  end.

End gostrings.

(** *** package regexp, for patterns of the shape [lit(class+)stop] *)

Module goregexp.

(** The longest prefix of [s] made of bytes in [class], and the rest. *)
Fixpoint span (class : ascii -> bool) (s : string) : string * string :=
  match s with
  | "" => ("", "")
  | String c s' =>
      if class c then
        let (run, rest) := span class s' in (String c run, rest)
      else ("", s)
  end.

(** A match of [lit(class+)stop] starting at the first byte of [s]; the
    result is the captured group.  The byte [stop] is outside [class], so
    the greedy run is the only candidate for the group. *)
Definition matchHere (lit : string) (class : ascii -> bool) (stop : ascii)
    (s : string) : option string :=
  match gostrings.cutPrefix s lit with
  | None => None
  | Some rest =>
      match span class rest with
      | (String c run, String d _) =>
          if Ascii.eqb d stop then Some (String c run) else None
      | _ => None
      end
  end.

(** [FindStringSubmatch]: the leftmost match; [None] stands for the nil
    slice, [Some g] for [[whole; g]]. *)
Fixpoint FindStringSubmatch (lit : string) (class : ascii -> bool)
    (stop : ascii) (s : string) : option string :=
  match matchHere lit class stop s with
  | Some g => Some g
  | None =>
      match s with
      | "" => None
      | String _ s' => FindStringSubmatch lit class stop s'
      end
  end.

(** All bytes of a string are in a class. *)
Fixpoint allIn (class : ascii -> bool) (s : string) : bool :=
  match s with
  | "" => true
  | String c s' => class c && allIn class s'
  end.

(** The pattern [lit(class+)stop] matches [s] after [pre], with [group]
    captured and [post] left over. *)
Definition matchesAt (lit : string) (class : ascii -> bool) (stop : ascii)
    (s pre group post : string) : Prop :=
  s = pre +:+ lit +:+ group +:+ String stop post /\
  group <> "" /\ allIn class group = true.

(** The leftmost match of the pattern in [s] has group [group]. *)
Definition leftmost (lit : string) (class : ascii -> bool) (stop : ascii)
    (s group : string) : Prop :=
  exists pre post,
    matchesAt lit class stop s pre group post /\
    forall pre' group' post',
      matchesAt lit class stop s pre' group' post' ->
      (String.length pre <= String.length pre')%nat.

(** [\d] *)
Definition isDigit (c : ascii) : bool :=
  match Ascii.is_nat c with Some _ => true | None => false end.

End goregexp.

(** *** package strconv *)

Module strconv.

(** Reading digits with an optional decimal point, as [readFloat] does:
    the digits as an integer and the count of digits after the point. *)
Fixpoint readDecimal (s : string) (sawdot sawdigits : bool) (mant : Z)
    (frac : nat) : option (Z * nat) :=
  match s with
  | "" => if sawdigits then Some (mant, frac) else None
  | String c s' =>
      if Ascii.eqb c "." then
        if sawdot then None else readDecimal s' true sawdigits mant frac
      else
        match Ascii.is_nat c with
        | Some d =>
            readDecimal s' sawdot true (10 * mant + Z.of_nat d)
              (if sawdot then S frac else frac)
        | None => None
        end
  end.

(** The integer nearest to [num / den], halfway cases to the even one. *)
Definition roundRatio (num den : Z) : Z :=
  let quo := num / den in
  let r := num mod den in
  if 2 * r <? den then quo
  else if den <? 2 * r then quo + 1
  else if Z.even quo then quo else quo + 1.

(** The exponent of the leading bit of [p / q], for positive [p] and [q]. *)
Definition floorLog2 (p q : Z) : Z :=
  let k := Z.log2 p - Z.log2 q in
  if (if 0 <=? k then q * 2 ^ k <=? p else q <=? p * 2 ^ (- k))
  then k else k - 1.

(** The [float64] nearest to [p / q], halfway cases to the even mantissa,
    as a mantissa [m] of at most 53 bits and an exponent [e] of at least
    -1074: its value is [m * 2^e]. *)
Definition nearestFloat64 (p q : Z) : Z * Z :=
  if p =? 0 then (0, -1074)
  else
    let e := Z.max (floorLog2 p q - 52) (-1074) in
    let m :=
      if 0 <=? e then roundRatio p (q * 2 ^ e)
      else roundRatio (p * 2 ^ (- e)) q in
    (m, e).

Definition float64Value (m e : Z) : R :=
  if 0 <=? e then IZR (m * 2 ^ e) else (IZR m / IZR (2 ^ (- e)))%R.

(** [ParseFloat(s, 64)] on the strings the quantile pattern lets through
    (digits and points): the [float64] nearest to the decimal number.
    [None] is a non-nil error, either a syntax error or a number that
    rounds to a value out of the range of [float64]. *)
Definition ParseFloat (s : string) : option R :=
  match readDecimal s false false 0 0 with
  | None => None
  | Some (mant, frac) =>
      let '(m, e) := nearestFloat64 mant (10 ^ Z.of_nat frac) in
      if (0 <=? e) && (2 ^ 1024 <=? m * 2 ^ e) then None
      else Some (float64Value m e)
  end.

End strconv.

(** *** package fmt *)

Module fmt.

(** [%d] *)
Definition formatInt (n : Z) : string :=
  DecimalString.NilEmpty.string_of_int (Z.to_int n).

(** [%s] is the string itself; concatenation is [+:+]. *)

Definition roundHalfEven (x : R) : Z :=
  let f := Zfloor x in
  let r := (x - IZR f)%R in
  if Rlt_dec r (1 / 2) then f
  else if Rlt_dec (1 / 2) r then f + 1
  else if Z.even f then f else f + 1.

Fixpoint zeros (n : nat) : string :=
  match n with
  | O => ""
  | S n' => String "0" (zeros n')
  end.

Definition padZeros (width : nat) (s : string) : string :=
  zeros (width - String.length s) +:+ s.

(** [%.<prec>f]: the value rounded to [prec] decimals, ties to even. *)
Definition formatFloat (prec : nat) (x : R) : string :=
  let scale := 10 ^ Z.of_nat prec in
  let n := roundHalfEven (Rabs x * IZR scale) in
  (if Rlt_dec x 0 then "-" else "") +:+
  formatInt (n / scale) +:+
  (if (prec =? 0)%nat then ""
   else "." +:+ padZeros prec (formatInt (n mod scale))).

End fmt.

(** ** scenarios.go *)

Definition ScenarioType := string.

Definition ScenarioHealthy : ScenarioType := "healthy".
Definition ScenarioHighErrors : ScenarioType := "high-errors".
Definition ScenarioLatencySpike : ScenarioType := "latency-spike".
Definition ScenarioGradualDegradation : ScenarioType := "gradual-degradation".

Record Scenario := mkScenario {
  Type_ : ScenarioType;
  Description : string;
  ErrorRateStart : R;
  ErrorRateEnd : R;
  ErrorRateDuration : time.Duration;
  LatencyStart : R;
  LatencyEnd : R;
  LatencyDuration : time.Duration;
  Up : R
}.

(** The zero value of the struct, what indexing a map at a missing key
    yields. *)
Definition zeroScenario : Scenario :=
  mkScenario "" "" 0 0 0 0 0 0 0.

#[global] Instance Scenario_inhabited : Inhabited Scenario :=
  populate zeroScenario.

Definition healthy : Scenario :=
  {| Type_ := ScenarioHealthy;
     Description := "Healthy application with minimal errors and low latency";
     ErrorRateStart := 0.1;
     ErrorRateEnd := 0.1;
     ErrorRateDuration := 0;
     LatencyStart := 100;
     LatencyEnd := 100;
     LatencyDuration := 0;
     Up := 1 |}.

Definition high_errors : Scenario :=
  {| Type_ := ScenarioHighErrors;
     Description := "High error rate that progressively increases";
     ErrorRateStart := 5.0;
     ErrorRateEnd := 25.0;
     ErrorRateDuration := 5 * time.Minute;
     LatencyStart := 200;
     LatencyEnd := 200;
     LatencyDuration := 0;
     Up := 1 |}.

Definition latency_spike : Scenario :=
  {| Type_ := ScenarioLatencySpike;
     Description := "Latency spike with gradual increase";
     ErrorRateStart := 0.5;
     ErrorRateEnd := 0.5;
     ErrorRateDuration := 0;
     LatencyStart := 150;
     LatencyEnd := 2000;
     LatencyDuration := 3 * time.Minute;
     Up := 1 |}.

Definition gradual_degradation : Scenario :=
  {| Type_ := ScenarioGradualDegradation;
     Description := "Both errors and latency degrade over time";
     ErrorRateStart := 0.5;
     ErrorRateEnd := 15.0;
     ErrorRateDuration := 10 * time.Minute;
     LatencyStart := 120;
     LatencyEnd := 800;
     LatencyDuration := 10 * time.Minute;
     Up := 1 |}.

(** [AllScenarios] returns a map keyed by the scenario type. *)
Definition AllScenarios : gmap ScenarioType Scenario :=
  <[ScenarioHealthy := healthy]>
  (<[ScenarioHighErrors := high_errors]>
  (<[ScenarioLatencySpike := latency_spike]>
  (<[ScenarioGradualDegradation := gradual_degradation]> ∅))).

Definition GetScenario (scenarioType : ScenarioType) : Scenario :=
  let scenarios := AllScenarios in
  match scenarios !! scenarioType with
  | Some scenario => scenario
  | None => scenarios !!! ScenarioHealthy
  end.

(** [math.Pow] at the two exponents the package calls it with.  Go computes
    [Pow(x, 2)] by repeated squaring and special-cases [Pow(x, 0.5)] to
    [Sqrt(x)]; at any other exponent the real power of a positive base. *)
Definition math_Pow (x y : R) : R :=
  if Req_dec_T y 2 then (x * x)%R
  else if Req_dec_T y 0.5 then sqrt x
  else Rpower x y.

Definition CalculateErrorRate (s : Scenario) (elapsed : time.Duration) : R :=
  if ErrorRateDuration s =? 0 then ErrorRateStart s
  else
    let progress := (IZR elapsed / IZR (ErrorRateDuration s))%R in
    if Rge_dec progress 1.0 then ErrorRateEnd s
    else (ErrorRateStart s + (ErrorRateEnd s - ErrorRateStart s) * progress)%R.

Definition CalculateLatency (s : Scenario) (elapsed : time.Duration) : R :=
  if LatencyDuration s =? 0 then LatencyStart s
  else
    let progress := (IZR elapsed / IZR (LatencyDuration s))%R in
    if Rge_dec progress 1.0 then LatencyEnd s
    else (LatencyStart s + (LatencyEnd s - LatencyStart s) * math_Pow progress 2)%R.

Definition CalculateUp (s : Scenario) : R := Up s.

Definition ValidScenarioTypes : list string :=
  [ScenarioHealthy; ScenarioHighErrors; ScenarioLatencySpike;
   ScenarioGradualDegradation].

(** ** mock.go *)

(** [MockServer]: the scenario and its start time.  The lock and the logger
    carry no data of the model. *)
Record MockServer := mkMockServer {
  currentScenario : Scenario;
  startTime : time.Time
}.

(** The third field is [Up] in the source; the name is taken by the field
    of [Scenario]. *)
Record MetricValues := mkMetricValues {
  ErrorRate : R;
  Latency : R;
  UpValue : R
}.

Record ScenarioStatus := mkScenarioStatus {
  status_Type : ScenarioType;
  status_Description : string;
  status_StartTime : time.Time;
  status_Elapsed : string;
  status_Metrics : MetricValues
}.

Definition NewMockServer (initialScenario : ScenarioType) (now : time.Time)
    : MockServer :=
  let scenario := GetScenario initialScenario in
  {| currentScenario := scenario; startTime := now |}.

Definition calculateCurrentMetrics (now : time.Time) (startTime : time.Time)
    (scenario : Scenario) : MetricValues :=
  let elapsed := time.Since now startTime in
  {| ErrorRate := CalculateErrorRate scenario elapsed;
     Latency := CalculateLatency scenario elapsed;
     UpValue := CalculateUp scenario |}.

Definition GetCurrentMetrics (ms : MockServer) (now : time.Time)
    : MetricValues :=
  calculateCurrentMetrics now (startTime ms) (currentScenario ms).

Definition formatDuration (d : time.Duration) : string :=
  let d := time.Round d time.Second in
  let h := int_of_float64 (time.Hours d) in
  let m := Z.rem (int_of_float64 (time.Minutes d)) 60 in
  let s := Z.rem (int_of_float64 (time.Seconds d)) 60 in
  if h >? 0 then
    fmt.formatInt h +:+ "h " +:+ fmt.formatInt m +:+ "m " +:+
    fmt.formatInt s +:+ "s"
  else if m >? 0 then
    fmt.formatInt m +:+ "m " +:+ fmt.formatInt s +:+ "s"
  else
    fmt.formatInt s +:+ "s".

Definition GetStatus (ms : MockServer) (now : time.Time) : ScenarioStatus :=
  let elapsed := time.Since now (startTime ms) in
  {| status_Type := Type_ (currentScenario ms);
     status_Description := Description (currentScenario ms);
     status_StartTime := startTime ms;
     status_Elapsed := formatDuration elapsed;
     status_Metrics :=
       calculateCurrentMetrics now (startTime ms) (currentScenario ms) |}.

Definition SetScenario (ms : MockServer) (scenarioType : ScenarioType)
    (now : time.Time) : MockServer :=
  let scenario := GetScenario scenarioType in
  {| currentScenario := scenario; startTime := now |}.

Definition ResetTimer (ms : MockServer) (now : time.Time) : MockServer :=
  {| currentScenario := currentScenario ms; startTime := now |}.

(** ** metrics.go *)

(** [[^[]] *)
Definition rateClass (c : ascii) : bool := negb (Ascii.eqb c "[").

(** [rate\(([^[]+)\[] *)
Definition rateRegex (s : string) : option string :=
  goregexp.FindStringSubmatch "rate(" rateClass "[" s.

(** [[\d.]] *)
Definition quantileClass (c : ascii) : bool :=
  goregexp.isDigit c || Ascii.eqb c ".".

(** [histogram_quantile\(([\d.]+),] *)
Definition histogramRegex (s : string) : option string :=
  goregexp.FindStringSubmatch "histogram_quantile(" quantileClass "," s.

Local Open Scope R_scope.

Definition baselineRequestsPerSecond : R := 100.0.

(** An element of a [[]interface{}]. *)
Inductive iface :=
  | Float64 (x : R)
  | Str (s : string).

Record PrometheusResult := mkPrometheusResult {
  Metric : gmap string string;
  Value : list iface
}.

Record PrometheusData := mkPrometheusData {
  ResultType : string;
  Result : list PrometheusResult
}.

Record PrometheusResponse := mkPrometheusResponse {
  Status : string;
  Data : PrometheusData;
  Error : string;
  ErrorType : string
}.

(** The pair [(float64, error)] of the query functions: a value with a nil
    error, or an error carrying its message. *)
Inductive queryResult :=
  | Value_ (value : R)
  | Errorf (message : string).

Definition handleRate (query : string) (metrics : MetricValues)
    : queryResult :=
  match rateRegex query with
  | None => Errorf "invalid rate query format"
  | Some match1 =>
      let metricName := gostrings.TrimSpace match1 in
      if gostrings.Contains metricName "http_requests_errors_total" then
        Value_ ((ErrorRate metrics / 100.0) * baselineRequestsPerSecond)
      else if gostrings.Contains metricName "http_request_duration_seconds" then
        Value_ (Latency metrics / 1000.0)
      else Errorf ("unknown metric in rate query: " +:+ metricName)
  end.

Definition handleHistogramQuantile (query : string) (metrics : MetricValues)
    : queryResult :=
  match histogramRegex query with
  | None => Errorf "invalid histogram_quantile format"
  | Some match1 =>
      match strconv.ParseFloat match1 with
      | None => Errorf ("invalid quantile value: " +:+ match1)
      | Some quantile =>
          if bool_decide (quantile < 0) || bool_decide (quantile > 1) then
            Errorf ("quantile must be between 0 and 1, got: " +:+
                    fmt.formatFloat 6 quantile)
          else
            let meanLatency := Latency metrics / 1000.0 in
            let multiplier :=
              if Rge_dec quantile 0.99 then 2.5
              else if Rge_dec quantile 0.95 then
                1.5 + (quantile - 0.95) / (0.99 - 0.95) * (2.5 - 1.5)
              else if Rge_dec quantile 0.50 then
                0.8 + (quantile - 0.50) / (0.95 - 0.50) * (1.5 - 0.8)
              else quantile / 0.50 * 0.8 in
            Value_ (meanLatency * multiplier)
      end
  end.

Definition parseQuery (query : string) (metrics : MetricValues)
    : queryResult :=
  let query := gostrings.TrimSpace query in
  if gostrings.HasPrefix query "rate(" then handleRate query metrics
  else if gostrings.HasPrefix query "histogram_quantile(" then
    handleHistogramQuantile query metrics
  else if gostrings.Contains query "http_requests_errors_total" then
    Value_ ((ErrorRate metrics / 100.0) * baselineRequestsPerSecond)
  else if gostrings.Contains query "http_request_duration_seconds" then
    Value_ (Latency metrics / 1000.0)
  else if gostrings.Contains query "up" then Value_ (UpValue metrics)
  else Errorf ("unsupported metric query: " +:+ query).

(** The zero value of [PrometheusData]. *)
Definition zeroData : PrometheusData :=
  {| ResultType := ""; Result := [] |}.

(** [ExecuteQuery]; [now] is the clock when the metrics are read and [now']
    the clock when the result is stamped. *)
Definition ExecuteQuery (ms : MockServer) (now now' : time.Time)
    (query : string) : PrometheusResponse :=
  let metrics := GetCurrentMetrics ms now in
  match parseQuery query metrics with
  | Errorf e =>
      {| Status := "error"; Data := zeroData; Error := e;
         ErrorType := "bad_data" |}
  | Value_ value =>
      {| Status := "success";
         Data :=
           {| ResultType := "vector";
              Result :=
                [ {| Metric := {[ "job"%string := "demo-app"%string ]};
                     Value := [ Float64 (IZR (time.Unix now'));
                                Str (fmt.formatFloat 6 value) ] |} ] |};
         Error := "";
         ErrorType := "" |}
  end.

(** *** FormatMetrics *)

Definition buckets : list R :=
  [0.005; 0.01; 0.025; 0.05; 0.1; 0.25; 0.5; 1; 2.5; 5; 10].

(** The simulated request count. *)
Definition count : R := baselineRequestsPerSecond.

(** The latency in seconds behind the histogram, after the guard against a
    zero or negative latency. *)
Definition latencySeconds (metrics : MetricValues) : R :=
  let latencySeconds := Latency metrics / 1000.0 in
  if Rle_dec latencySeconds 0 then 0.001 else latencySeconds.

(** The body of the loop over [buckets]: the cumulative count of one
    bucket. *)
Definition cumCount (latencySeconds bucket : R) : R :=
  if Rge_dec bucket latencySeconds then count
  else
    let ratio := bucket / latencySeconds in
    count * math_Pow ratio 0.5.

(** The samples of the histogram family in the order they are written:
    the buckets with their counts, then [+Inf], [_sum] and [_count]. *)
Record histogram := mkHistogram {
  bucketSamples : list (R * R);
  infSample : R;
  sumSample : R;
  countSample : R
}.

Definition histogramOf (metrics : MetricValues) : histogram :=
  let latencySeconds := latencySeconds metrics in
  {| bucketSamples :=
       map (fun bucket => (bucket, cumCount latencySeconds bucket)) buckets;
     infSample := count;
     sumSample := latencySeconds * count;
     countSample := count |}.

Definition quote : string := String "034"%char "".
Definition newline : string := String "010"%char "".

Definition jobLabel : string := "job=" +:+ quote +:+ "demo-app" +:+ quote.

Definition bucketLine (sample : R * R) : string :=
  "http_request_duration_seconds_bucket{" +:+ jobLabel +:+ ",le=" +:+ quote
  +:+ fmt.formatFloat 3 (fst sample) +:+ quote +:+ "} "
  +:+ fmt.formatFloat 0 (snd sample) +:+ newline.

Definition FormatMetricsOf (metrics : MetricValues) : string :=
  let errorCount := (ErrorRate metrics / 100.0) * baselineRequestsPerSecond in
  let h := histogramOf metrics in
  "# HELP http_requests_errors_total Total number of HTTP request errors"
  +:+ newline
  +:+ "# TYPE http_requests_errors_total counter" +:+ newline
  +:+ "http_requests_errors_total{" +:+ jobLabel +:+ "} "
  +:+ fmt.formatFloat 2 errorCount +:+ newline
  +:+ newline
  +:+ "# HELP http_request_duration_seconds HTTP request latency" +:+ newline
  +:+ "# TYPE http_request_duration_seconds histogram" +:+ newline
  +:+ String.concat "" (map bucketLine (bucketSamples h))
  +:+ "http_request_duration_seconds_bucket{" +:+ jobLabel +:+ ",le=" +:+ quote
  +:+ "+Inf" +:+ quote +:+ "} " +:+ fmt.formatFloat 0 (infSample h) +:+ newline
  +:+ "http_request_duration_seconds_sum{" +:+ jobLabel +:+ "} "
  +:+ fmt.formatFloat 3 (sumSample h) +:+ newline
  +:+ "http_request_duration_seconds_count{" +:+ jobLabel +:+ "} "
  +:+ fmt.formatFloat 0 (countSample h) +:+ newline
  +:+ newline
  +:+ "# HELP up Service is up" +:+ newline
  +:+ "# TYPE up gauge" +:+ newline
  +:+ "up{" +:+ jobLabel +:+ "} " +:+ fmt.formatFloat 0 (UpValue metrics)
  +:+ newline.

Definition FormatMetrics (ms : MockServer) (now : time.Time) : string :=
  FormatMetricsOf (GetCurrentMetrics ms now).

Local Close Scope R_scope.

(** ** handlers.go *)

(** An entry of the list built by [HandleListScenarios]: the keys [type] and
    [description] of the JSON object. *)
Record scenarioEntry := mkScenarioEntry {
  entry_type : ScenarioType;
  entry_description : string
}.

(** [for _, v := range m]: the entries of the map, in an order that the
    language does not specify and that may differ between two loops. *)
Definition rangeOrder {V : Type} (m : gmap string V)
    (order : list (string * V)) : Prop :=
  order ≡ₚ map_to_list m.

(** The object appended for one scenario of the loop. *)
Definition entryOf (kv : ScenarioType * Scenario) : scenarioEntry :=
  let scenario := snd kv in
  {| entry_type := Type_ scenario;
     entry_description := Description scenario |}.

(** The body of [HandleListScenarios], for a given iteration order. *)
Definition scenarioListOf (order : list (ScenarioType * Scenario))
    : list scenarioEntry :=
  fold_left (fun scenarioList kv => scenarioList ++ [entryOf kv]) order [].

(** The lists [HandleListScenarios] can put in the [data] field. *)
Inductive HandleListScenarios : list scenarioEntry -> Prop :=
  | HandleListScenarios_intro (order : list (ScenarioType * Scenario)) :
      rangeOrder AllScenarios order ->
      HandleListScenarios (scenarioListOf order).

(** ** Reference definitions, in the words of the specification *)

Module Spec.

(** A non-negative duration rounded to the nearest second (halves go
    up), in seconds. *)
Definition nearestSecond (d : time.Duration) : Z :=
  (d + 500000000) / 1000000000.

(** ["Ns"] under a minute, ["Nm Ms"] under an hour, ["Nh Mm Ss"]
    otherwise. *)
Definition renderSeconds (n : Z) : string :=
  if n <? 60 then fmt.formatInt n +:+ "s"
  else if n <? 3600 then
    fmt.formatInt (n / 60) +:+ "m " +:+ fmt.formatInt (n mod 60) +:+ "s"
  else
    fmt.formatInt (n / 3600) +:+ "h " +:+ fmt.formatInt (n / 60 mod 60)
    +:+ "m " +:+ fmt.formatInt (n mod 60) +:+ "s".

(** Linear interpolation between [y0] (at [x0]) and [y1] (at [x1]). *)
Definition lerp (x0 y0 x1 y1 x : R) : R :=
  (y0 + (y1 - y0) * ((x - x0) / (x1 - x0)))%R.

(** The multiplier of the mean latency, by quantile band. *)
Definition multiplier (q : R) : R :=
  if Rle_dec 0.99 q then 2.5%R
  else if Rle_dec 0.95 q then lerp 0.95 1.5 0.99 2.5 q
  else if Rle_dec 0.50 q then lerp 0.50 0.8 0.95 1.5 q
  else (q / 0.50 * 0.8)%R.

(** The response to a failed evaluation, with its message. *)
Definition errorResponse (message : string) : PrometheusResponse :=
  {| Status := "error"; Data := zeroData; Error := message;
     ErrorType := "bad_data" |}.

(** The four entries of the listing, in the order of the catalog's
    source text. *)
Definition catalogEntries : list scenarioEntry :=
  [ mkScenarioEntry "healthy"
      "Healthy application with minimal errors and low latency";
    mkScenarioEntry "high-errors"
      "High error rate that progressively increases";
    mkScenarioEntry "latency-spike" "Latency spike with gradual increase";
    mkScenarioEntry "gradual-degradation"
      "Both errors and latency degrade over time" ].

(** The response to a successful evaluation: one sample with the job
    label, stamped with the clock in seconds and carrying the value at six
    decimals. *)
Definition vectorResponse (now' : time.Time) (value : R)
    : PrometheusResponse :=
  {| Status := "success";
     Data :=
       {| ResultType := "vector";
          Result :=
            [ {| Metric := {[ "job"%string := "demo-app"%string ]};
                 Value := [ Float64 (IZR (time.Unix now'));
                            Str (fmt.formatFloat 6 value) ] |} ] |};
     Error := "";
     ErrorType := "" |}.





(** The text of the exposition around its numbers: the error count, the
    bucket lines, the [+Inf] bucket, [_sum], [_count] and [up]. *)
Definition expositionText (errors : string) (bucketLines : list string)
    (inf sum count up : string) : string :=
  "# HELP http_requests_errors_total Total number of HTTP request errors"
  +:+ newline
  +:+ "# TYPE http_requests_errors_total counter" +:+ newline
  +:+ "http_requests_errors_total{job=" +:+ quote +:+ "demo-app" +:+ quote
  +:+ "} " +:+ errors +:+ newline
  +:+ newline
  +:+ "# HELP http_request_duration_seconds HTTP request latency" +:+ newline
  +:+ "# TYPE http_request_duration_seconds histogram" +:+ newline
  +:+ String.concat "" bucketLines
  +:+ "http_request_duration_seconds_bucket{job=" +:+ quote +:+ "demo-app"
  +:+ quote +:+ ",le=" +:+ quote +:+ "+Inf" +:+ quote +:+ "} " +:+ inf
  +:+ newline
  +:+ "http_request_duration_seconds_sum{job=" +:+ quote +:+ "demo-app"
  +:+ quote +:+ "} " +:+ sum +:+ newline
  +:+ "http_request_duration_seconds_count{job=" +:+ quote +:+ "demo-app"
  +:+ quote +:+ "} " +:+ count +:+ newline
  +:+ newline
  +:+ "# HELP up Service is up" +:+ newline
  +:+ "# TYPE up gauge" +:+ newline
  +:+ "up{job=" +:+ quote +:+ "demo-app" +:+ quote +:+ "} " +:+ up
  +:+ newline.

End Spec.

(** ** handlers.go: the other handlers *)

(** A value stored in a [gin.H]. *)
Inductive hvalue :=
  | HString (s : string)
  | HStrings (l : list string)
  | HStatus (s : ScenarioStatus)
  | HEntries (l : list scenarioEntry).

(** What a handler writes with [c.JSON] or [c.Data]: a [gin.H] (its keys
    with their values), a [PrometheusResponse], or bytes with their content
    type. *)
Inductive httpBody :=
  | BodyH (fields : list (string * hvalue))
  | BodyResponse (r : PrometheusResponse)
  | BodyData (contentType : string) (data : string).

Record httpResponse := mkHttpResponse {
  code : Z;
  body : httpBody
}.

Definition StatusOK : Z := 200.
Definition StatusBadRequest : Z := 400.

(** [HandleQuery]: [postForm] is [c.PostForm("query")] and [urlQuery] is
    [c.Query("query")], each empty when the parameter is absent. *)
Definition HandleQuery (ms : MockServer) (now now' : time.Time)
    (method postForm urlQuery : string) : httpResponse :=
  let query := if String.eqb method "POST" then postForm else urlQuery in
  if String.eqb query "" then
    {| code := StatusBadRequest;
       body := BodyResponse
                 {| Status := "error"; Data := zeroData;
                    Error := "query parameter is required";
                    ErrorType := "bad_data" |} |}
  else
    let response := ExecuteQuery ms now now' query in
    {| code := StatusOK; body := BodyResponse response |}.

Definition HandleMetrics (ms : MockServer) (now : time.Time) : httpResponse :=
  let metrics := FormatMetrics ms now in
  {| code := StatusOK; body := BodyData "text/plain; version=0.0.4" metrics |}.

Definition HandleGetScenario (ms : MockServer) (now : time.Time)
    : httpResponse :=
  let status := GetStatus ms now in
  {| code := StatusOK;
     body := BodyH [("status", HString "success"); ("data", HStatus status)] |}.

(** [HandleSetScenario]: [bind] is what [c.ShouldBindJSON(&req)] gives, an
    error with its message or the field [req.Scenario]; [now] is the clock
    when the scenario is set and [now'] when the status is read.  The
    result is the server afterwards and the response. *)
Definition HandleSetScenario (ms : MockServer) (now now' : time.Time)
    (bind : string + string) : MockServer * httpResponse :=
  match bind with
  | inl err =>
      (ms, {| code := StatusBadRequest;
              body := BodyH [("status", HString "error");
                             ("error", HString ("invalid request: " +:+ err))] |})
  | inr reqScenario =>
      let scenarioType : ScenarioType := reqScenario in
      let validScenarios := ValidScenarioTypes in
      let isValid := existsb (String.eqb reqScenario) validScenarios in
      if negb isValid then
        (ms, {| code := StatusBadRequest;
                body := BodyH [("status", HString "error");
                               ("error", HString "invalid scenario type");
                               ("valid_scenarios", HStrings validScenarios)] |})
      else
        let ms := SetScenario ms scenarioType now in
        let status := GetStatus ms now' in
        (ms, {| code := StatusOK;
                body := BodyH [("status", HString "success");
                               ("data", HStatus status)] |})
  end.

Definition HandleResetTimer (ms : MockServer) (now now' : time.Time)
    : MockServer * httpResponse :=
  let ms := ResetTimer ms now in
  let status := GetStatus ms now' in
  (ms, {| code := StatusOK;
          body := BodyH [("status", HString "success");
                         ("message", HString "timer reset");
                         ("data", HStatus status)] |}).

(** ** The servers that the operations of mock.go can produce *)

Inductive reachable : MockServer -> Prop :=
  | reachable_new (initialScenario : ScenarioType) (now : time.Time) :
      reachable (NewMockServer initialScenario now)
  | reachable_set (ms : MockServer) (scenarioType : ScenarioType)
      (now : time.Time) :
      reachable ms -> reachable (SetScenario ms scenarioType now)
  | reachable_reset (ms : MockServer) (now : time.Time) :
      reachable ms -> reachable (ResetTimer ms now).

(** ** The bucket lines as text *)

(** The [le] labels of the eleven buckets, as [%.3f] prints them. *)
Definition leLabels : list string :=
  ["0.005"; "0.010"; "0.025"; "0.050"; "0.100"; "0.250"; "0.500"; "1.000";
   "2.500"; "5.000"; "10.000"].

(** A bucket line with its label and its count already printed. *)
Definition printedBucketLine (label : string) (n : Z) : string :=
  "http_request_duration_seconds_bucket{" +:+ jobLabel +:+ ",le=" +:+ quote
  +:+ label +:+ quote +:+ "} " +:+ fmt.formatInt n +:+ newline.

(** ** package transformer *)

(** [strings.ReplaceAll(s, old, new)] for a non-empty [old] (every pattern
    of this package has at least four bytes): the occurrences of [old] are
    taken from the left and do not overlap.  [skip] counts the bytes of an
    occurrence that are still to be passed over. *)
Fixpoint replaceFrom (old new : string) (skip : nat) (s : string) : string :=
  match s with
  | "" => ""
  | String c s' =>
      match skip with
      | S k => replaceFrom old new k s'
      | O =>
          if gostrings.HasPrefix s old then
            new +:+ replaceFrom old new (String.length old - 1) s'
          else String c (replaceFrom old new 0 s')
      end
  end.

Definition ReplaceAll (s old new : string) : string := replaceFrom old new 0 s.

Module transformer.

(** [Cache]: the transformed contents by path and the two counters
    ([uint64]).  The lock carries no data of the model; a [[]byte] is a
    byte string. *)
Record Cache := mkCache {
  files : gmap string string;
  hits : Z;
  misses : Z
}.

Definition NewCache : Cache := {| files := ∅; hits := 0; misses := 0 |}.

(** [Get]: the content with the flag [exists], and the cache with its
    counters afterwards.  A missing path gives the nil slice. *)
Definition Get (c : Cache) (path : string) : (string * bool) * Cache :=
  match files c !! path with
  | Some content =>
      ((content, true),
       {| files := files c; hits := uint64 (hits c + 1); misses := misses c |})
  | None =>
      (("", false),
       {| files := files c; hits := hits c; misses := uint64 (misses c + 1) |})
  end.

Definition Set_ (c : Cache) (path content : string) : Cache :=
  {| files := <[path := content]> (files c); hits := hits c;
     misses := misses c |}.

Definition Size (c : Cache) : Z := Z.of_nat (size (files c)).

(** The loop of [Stats] over the files, for a given iteration order. *)
Definition sizeBytesIn (order : list (string * string)) : Z :=
  fold_left
    (fun sizeBytes kv => sizeBytes + Z.of_nat (String.length (snd kv)))
    order 0.

(** The results [Stats] can give: the counters and the size in bytes
    summed in some iteration order of the map. *)
Inductive Stats (c : Cache) : Z * Z * Z -> Prop :=
  | Stats_intro (order : list (string * string)) :
      rangeOrder (files c) order ->
      Stats c (hits c, misses c, sizeBytesIn order).

(** The body of the loop of [transform] for one entry of the map. *)
Definition replacePlaceholder (contentStr : string) (kv : string * string)
    : string :=
  let pattern := "__" +:+ fst kv +:+ "__" in
  ReplaceAll contentStr pattern (snd kv).

(** [transform] for a given iteration order of the replacements. *)
Definition transformIn (order : list (string * string)) (content : string)
    : string :=
  fold_left replacePlaceholder order content.

(** The results [transform] can give. *)
Inductive transform (replacements : gmap string string) (content : string)
    : string -> Prop :=
  | transform_intro (order : list (string * string)) :
      rangeOrder replacements order ->
      transform replacements content (transformIn order content).

End transformer.

(** A client of the cache: the calls of [Get] and [Set] it makes, in the
    order the lock serialises them, from a new cache. *)
Inductive cacheCall :=
  | CallGet (path : string)
  | CallSet (path content : string).

Definition cacheStep (c : transformer.Cache) (call : cacheCall)
    : transformer.Cache :=
  match call with
  | CallGet path => snd (transformer.Get c path)
  | CallSet path content => transformer.Set_ c path content
  end.

Definition cacheRun (calls : list cacheCall) : transformer.Cache :=
  fold_left cacheStep calls transformer.NewCache.

Definition isGet (call : cacheCall) : bool :=
  match call with CallGet _ => true | CallSet _ _ => false end.

Definition setsPath (path : string) (call : cacheCall) : bool :=
  match call with
  | CallGet _ => false
  | CallSet path' _ => bool_decide (path' = path)
  end.

(** ** package path/filepath, where the separator is [/] *)

Module filepath.

(** The loop of [Ext] on the bytes of the path from its end: [r] is what is
    still to be read, last byte first, and [acc] what has been read. *)
Fixpoint extFrom (r acc : string) : string :=
  match r with
  | "" => ""
  | String c r' =>
      if Ascii.eqb c "/" then ""
      else if Ascii.eqb c "." then String c acc
      else extFrom r' (String c acc)
  end.

(** [Ext]: the suffix from the last point of the last element, or the
    empty string. *)
Definition Ext (path : string) : string := extFrom (String.rev path) "".

End filepath.

(** ** [strings.ToLower] *)

Fixpoint isASCII (s : string) : bool :=
  match s with
  | "" => true
  | String c s' => (N_of_ascii c <? 128)%N && isASCII s'
  end.

Definition lowerByte (c : ascii) : ascii :=
  if ((65 <=? N_of_ascii c) && (N_of_ascii c <=? 90))%N
  then ascii_of_N (N_of_ascii c + 32)
  else c.

Fixpoint lowerASCII (s : string) : string :=
  match s with
  | "" => ""
  | String c s' => String (lowerByte c) (lowerASCII s')
  end.

Section ToLower.

(** [strings.Map(unicode.ToLower, s)], which [ToLower] falls back to for a
    string with a byte outside ASCII.  The Unicode tables are not part of
    this development: what follows holds for every such function. *)
Variable mapToLower : string -> string.

Definition ToLower (s : string) : string :=
  if isASCII s then lowerASCII s else mapToLower s.

(** *** transformer.go, [shouldTransform] *)

Definition transformableExts : gmap string bool :=
  list_to_map
    [(".html", true); (".htm", true); (".js", true); (".mjs", true);
     (".jsx", true); (".ts", true); (".tsx", true); (".css", true);
     (".json", true); (".xml", true); (".svg", true); (".txt", true);
     (".md", true); (".env", true); (".yml", true); (".yaml", true)].

Definition shouldTransform (path : string) : bool :=
  let ext := ToLower (filepath.Ext path) in
  default false (transformableExts !! ext).

(** *** server.go *)

Definition contentTypes : gmap string string :=
  list_to_map
    [(".html", "text/html; charset=utf-8");
     (".htm", "text/html; charset=utf-8");
     (".css", "text/css; charset=utf-8");
     (".js", "application/javascript; charset=utf-8");
     (".mjs", "application/javascript; charset=utf-8");
     (".json", "application/json; charset=utf-8");
     (".xml", "application/xml; charset=utf-8");
     (".svg", "image/svg+xml");
     (".png", "image/png");
     (".jpg", "image/jpeg");
     (".jpeg", "image/jpeg");
     (".gif", "image/gif");
     (".webp", "image/webp");
     (".ico", "image/x-icon");
     (".woff", "font/woff");
     (".woff2", "font/woff2");
     (".ttf", "font/ttf");
     (".eot", "application/vnd.ms-fontobject");
     (".txt", "text/plain; charset=utf-8");
     (".md", "text/markdown; charset=utf-8")].

Definition getContentType (path : string) : string :=
  let ext := ToLower (filepath.Ext path) in
  match contentTypes !! ext with
  | Some ct => ct
  | None => "application/octet-stream"
  end.

End ToLower.

Definition specialPaths : list string :=
  ["/.well-known/"; "/metrics"; "/health"].

Definition shouldFallbackToSPA (path : string) : bool :=
  if gostrings.HasPrefix path "/api/" then false
  else if existsb (fun sp => gostrings.HasPrefix path sp) specialPaths
  then false
  else bool_decide (filepath.Ext path = "").

(** ** [strconv.Atoi], where [int] has 64 bits *)

Fixpoint readDigits (s : string) (n : Z) : option Z :=
  match s with
  | "" => Some n
  | String ch s' =>
      match Ascii.is_nat ch with
      | Some d => readDigits s' (n * 10 + Z.of_nat d)
      | None => None
      end
  end.

(** [Atoi]: the value of an optional sign and one or more decimal digits
    when it fits [int]; [None] is a non-nil error, of syntax or of range. *)
Definition Atoi (s : string) : option Z :=
  let '(neg, digits) :=
    match s with
    | String c rest =>
        if Ascii.eqb c "-" then (true, rest)
        else if Ascii.eqb c "+" then (false, rest)
        else (false, s)
    | "" => (false, s)
    end in
  match digits with
  | "" => None
  | _ =>
      match readDigits digits 0 with
      | Some un =>
          let n := if neg : bool then - un else un in
          if (- 2 ^ 63 <=? n) && (n <=? 2 ^ 63 - 1) then Some n else None
      | None => None
      end
  end.

(** ** More of package strings *)

(** What is before and what is behind the first [sep] of [s]. *)
Fixpoint cutByte (sep : ascii) (s : string) : option (string * string) :=
  match s with
  | "" => None
  | String c rest =>
      if Ascii.eqb c sep then Some ("", rest)
      else
        match cutByte sep rest with
        | Some (before, after) => Some (String c before, after)
        | None => None
        end
  end.

(** [strings.SplitN(s, "=", 2)] *)
Definition SplitN_eq_2 (s : string) : list string :=
  match cutByte "=" s with
  | Some (before, after) => [before; after]
  | None => [s]
  end.

Definition TrimPrefix (s prefix : string) : string :=
  default s (gostrings.cutPrefix s prefix).

(** ** package config *)

Module config.

Record Config := mkConfig {
  Port : string;
  AssetDir : string;
  Host : string;
  FMKey : string;
  PrometheusEnabled : bool;
  PrometheusScenario : string;
  Replacements : gmap string string
}.

(** What [Load] returns: the configuration with a nil error, or nil with
    the error. *)
Inductive loadResult :=
  | Loaded (cfg : Config)
  | LoadError (msg : string).

Section environment.

(** The environment of the process as [os.Environ] returns it, entries of
    the form [key=value]; whether [os.Stat] of a path fails with an error
    that [os.IsNotExist] accepts; and the Unicode part of [ToLower]. *)
Variable environ : list string.
Variable notExist : string -> bool.
Variable mapToLower : string -> string.

Fixpoint lookupEnv (envs : list string) (key : string) : string :=
  match envs with
  | [] => ""
  | env :: rest =>
      match cutByte "=" env with
      | Some (k, value) =>
          if String.eqb k key then value else lookupEnv rest key
      | None => lookupEnv rest key
      end
  end.

(** [os.Getenv]: the value of the entry of the key, empty when there is
    none. *)
Definition Getenv (key : string) : string :=
  if String.eqb key "" then "" else lookupEnv environ key.

Definition getEnvOrDefault (key defaultValue : string) : string :=
  let value := Getenv key in
  if negb (String.eqb value "") then value else defaultValue.

Definition getBoolEnvOrDefault (key : string) (defaultValue : bool) : bool :=
  let value := Getenv key in
  if String.eqb value "" then defaultValue
  else
    let lowered := ToLower mapToLower value in
    if existsb (String.eqb lowered) ["true"; "1"; "yes"; "on"] then true
    else if existsb (String.eqb lowered) ["false"; "0"; "no"; "off"]
    then false
    else defaultValue.

(** [Validate]: [None] is the nil error. *)
Definition Validate (c : Config) : option string :=
  if String.eqb (Port c) "" then Some "PORT cannot be empty"
  else
    let portNum := Atoi (Port c) in
    if match portNum with
       | None => true
       | Some portNum => (portNum <? 1) || (portNum >? 65535)
       end
    then Some ("PORT must be a number between 1 and 65535, got: " +:+ Port c)
    else if String.eqb (AssetDir c) "" then Some "ASSET_DIR cannot be empty"
    else if notExist (AssetDir c)
    then Some ("asset directory does not exist: " +:+ AssetDir c)
    else None.

(** The body of the loop of [Load] for one entry of the environment. *)
Definition loadEntry (replacements : gmap string string) (env : string)
    : gmap string string :=
  match SplitN_eq_2 env with
  | [key; value] =>
      if gostrings.HasPrefix key "STAGE_" then
        let placeholder := TrimPrefix key "STAGE_" in
        if String.eqb placeholder ""
           || String.eqb (gostrings.TrimSpace placeholder) ""
        then replacements
        else <[placeholder := value]> replacements
      else replacements
  | _ => replacements
  end.

Definition Load : loadResult :=
  let cfg :=
    {| Port := getEnvOrDefault "PORT" "8080";
       AssetDir := getEnvOrDefault "ASSET_DIR" "/app/assets";
       Host := getEnvOrDefault "HOST" "0.0.0.0";
       FMKey := Getenv "FM_KEY";
       PrometheusEnabled := getBoolEnvOrDefault "PROMETHEUS_ENABLED" true;
       PrometheusScenario :=
         getEnvOrDefault "STAGE_PROMETHEUS_SCENARIO" "healthy";
       Replacements := ∅ |} in
  let replacements := fold_left loadEntry environ (Replacements cfg) in
  let replacements :=
    if negb (String.eqb (FMKey cfg) "")
    then <["FM_KEY" := FMKey cfg]> replacements
    else replacements in
  let cfg :=
    {| Port := Port cfg; AssetDir := AssetDir cfg; Host := Host cfg;
       FMKey := FMKey cfg; PrometheusEnabled := PrometheusEnabled cfg;
       PrometheusScenario := PrometheusScenario cfg;
       Replacements := replacements |} in
  match Validate cfg with
  | Some err => LoadError err
  | None => Loaded cfg
  end.

End environment.

(** The keys of the entries of an environment.  [os.Environ] reports each
    key once. *)
Definition envKeys (environ : list string) : list string :=
  omap (fun env => fst <$> cutByte "=" env) environ.

End config.

(** * Properties *)

(** ** The catalog *)

Lemma AllScenarios_lookup (name : ScenarioType) (s : Scenario) :
  AllScenarios !! name = Some s ->
  (name = ScenarioHealthy /\ s = healthy) \/
  (name = ScenarioHighErrors /\ s = high_errors) \/
  (name = ScenarioLatencySpike /\ s = latency_spike) \/
  (name = ScenarioGradualDegradation /\ s = gradual_degradation).
Proof.
  unfold AllScenarios. intros H.
  repeat (apply lookup_insert_Some in H as [[<- <-] | [_ H]]; [tauto |]).
  by rewrite lookup_empty in H.
Qed.

Lemma AllScenarios_healthy : AllScenarios !! ScenarioHealthy = Some healthy.
Proof. reflexivity. Qed.

Lemma AllScenarios_high_errors :
  AllScenarios !! ScenarioHighErrors = Some high_errors.
Proof. reflexivity. Qed.

Lemma AllScenarios_latency_spike :
  AllScenarios !! ScenarioLatencySpike = Some latency_spike.
Proof. reflexivity. Qed.

Lemma AllScenarios_gradual_degradation :
  AllScenarios !! ScenarioGradualDegradation = Some gradual_degradation.
Proof. reflexivity. Qed.

Lemma AllScenarios_lookup_None (name : ScenarioType) :
  name ∉ ValidScenarioTypes -> AllScenarios !! name = None.
Proof.
  unfold ValidScenarioTypes, AllScenarios. intros H.
  rewrite !not_elem_of_cons in H. destruct H as (? & ? & ? & ? & _).
  by rewrite !lookup_insert_ne, lookup_empty.
Qed.

Lemma catalog_durations (name : ScenarioType) (s : Scenario) :
  AllScenarios !! name = Some s ->
  0 <= ErrorRateDuration s /\ 0 <= LatencyDuration s.
Proof.
  intros H. apply AllScenarios_lookup in H.
  destruct H as [[_ ->] | [[_ ->] | [[_ ->] | [_ ->]]]]; simpl;
    unfold time.Minute, time.Second, time.Millisecond, time.Microsecond,
      time.Nanosecond; lia.
Qed.

(** ** Interpolation over elapsed time *)

Section Interpolation.

Local Open Scope R_scope.

Lemma math_Pow_2 (x : R) : math_Pow x 2 = x ^ 2.
Proof.
  unfold math_Pow. destruct (Req_dec_T 2 2) as [_ | n]; [ring | lra].
Qed.

Lemma math_Pow_half (x : R) : math_Pow x 0.5 = sqrt x.
Proof.
  unfold math_Pow.
  destruct (Req_dec_T 0.5 2) as [e | _]; [lra |].
  destruct (Req_dec_T 0.5 0.5) as [_ | n]; [reflexivity | lra].
Qed.

(** The clamp test [progress >= 1.0] in terms of the two durations. *)
Lemma progress_ge_1 (elapsed duration : Z) :
  (0 < duration)%Z ->
  IZR elapsed / IZR duration >= 1.0 <-> (duration <= elapsed)%Z.
Proof.
  intros Hd. assert (Hd' : 0 < IZR duration) by (apply IZR_lt; lia).
  split.
  - intros H. apply le_IZR.
    apply Rge_le in H.
    apply (Rmult_le_compat_r (IZR duration)) in H; [| lra].
    unfold Rdiv in H. rewrite Rmult_assoc, Rinv_l in H; lra.
  - intros H. apply IZR_le in H. apply Rle_ge.
    apply (Rmult_le_reg_r (IZR duration)); [lra |].
    unfold Rdiv. rewrite Rmult_assoc, Rinv_l; lra.
Qed.

Variable s : Scenario.

Lemma CalculateErrorRate_static (elapsed : time.Duration) :
  ErrorRateDuration s = 0%Z ->
  CalculateErrorRate s elapsed = ErrorRateStart s.
Proof. unfold CalculateErrorRate. by intros ->. Qed.

Lemma CalculateLatency_static (elapsed : time.Duration) :
  LatencyDuration s = 0%Z ->
  CalculateLatency s elapsed = LatencyStart s.
Proof. unfold CalculateLatency. by intros ->. Qed.

Lemma CalculateErrorRate_clamped (elapsed : time.Duration) :
  (0 < ErrorRateDuration s)%Z -> (ErrorRateDuration s <= elapsed)%Z ->
  CalculateErrorRate s elapsed = ErrorRateEnd s.
Proof.
  intros Hd He. unfold CalculateErrorRate.
  destruct (Z.eqb_spec (ErrorRateDuration s) 0); [lia |].
  destruct (Rge_dec _ _) as [_ | Hlt]; [reflexivity |].
  exfalso. apply Hlt. by apply progress_ge_1.
Qed.

Lemma CalculateLatency_clamped (elapsed : time.Duration) :
  (0 < LatencyDuration s)%Z -> (LatencyDuration s <= elapsed)%Z ->
  CalculateLatency s elapsed = LatencyEnd s.
Proof.
  intros Hd He. unfold CalculateLatency.
  destruct (Z.eqb_spec (LatencyDuration s) 0); [lia |].
  destruct (Rge_dec _ _) as [_ | Hlt]; [reflexivity |].
  exfalso. apply Hlt. by apply progress_ge_1.
Qed.

Lemma CalculateErrorRate_linear (elapsed : time.Duration) :
  (0 < ErrorRateDuration s)%Z -> (elapsed < ErrorRateDuration s)%Z ->
  CalculateErrorRate s elapsed =
  ErrorRateStart s + (ErrorRateEnd s - ErrorRateStart s) *
                     (IZR elapsed / IZR (ErrorRateDuration s)).
Proof.
  intros Hd He. unfold CalculateErrorRate.
  destruct (Z.eqb_spec (ErrorRateDuration s) 0); [lia |].
  destruct (Rge_dec _ _) as [Hge | _]; [| reflexivity].
  apply progress_ge_1 in Hge; lia.
Qed.

Lemma CalculateLatency_quadratic (elapsed : time.Duration) :
  (0 < LatencyDuration s)%Z -> (elapsed < LatencyDuration s)%Z ->
  CalculateLatency s elapsed =
  LatencyStart s + (LatencyEnd s - LatencyStart s) *
                   (IZR elapsed / IZR (LatencyDuration s)) ^ 2.
Proof.
  intros Hd He. unfold CalculateLatency.
  destruct (Z.eqb_spec (LatencyDuration s) 0); [lia |].
  destruct (Rge_dec _ _) as [Hge | _].
  - apply progress_ge_1 in Hge; lia.
  - by rewrite math_Pow_2.
Qed.

Lemma CalculateErrorRate_0 :
  (0 < ErrorRateDuration s)%Z ->
  CalculateErrorRate s 0%Z = ErrorRateStart s.
Proof.
  intros Hd. rewrite CalculateErrorRate_linear by lia.
  unfold Rdiv. ring.
Qed.

Lemma CalculateLatency_0 :
  (0 < LatencyDuration s)%Z -> CalculateLatency s 0%Z = LatencyStart s.
Proof.
  intros Hd. rewrite CalculateLatency_quadratic by lia.
  unfold Rdiv. ring.
Qed.

End Interpolation.

(** C1.  For a scenario [s] of the catalog and an elapsed time
    [elapsed >= 0]: each duration is zero or positive; with a zero duration
    the metric stays at its start value; with a positive duration it is the
    start value at [0], the end value at the duration and beyond it, and
    before it the error rate is [start + (end-start)*progress] and the
    latency [start + (end-start)*progress^2] with
    [progress = elapsed / duration]. *)
Theorem calculate_interpolation (name : ScenarioType) (s : Scenario)
    (elapsed : time.Duration) :
  AllScenarios !! name = Some s ->
  0 <= elapsed ->
  ((ErrorRateDuration s = 0 /\
    CalculateErrorRate s elapsed = ErrorRateStart s) \/
   (0 < ErrorRateDuration s /\
    CalculateErrorRate s 0 = ErrorRateStart s /\
    CalculateErrorRate s (ErrorRateDuration s) = ErrorRateEnd s /\
    (ErrorRateDuration s < elapsed ->
     CalculateErrorRate s elapsed = ErrorRateEnd s) /\
    (elapsed < ErrorRateDuration s ->
     CalculateErrorRate s elapsed =
     (ErrorRateStart s + (ErrorRateEnd s - ErrorRateStart s) *
                         (IZR elapsed / IZR (ErrorRateDuration s)))%R)))
  /\
  ((LatencyDuration s = 0 /\
    CalculateLatency s elapsed = LatencyStart s) \/
   (0 < LatencyDuration s /\
    CalculateLatency s 0 = LatencyStart s /\
    CalculateLatency s (LatencyDuration s) = LatencyEnd s /\
    (LatencyDuration s < elapsed ->
     CalculateLatency s elapsed = LatencyEnd s) /\
    (elapsed < LatencyDuration s ->
     CalculateLatency s elapsed =
     (LatencyStart s + (LatencyEnd s - LatencyStart s) *
                       (IZR elapsed / IZR (LatencyDuration s)) ^ 2)%R))).
Proof.
  intros Hs He. destruct (catalog_durations name s Hs) as [H1 H2]. split.
  - destruct (Z.eq_dec (ErrorRateDuration s) 0) as [e | n].
    + left. split; [done |]. by apply CalculateErrorRate_static.
    + right. assert (0 < ErrorRateDuration s) by lia.
      repeat split; [done | by apply CalculateErrorRate_0 | ..]; intros;
        first [apply CalculateErrorRate_clamped; lia
              | by apply CalculateErrorRate_linear].
  - destruct (Z.eq_dec (LatencyDuration s) 0) as [e | n].
    + left. split; [done |]. by apply CalculateLatency_static.
    + right. assert (0 < LatencyDuration s) by lia.
      repeat split; [done | by apply CalculateLatency_0 | ..]; intros;
        first [apply CalculateLatency_clamped; lia
              | by apply CalculateLatency_quadratic].
Qed.

(** C1 at a concrete input: gradual degradation, five minutes in. *)
Lemma calculate_interpolation_witness :
  CalculateErrorRate gradual_degradation 300000000000 =
    (0.5 + (15.0 - 0.5) * (IZR 300000000000 / IZR (10 * time.Minute)))%R /\
  CalculateLatency gradual_degradation 300000000000 =
    (120 + (800 - 120) * (IZR 300000000000 / IZR (10 * time.Minute)) ^ 2)%R.
Proof.
  destruct (calculate_interpolation ScenarioGradualDegradation
              gradual_degradation 300000000000) as [He Hl];
    [reflexivity | lia | ].
  split.
  - destruct He as [[He _] | (_ & _ & _ & _ & He)]; [discriminate He |].
    apply He. reflexivity.
  - destruct Hl as [[Hl _] | (_ & _ & _ & _ & Hl)]; [discriminate Hl |].
    apply Hl. reflexivity.
Defined.

(** ** Scenario lookup *)

(** C5.  [GetScenario] returns the catalog entry for each of the four
    names and the healthy scenario for every other name; [SetScenario] with
    such a name installs the healthy scenario (and the new start time). *)
Theorem GetScenario_fallback :
  GetScenario "healthy" = healthy /\
  GetScenario "high-errors" = high_errors /\
  GetScenario "latency-spike" = latency_spike /\
  GetScenario "gradual-degradation" = gradual_degradation /\
  forall name : ScenarioType,
    name ∉ ["healthy"; "high-errors"; "latency-spike"; "gradual-degradation"] ->
    GetScenario name = healthy /\
    forall (ms : MockServer) (now : time.Time),
      SetScenario ms name now =
      {| currentScenario := healthy; startTime := now |}.
Proof.
  repeat split; try reflexivity.
  - unfold GetScenario. by rewrite (AllScenarios_lookup_None name).
  - intros ms now. unfold SetScenario, GetScenario.
    by rewrite (AllScenarios_lookup_None name).
Qed.

(** ** Human-readable durations *)

Section Durations.

(** Truncating [whole + remainder/unit] gives back the integer quotient:
    this is [int(d.Hours())] and its siblings on a non-negative [d]. *)
Lemma int_of_float64_quot (d m : Z) :
  0 <= d -> 0 < m ->
  int_of_float64 (IZR (Z.quot d m) + IZR (Z.rem d m) / IZR m) = d / m.
Proof.
  intros Hd Hm.
  rewrite Z.quot_div_nonneg, Z.rem_mod_nonneg by lia.
  pose proof (Z.mod_pos_bound d m Hm) as [Hr0 Hr1].
  pose proof (Z.div_pos d m Hd Hm) as Hq.
  assert (0 < IZR m)%R by (apply IZR_lt; lia).
  assert (0 <= IZR (d mod m) / IZR m < 1)%R as [Hf0 Hf1].
  { split.
    - apply Rmult_le_pos; [apply IZR_le; lia |].
      left; by apply Rinv_0_lt_compat.
    - apply (Rmult_lt_reg_r (IZR m)); [done |].
      unfold Rdiv. rewrite Rmult_assoc, Rinv_l, Rmult_1_r, Rmult_1_l by lra.
      apply IZR_lt; lia. }
  assert (0 <= IZR (d / m))%R by (apply IZR_le; lia).
  unfold int_of_float64. destruct (Rle_dec _ _) as [_ | Hn]; [| lra].
  apply Zfloor_eq. lra.
Qed.

Lemma int_Hours (d : time.Duration) :
  0 <= d -> int_of_float64 (time.Hours d) = d / time.Hour.
Proof.
  intros Hd. unfold time.Hours.
  replace (60 * 60 * 1e9)%R with (IZR time.Hour)
    by (change time.Hour with 3600000000000; lra).
  by apply int_of_float64_quot.
Qed.

Lemma int_Minutes (d : time.Duration) :
  0 <= d -> int_of_float64 (time.Minutes d) = d / time.Minute.
Proof.
  intros Hd. unfold time.Minutes.
  replace (60 * 1e9)%R with (IZR time.Minute)
    by (change time.Minute with 60000000000; lra).
  by apply int_of_float64_quot.
Qed.

Lemma int_Seconds (d : time.Duration) :
  0 <= d -> int_of_float64 (time.Seconds d) = d / time.Second.
Proof.
  intros Hd. unfold time.Seconds.
  replace (1e9)%R with (IZR time.Second)
    by (change time.Second with 1000000000; lra).
  by apply int_of_float64_quot.
Qed.

(** [formatDuration] through integer arithmetic only. *)
Lemma formatDuration_unfold (d : time.Duration) :
  0 <= time.Round d time.Second ->
  formatDuration d =
  let d := time.Round d time.Second in
  let h := d / time.Hour in
  let m := (d / time.Minute) mod 60 in
  let s := (d / time.Second) mod 60 in
  if h >? 0 then
    fmt.formatInt h +:+ "h " +:+ fmt.formatInt m +:+ "m " +:+
    fmt.formatInt s +:+ "s"
  else if m >? 0 then
    fmt.formatInt m +:+ "m " +:+ fmt.formatInt s +:+ "s"
  else
    fmt.formatInt s +:+ "s".
Proof.
  intros Hd. unfold formatDuration.
  rewrite int_Hours, int_Minutes, int_Seconds by done.
  rewrite !Z.rem_mod_nonneg; try lia; try done.
  - apply Z.div_pos; [done | reflexivity].
  - apply Z.div_pos; [done | reflexivity].
Qed.

(** [d.Round(time.Second)] when the nearest second fits an [int64]. *)
Lemma Round_Second (d : time.Duration) :
  0 <= d < 9223372036500000000 ->
  time.Round d time.Second = Spec.nearestSecond d * 1000000000.
Proof.
  intros Hd.
  unfold Spec.nearestSecond, time.Round, time.lessThanHalf, uint64, wrap64,
    time.maxDuration.
  change time.Second with 1000000000.
  rewrite Z.rem_mod_nonneg by lia.
  change (2 ^ 64) with 18446744073709551616.
  change (2 ^ 63) with 9223372036854775808.
  pose proof (Z.mod_pos_bound d 1000000000 ltac:(lia)) as Hr.
  pose proof (Z.div_mod d 1000000000 ltac:(lia)) as Hdm.
  set (r := d mod 1000000000) in *. set (q := d / 1000000000) in *.
  destruct (Z.leb_spec 1000000000 0); [lia |].
  destruct (Z.ltb_spec d 0); [lia |].
  rewrite !(Z.mod_small r), (Z.mod_small (r + r)),
    (Z.mod_small 1000000000) by lia.
  destruct (Z.ltb_spec (r + r) 1000000000).
  - rewrite Z.mod_small by lia.
    replace (d + 500000000) with ((r + 500000000) + q * 1000000000) by lia.
    rewrite Z.div_add, (Z.div_small (r + 500000000)) by lia. lia.
  - rewrite Z.mod_small by lia.
    destruct (Z.gtb_spec (d + 1000000000 - r + 9223372036854775808
                          - 9223372036854775808) d); [| lia].
    replace (d + 500000000)
      with ((r - 500000000) + (q + 1) * 1000000000) by lia.
    rewrite Z.div_add, (Z.div_small (r - 500000000)) by lia. lia.
Qed.

Lemma nearestSecond_nonneg (d : time.Duration) :
  0 <= d -> 0 <= Spec.nearestSecond d.
Proof. intros Hd. unfold Spec.nearestSecond. apply Z.div_pos; lia. Qed.

End Durations.

(** C7, as the code has it.  For a non-negative duration whose nearest
    whole second still fits a [Duration] (below 9223372036.5 seconds),
    [formatDuration] renders the duration rounded to the nearest second as
    ["Ns"] under a minute, ["Nm Ms"] under an hour and ["Nh Mm Ss"]
    otherwise. *)
Theorem formatDuration_spec (d : time.Duration) :
  0 <= d < 9223372036500000000 ->
  formatDuration d = Spec.renderSeconds (Spec.nearestSecond d).
Proof.
  intros Hd.
  pose proof (nearestSecond_nonneg d ltac:(lia)) as Hn.
  rewrite formatDuration_unfold; rewrite Round_Second by done; [| lia].
  set (n := Spec.nearestSecond d) in *. clearbody n. cbv zeta.
  change time.Hour with (3600 * 1000000000).
  change time.Minute with (60 * 1000000000).
  change time.Second with (1 * 1000000000).
  rewrite !Z.div_mul_cancel_r by lia. rewrite Z.div_1_r.
  unfold Spec.renderSeconds.
  destruct (Z.ltb_spec n 60) as [H60 | H60].
  - rewrite (Z.div_small n 3600), (Z.div_small n 60) by lia.
    simpl. by rewrite Z.mod_small by lia.
  - destruct (Z.ltb_spec n 3600) as [H3600 | H3600].
    + rewrite (Z.div_small n 3600) by lia. simpl.
      assert (1 <= n / 60 < 60) as Hq.
      { split; [apply Z.div_le_lower_bound; lia
               | apply Z.div_lt_upper_bound; lia]. }
      rewrite (Z.mod_small (n / 60)) by lia.
      destruct (Z.gtb_spec (n / 60) 0); [done | lia].
    + assert (1 <= n / 3600) by (apply Z.div_le_lower_bound; lia).
      destruct (Z.gtb_spec (n / 3600) 0); [done | lia].
Qed.

(** C7 at 3665 seconds and at 65 seconds. *)
Lemma formatDuration_spec_witness :
  formatDuration (3665 * time.Second) = "1h 1m 5s" /\
  formatDuration (65 * time.Second) = "1m 5s".
Proof.
  split.
  - rewrite (formatDuration_spec (3665 * time.Second));
      [reflexivity | split; [discriminate | reflexivity] ].
  - rewrite (formatDuration_spec (65 * time.Second));
      [reflexivity | split; [discriminate | reflexivity] ].
Defined.

(** C7 as stated fails at the largest duration: rounding saturates at
    [maxDuration], which is 16 seconds into its minute, while the nearest
    second is 17 seconds into it. *)
Lemma formatDuration_saturates :
  0 <= time.maxDuration /\
  formatDuration time.maxDuration = "2562047h 47m 16s" /\
  Spec.renderSeconds (Spec.nearestSecond time.maxDuration)
    = "2562047h 47m 17s" /\
  formatDuration time.maxDuration <>
  Spec.renderSeconds (Spec.nearestSecond time.maxDuration).
Proof.
  assert (H : formatDuration time.maxDuration = "2562047h 47m 16s").
  { rewrite formatDuration_unfold; [reflexivity | discriminate]. }
  split; [discriminate |]. split; [exact H |]. split; [reflexivity |].
  rewrite H. discriminate.
Qed.

(** ** Byte strings: prefixes, substrings, trimming *)

Section Strings.

Import gostrings.

Lemma append_cons (c : ascii) (s1 s2 : string) :
  String c s1 +:+ s2 = String c (s1 +:+ s2).
Proof. reflexivity. Qed.

Lemma append_nil_l (s : string) : "" +:+ s = s.
Proof. reflexivity. Qed.

Lemma append_nil_r (s : string) : s +:+ "" = s.
Proof.
  induction s as [| c s IH]; [done |]. by rewrite append_cons, IH.
Qed.

Lemma append_assoc (s1 s2 s3 : string) :
  (s1 +:+ s2) +:+ s3 = s1 +:+ (s2 +:+ s3).
Proof.
  induction s1 as [| c s1 IH]; [done |]. by rewrite !append_cons, IH.
Qed.

Lemma rev_app_append (s1 s2 : string) :
  String.rev_app s1 s2 = String.rev s1 +:+ s2.
Proof.
  unfold String.rev. revert s2.
  induction s1 as [| c s1 IH]; intros s2; [done |]. cbn.
  rewrite IH, (IH (String c "")), append_assoc. done.
Qed.

Lemma rev_cons (c : ascii) (s : string) :
  String.rev (String c s) = String.rev s +:+ String c "".
Proof. unfold String.rev at 1. cbn. apply rev_app_append. Qed.

Lemma rev_append (s1 s2 : string) :
  String.rev (s1 +:+ s2) = String.rev s2 +:+ String.rev s1.
Proof.
  induction s1 as [| c s1 IH].
  - cbn. by rewrite append_nil_r.
  - rewrite append_cons, !rev_cons, IH, append_assoc. done.
Qed.

Lemma rev_involutive (s : string) : String.rev (String.rev s) = s.
Proof.
  induction s as [| c s IH]; [done |].
  rewrite rev_cons, rev_append, IH. done.
Qed.

Lemma HasPrefix_spec (s prefix : string) :
  HasPrefix s prefix = true <-> exists rest, s = prefix +:+ rest.
Proof.
  revert s. induction prefix as [| c prefix IH]; intros s; cbn [HasPrefix].
  - split; [intros _; by exists s | done].
  - destruct s as [| d s]; [split; [done | by intros [? ?]] |].
    destruct (Ascii.eqb_spec c d) as [-> | Hne].
    + rewrite IH. split; intros [rest Hr]; exists rest.
      * by rewrite append_cons, <- Hr.
      * rewrite append_cons in Hr. congruence.
    + split; [done | intros [rest Hr]].
      rewrite append_cons in Hr. congruence.
Qed.

Lemma Contains_spec (s substr : string) :
  Contains s substr = true <->
  exists pre post, s = pre +:+ substr +:+ post.
Proof.
  induction s as [| c s IH]; cbn [Contains].
  - rewrite orb_false_r, HasPrefix_spec. split.
    + intros [rest Hr]. by exists "", rest.
    + intros (pre & post & H). destruct pre; [by exists post | done].
  - rewrite orb_true_iff, HasPrefix_spec, IH. split.
    + intros [[rest Hr] | (pre & post & Hr)].
      * by exists "", rest.
      * exists (String c pre), post. by rewrite Hr.
    + intros (pre & post & Hr). destruct pre as [| d pre].
      * left. by exists post.
      * right. exists pre, post. rewrite append_cons in Hr. congruence.
Qed.

Lemma Contains_rev (s substr : string) :
  Contains (String.rev s) (String.rev substr) = Contains s substr.
Proof.
  apply eq_true_iff_eq. rewrite !Contains_spec. split.
  - intros (pre & post & H). exists (String.rev post), (String.rev pre).
    apply (f_equal String.rev) in H.
    rewrite rev_involutive, !rev_append, rev_involutive, append_assoc in H.
    done.
  - intros (pre & post & ->). exists (String.rev post), (String.rev pre).
    by rewrite !rev_append, append_assoc.
Qed.

Lemma Contains_cons_ne (c a : ascii) (s sub : string) :
  c <> a -> Contains (String c s) (String a sub) = Contains s (String a sub).
Proof.
  intros Hne. cbn. destruct (Ascii.eqb_spec a c); [congruence | done].
Qed.

Lemma plain_not_isSpace1 (a c : ascii) :
  plain a = true -> isSpace1 c = true -> c <> a.
Proof. unfold plain. intros H Hc ->. rewrite Hc in H. done. Qed.

Lemma isSpace2_high (c d : ascii) :
  isSpace2 c d = true -> (128 <= N_of_ascii c)%N /\ (128 <= N_of_ascii d)%N.
Proof.
  unfold isSpace2.
  destruct c as [[] [] [] [] [] [] [] []]; try done;
  destruct d as [[] [] [] [] [] [] [] []]; try done; cbn; lia.
Qed.

Lemma isSpace3_high (c d e : ascii) :
  isSpace3 c d e = true ->
  (128 <= N_of_ascii c)%N /\ (128 <= N_of_ascii d)%N /\
  (128 <= N_of_ascii e)%N.
Proof.
  unfold isSpace3.
  destruct c as [[] [] [] [] [] [] [] []]; try done;
  destruct d as [[] [] [] [] [] [] [] []]; try done;
  destruct e as [[] [] [] [] [] [] [] []]; try done; cbn; lia.
Qed.

Lemma plain_low (a c : ascii) :
  plain a = true -> (128 <= N_of_ascii c)%N -> c <> a.
Proof.
  unfold plain. intros [_ H]%andb_prop Hc ->. apply N.ltb_lt in H. lia.
Qed.

(** Dropping leading white space keeps the occurrences of a substring
    that starts with a plain byte. *)
Lemma trimLeading_Contains (back : bool) (a : ascii) (sub s : string) :
  plain a = true ->
  Contains (trimLeading back s) (String a sub) = Contains s (String a sub).
Proof.
  intros Ha.
  remember (String.length s) as n eqn:Hn. revert s Hn.
  induction n as [n IH] using lt_wf_ind. intros s ->.
  assert (IH' : forall t, (String.length t < String.length s)%nat ->
            Contains (trimLeading back t) (String a sub)
            = Contains t (String a sub)) by eauto.
  clear IH. destruct s as [| c s1]; [done |]. cbn [trimLeading].
  destruct (isSpace1 c) eqn:H1.
  { rewrite IH' by (cbn; lia).
    by rewrite Contains_cons_ne by eauto using plain_not_isSpace1. }
  destruct s1 as [| d s2]; [done |].
  destruct (if back then isSpace2 d c else isSpace2 c d) eqn:H2.
  { rewrite IH' by (cbn; lia).
    assert ((128 <= N_of_ascii c)%N /\ (128 <= N_of_ascii d)%N) as [? ?].
    { destruct back; apply isSpace2_high in H2; tauto. }
    by rewrite !Contains_cons_ne by eauto using plain_low. }
  destruct s2 as [| e s3]; [done |].
  destruct (if back then isSpace3 e d c else isSpace3 c d e) eqn:H3;
    [| done].
  rewrite IH' by (cbn; lia).
  assert ((128 <= N_of_ascii c)%N /\ (128 <= N_of_ascii d)%N /\
          (128 <= N_of_ascii e)%N) as (? & ? & ?).
  { destruct back; apply isSpace3_high in H3; tauto. }
  by rewrite !Contains_cons_ne by eauto using plain_low.
Qed.

Lemma TrimSpace_Contains (s sub sub' sub'' : string) (a z : ascii) :
  sub = String a sub' -> String.rev sub = String z sub'' ->
  plain a = true -> plain z = true ->
  Contains (TrimSpace s) sub = Contains s sub.
Proof.
  intros Hsub Hrev Ha Hz. unfold TrimSpace, TrimRightSpace, TrimLeftSpace.
  rewrite <- (rev_involutive sub) at 1. rewrite Contains_rev, Hrev.
  rewrite trimLeading_Contains by done.
  rewrite <- Hrev, Contains_rev, Hsub.
  by rewrite trimLeading_Contains.
Qed.

Lemma TrimSpace_Contains_errors (s : string) :
  Contains (TrimSpace s) "http_requests_errors_total"
  = Contains s "http_requests_errors_total".
Proof. by eapply TrimSpace_Contains. Qed.

Lemma TrimSpace_Contains_duration (s : string) :
  Contains (TrimSpace s) "http_request_duration_seconds"
  = Contains s "http_request_duration_seconds".
Proof. by eapply TrimSpace_Contains. Qed.

Lemma TrimSpace_Contains_up (s : string) :
  Contains (TrimSpace s) "up" = Contains s "up".
Proof. by eapply TrimSpace_Contains. Qed.

End Strings.

(** ** The two patterns and the quantile argument *)

Section Patterns.

Import gostrings goregexp.

Lemma cutPrefix_append (lit rest : string) :
  cutPrefix (lit +:+ rest) lit = Some rest.
Proof.
  induction lit as [| c lit IH]; [done |].
  rewrite append_cons. cbn [cutPrefix]. by rewrite Ascii.eqb_refl.
Qed.

Lemma HasPrefix_append (lit rest : string) :
  HasPrefix (lit +:+ rest) lit = true.
Proof. apply HasPrefix_spec. by exists rest. Qed.

Lemma span_run (class : ascii -> bool) (run : string) (d : ascii)
    (rest : string) :
  allIn class run = true -> class d = false ->
  span class (run +:+ String d rest) = (run, String d rest).
Proof.
  intros Hrun Hd. induction run as [| c run IH].
  - rewrite append_nil_l. cbn [span]. by rewrite Hd.
  - cbn [allIn] in Hrun. apply andb_prop in Hrun as [Hc Hrun].
    rewrite append_cons. cbn [span]. by rewrite Hc, IH.
Qed.

Lemma matchHere_run (lit : string) (class : ascii -> bool) (stop : ascii)
    (run rest : string) :
  run <> "" -> allIn class run = true -> class stop = false ->
  matchHere lit class stop (lit +:+ run +:+ String stop rest) = Some run.
Proof.
  intros Hne Hrun Hstop. unfold matchHere.
  rewrite cutPrefix_append, span_run by done.
  destruct run as [| c run]; [done |]. by rewrite Ascii.eqb_refl.
Qed.

Lemma FindStringSubmatch_here (lit : string) (class : ascii -> bool)
    (stop : ascii) (s g : string) :
  matchHere lit class stop s = Some g ->
  FindStringSubmatch lit class stop s = Some g.
Proof. intros H. destruct s; cbn [FindStringSubmatch]; by rewrite H. Qed.

(** A failed search: no suffix of the string matches. *)
Lemma FindStringSubmatch_None (lit : string) (class : ascii -> bool)
    (stop : ascii) (s : string) :
  FindStringSubmatch lit class stop s = None <->
  forall pre post, s = pre +:+ post -> matchHere lit class stop post = None.
Proof.
  induction s as [| c s IH]; cbn [FindStringSubmatch].
  - destruct (matchHere lit class stop "") eqn:H0.
    + split; [done | intros H]. by rewrite (H "" "") in H0.
    + split; [| done]. intros _ pre post Hs.
      destruct pre; [| done]. rewrite append_nil_l in Hs. by subst.
  - destruct (matchHere lit class stop (String c s)) eqn:H0.
    + split; [done | intros H]. by rewrite (H "" (String c s)) in H0.
    + rewrite IH. split.
      * intros H pre post Hs. destruct pre as [| d pre].
        -- rewrite append_nil_l in Hs. by subst.
        -- rewrite append_cons in Hs. injection Hs as -> Hs. eauto.
      * intros H pre post Hs. apply (H (String c pre)).
        by rewrite append_cons, Hs.
Qed.

Lemma histogramRegex_here (run rest : string) :
  run <> "" -> allIn quantileClass run = true ->
  histogramRegex ("histogram_quantile(" +:+ run +:+ "," +:+ rest) = Some run.
Proof.
  intros Hne Hrun. unfold histogramRegex.
  apply FindStringSubmatch_here, matchHere_run; done.
Qed.

(** What [readDecimal] accepts is a run of digits and points with a
    digit in it, and its value is not negative. *)
Lemma readDecimal_Some (s : string) (sawdot sawdigits : bool) (mant : Z)
    (frac : nat) (mant' : Z) (frac' : nat) :
  strconv.readDecimal s sawdot sawdigits mant frac = Some (mant', frac') ->
  0 <= mant ->
  allIn quantileClass s = true /\ (sawdigits = false -> s <> "") /\
  0 <= mant'.
Proof.
  revert sawdot sawdigits mant frac.
  induction s as [| c s IH]; intros sawdot sawdigits mant frac H Hm;
    cbn [strconv.readDecimal] in H.
  - destruct sawdigits; [| done]. injection H as <- <-. done.
  - cbn [allIn].
    destruct (Ascii.eqb c ".") eqn:Hdot.
    + destruct sawdot; [done |]. apply IH in H as (-> & _ & ?); [| done].
      unfold quantileClass. by rewrite Hdot, orb_true_r.
    + destruct (Ascii.is_nat c) as [d |] eqn:Hd; [| done].
      apply IH in H as (-> & _ & ?); [| lia].
      unfold quantileClass, isDigit. by rewrite Hd.
Qed.

(** [roundRatio] is within a half of the ratio. *)
Lemma roundRatio_near (num den : Z) :
  0 < den -> 2 * Z.abs (strconv.roundRatio num den * den - num) <= den.
Proof.
  intros Hd. unfold strconv.roundRatio.
  pose proof (Z.div_mod num den ltac:(lia)) as Hdm.
  pose proof (Z.mod_pos_bound num den Hd) as Hr.
  set (quo := num / den) in *. set (r := num mod den) in *.
  destruct (Z.ltb_spec (2 * r) den); [lia |].
  destruct (Z.ltb_spec den (2 * r)); [lia |].
  destruct (Z.even quo); lia.
Qed.

Lemma roundRatio_nonneg (num den : Z) :
  0 <= num -> 0 < den -> 0 <= strconv.roundRatio num den.
Proof.
  intros Hn Hd. unfold strconv.roundRatio.
  pose proof (Z.div_pos num den Hn Hd).
  repeat destruct (_ <? _); [lia | lia |]. destruct (Z.even _); lia.
Qed.

Lemma nearestFloat64_nonneg (p q m e : Z) :
  0 <= p -> 0 < q -> strconv.nearestFloat64 p q = (m, e) -> 0 <= m.
Proof.
  intros Hp Hq. unfold strconv.nearestFloat64.
  destruct (p =? 0); [by intros [= <- <-] |].
  set (e' := Z.max _ _). intros [= <- <-].
  destruct (Z.leb_spec 0 e').
  - apply roundRatio_nonneg; [done |].
    apply Z.mul_pos_pos; [done |]. by apply Z.pow_pos_nonneg.
  - apply roundRatio_nonneg; [| done].
    apply Z.mul_nonneg_nonneg; [done |]. apply Z.pow_nonneg. lia.
Qed.

Lemma float64Value_nonneg (m e : Z) :
  0 <= m -> (0 <= strconv.float64Value m e)%R.
Proof.
  intros Hm. unfold strconv.float64Value. destruct (Z.leb_spec 0 e).
  - apply IZR_le. apply Z.mul_nonneg_nonneg; [done |]. by apply Z.pow_nonneg.
  - apply Rmult_le_pos; [by apply IZR_le |].
    left. apply Rinv_0_lt_compat, IZR_lt. apply Z.pow_pos_nonneg; lia.
Qed.

Lemma ParseFloat_Some (s : string) (q : R) :
  strconv.ParseFloat s = Some q ->
  allIn quantileClass s = true /\ s <> "" /\ (0 <= q)%R.
Proof.
  unfold strconv.ParseFloat.
  destruct (strconv.readDecimal s false false 0 0) as [[mant frac] |] eqn:H;
    [| done].
  apply readDecimal_Some in H as (Hall & Hne & Hm); [| done].
  destruct (strconv.nearestFloat64 mant (10 ^ Z.of_nat frac)) as [m e] eqn:Hr.
  destruct (_ && _); [done |]. intros [= <-].
  split; [done |]. split; [auto |].
  apply float64Value_nonneg.
  apply (nearestFloat64_nonneg mant (10 ^ Z.of_nat frac) m e); [done | | done].
  apply Z.pow_pos_nonneg; lia.
Qed.

End Patterns.

(** ** The search of [FindStringSubmatch] is the leftmost match *)

Section Leftmost.

Import gostrings goregexp.

Variable lit : string.
Variable class : ascii -> bool.
Variable stop : ascii.
Hypothesis stop_outside : class stop = false.

Lemma cutPrefix_Some (s rest : string) :
  cutPrefix s lit = Some rest <-> s = lit +:+ rest.
Proof.
  clear stop_outside. revert s. induction lit as [| c l IH]; intros s.
  - cbn [cutPrefix]. rewrite append_nil_l. split; congruence.
  - cbn [cutPrefix]. rewrite append_cons. destruct s as [| d s].
    + split; discriminate.
    + destruct (Ascii.eqb_spec c d) as [-> | Hne].
      * rewrite IH. split; congruence.
      * split; [discriminate | congruence].
Qed.

Lemma span_spec (s run tail : string) :
  span class s = (run, tail) ->
  s = run +:+ tail /\ allIn class run = true /\
  match tail with "" => True | String d _ => class d = false end.
Proof.
  revert run tail. induction s as [| c s IH]; intros run tail; cbn [span].
  - intros [= <- <-]. done.
  - destruct (class c) eqn:Hc.
    + destruct (span class s) as [run' tail'] eqn:Hs. intros [= <- <-].
      destruct (IH _ _ eq_refl) as (-> & Hrun & Htail).
      rewrite append_cons. cbn [allIn]. by rewrite Hc, Hrun.
    + intros [= <- <-]. rewrite append_nil_l. by rewrite Hc.
Qed.

(** The run of class bytes before a byte outside the class is unique. *)
Lemma run_unique (run1 run2 : string) (d1 d2 : ascii) (t1 t2 : string) :
  allIn class run1 = true -> allIn class run2 = true ->
  class d1 = false -> class d2 = false ->
  run1 +:+ String d1 t1 = run2 +:+ String d2 t2 -> run1 = run2.
Proof.
  revert run2. induction run1 as [| c r1 IH]; intros [| c2 r2];
    cbn [allIn]; rewrite ?append_nil_l, ?append_cons; try done.
  - intros _ [Hc _]%andb_prop Hd1 _ [= -> _]. congruence.
  - intros [Hc _]%andb_prop _ _ Hd2 [= -> _]. congruence.
  - intros [_ H1]%andb_prop [_ H2]%andb_prop Hd1 Hd2 [= -> He].
    f_equal. eauto.
Qed.

Lemma matchHere_Some (s group : string) :
  matchHere lit class stop s = Some group <->
  exists post, matchesAt lit class stop s "" group post.
Proof.
  unfold matchesAt. split.
  - unfold matchHere. destruct (cutPrefix s lit) as [rest |] eqn:Hcut; [| done].
    apply cutPrefix_Some in Hcut as ->.
    destruct (span class rest) as [run tail] eqn:Hspan.
    apply span_spec in Hspan as (-> & Hrun & _).
    destruct run as [| c run]; [done |]. destruct tail as [| d tail]; [done |].
    destruct (Ascii.eqb_spec d stop) as [-> | _]; [| done].
    intros [= <-]. exists tail. by rewrite append_nil_l.
  - intros (post & -> & Hne & Hall). rewrite append_nil_l.
    by apply matchHere_run.
Qed.

Lemma matchesAt_cons (c : ascii) (s pre group post : string) :
  matchesAt lit class stop (String c s) (String c pre) group post <->
  matchesAt lit class stop s pre group post.
Proof.
  unfold matchesAt. rewrite append_cons. split.
  - intros ([= ->] & ? & ?). done.
  - intros (-> & ? & ?). done.
Qed.

Lemma matchesAt_cons_inv (c : ascii) (s pre group post : string) :
  matchesAt lit class stop (String c s) pre group post ->
  pre = "" \/
  exists pre0, pre = String c pre0 /\
               matchesAt lit class stop s pre0 group post.
Proof.
  destruct pre as [| c' pre0]; [by left | right].
  destruct H as (H & ? & ?). rewrite append_cons in H.
  injection H as <- ->. by exists pre0.
Qed.

Lemma leftmost_here (s g group : string) :
  matchHere lit class stop s = Some g ->
  leftmost lit class stop s group <-> g = group.
Proof.
  intros Hm. split.
  - intros (pre & post & H & Hmin).
    pose proof Hm as [post0 H0]%matchHere_Some.
    apply Hmin in H0. destruct pre; [| cbn in H0; lia].
    assert (matchHere lit class stop s = Some group) as H'
      by (apply matchHere_Some; by exists post).
    congruence.
  - intros <-. apply matchHere_Some in Hm as [post Hm].
    exists "", post. split; [done |]. intros. cbn. lia.
Qed.

Lemma leftmost_later (c : ascii) (s group : string) :
  matchHere lit class stop (String c s) = None ->
  leftmost lit class stop (String c s) group <-> leftmost lit class stop s group.
Proof.
  intros Hm. split.
  - intros (pre & post & H & Hmin).
    destruct (matchesAt_cons_inv _ _ _ _ _ H) as [-> | (pre0 & -> & H0)].
    { assert (matchHere lit class stop (String c s) = Some group) as H'
        by (apply matchHere_Some; by exists post).
      congruence. }
    exists pre0, post. split; [done |]. intros pre' group' post' H'.
    apply (matchesAt_cons c) in H'. apply Hmin in H'. cbn in H'. lia.
  - intros (pre & post & H & Hmin). exists (String c pre), post.
    split; [by apply matchesAt_cons |]. intros pre' group' post' H'.
    destruct (matchesAt_cons_inv _ _ _ _ _ H') as [-> | (pre0 & -> & H0)].
    { assert (matchHere lit class stop (String c s) = Some group') as H''
        by (apply matchHere_Some; by exists post').
      congruence. }
    apply Hmin in H0. cbn. lia.
Qed.

Lemma leftmost_empty (group : string) :
  matchHere lit class stop "" = None -> ~ leftmost lit class stop "" group.
Proof.
  intros Hm (pre & post & H & _).
  assert (pre = "") as -> by (destruct H as (H & _); by destruct pre).
  assert (matchHere lit class stop "" = Some group) as H'
    by (apply matchHere_Some; by exists post).
  congruence.
Qed.

(** [FindStringSubmatch] returns the group of the leftmost match. *)
Lemma FindStringSubmatch_Some (s group : string) :
  FindStringSubmatch lit class stop s = Some group <-> leftmost lit class stop s group.
Proof.
  induction s as [| c s IH]; cbn [FindStringSubmatch].
  - destruct (matchHere lit class stop "") as [g |] eqn:Hm.
    + rewrite (leftmost_here _ _ _ Hm). split; congruence.
    + split; [done | intros H]. by apply leftmost_empty in H.
  - destruct (matchHere lit class stop (String c s)) as [g |] eqn:Hm.
    + rewrite (leftmost_here _ _ _ Hm). split; congruence.
    + by rewrite leftmost_later.
Qed.

End Leftmost.

Lemma rateRegex_leftmost (s group : string) :
  rateRegex s = Some group <-> goregexp.leftmost "rate(" rateClass "[" s group.
Proof. by apply FindStringSubmatch_Some. Qed.

Lemma histogramRegex_leftmost (s group : string) :
  histogramRegex s = Some group <->
  goregexp.leftmost "histogram_quantile(" quantileClass "," s group.
Proof. by apply FindStringSubmatch_Some. Qed.

(** ** histogram_quantile *)

Section HistogramQuantile.

Local Open Scope R_scope.

(** The multiplier of the code is the one of the specification. *)
Lemma multiplier_code (quantile : R) :
  (if Rge_dec quantile 0.99 then 2.5
   else if Rge_dec quantile 0.95 then
     1.5 + (quantile - 0.95) / (0.99 - 0.95) * (2.5 - 1.5)
   else if Rge_dec quantile 0.50 then
     0.8 + (quantile - 0.50) / (0.95 - 0.50) * (1.5 - 0.8)
   else quantile / 0.50 * 0.8) = Spec.multiplier quantile.
Proof.
  unfold Spec.multiplier, Spec.lerp.
  repeat destruct (Rge_dec _ _); repeat destruct (Rle_dec _ _);
    try lra; field.
Qed.

Lemma multiplier_nonneg (q : R) : 0 <= q -> 0 <= Spec.multiplier q.
Proof.
  intros Hq. unfold Spec.multiplier, Spec.lerp.
  repeat destruct (Rle_dec _ _); lra.
Qed.

Lemma multiplier_monotone (q1 q2 : R) :
  q1 <= q2 -> Spec.multiplier q1 <= Spec.multiplier q2.
Proof.
  intros Hq. unfold Spec.multiplier, Spec.lerp.
  repeat destruct (Rle_dec _ _); lra.
Qed.

(** A query that reads [histogram_quantile(<run>,...] after trimming,
    with [<run>] a decimal number: the range check and then the value. *)
Lemma parseQuery_histogram_quantile (query run rest : string) (q : R)
    (metrics : MetricValues) :
  gostrings.TrimSpace query = "histogram_quantile(" +:+ run +:+ "," +:+ rest ->
  strconv.ParseFloat run = Some q ->
  parseQuery query metrics =
  if bool_decide (q < 0) || bool_decide (q > 1) then
    Errorf ("quantile must be between 0 and 1, got: " +:+
            fmt.formatFloat 6 q)
  else Value_ (Latency metrics / 1000 * Spec.multiplier q).
Proof.
  intros Htrim Hparse.
  destruct (ParseFloat_Some _ _ Hparse) as (Hall & Hne & _).
  unfold parseQuery. rewrite Htrim.
  assert (gostrings.HasPrefix
            ("histogram_quantile(" +:+ run +:+ "," +:+ rest) "rate("
          = false) as -> by reflexivity.
  rewrite HasPrefix_append. unfold handleHistogramQuantile.
  rewrite histogramRegex_here, Hparse by done.
  destruct (bool_decide (q < 0) || bool_decide (q > 1)); [done |].
  rewrite multiplier_code. do 2 f_equal. lra.
Qed.

End HistogramQuantile.

(** What [ExecuteQuery] makes of the result of [parseQuery]. *)
Lemma ExecuteQuery_Value (ms : MockServer) (now now' : time.Time)
    (query : string) (value : R) :
  parseQuery query (GetCurrentMetrics ms now) = Value_ value ->
  ExecuteQuery ms now now' query = Spec.vectorResponse now' value.
Proof. intros H. unfold ExecuteQuery. by rewrite H. Qed.

Lemma ExecuteQuery_Errorf (ms : MockServer) (now now' : time.Time)
    (query message : string) :
  parseQuery query (GetCurrentMetrics ms now) = Errorf message ->
  ExecuteQuery ms now now' query = Spec.errorResponse message.
Proof. intros H. unfold ExecuteQuery. by rewrite H. Qed.

(** Rounding to an integer, as [%.0f] does, keeps the order. *)
Lemma roundHalfEven_monotone (x y : R) :
  (x <= y)%R -> fmt.roundHalfEven x <= fmt.roundHalfEven y.
Proof.
  intros Hxy. pose proof (Zfloor_le x y Hxy) as Hf.
  pose proof (Zfloor_bound x) as [Hx0 Hx1].
  pose proof (Zfloor_bound y) as [Hy0 Hy1].
  unfold fmt.roundHalfEven.
  destruct (Z.eq_dec (Zfloor x) (Zfloor y)) as [He | Hne].
  - rewrite He in *.
    repeat destruct (Rlt_dec _ _); try lia; try lra;
      destruct (Z.even (Zfloor y)); lia.
  - assert (Zfloor x + 1 <= Zfloor y)%Z by lia.
    repeat destruct (Rlt_dec _ _); try lia;
      repeat destruct (Z.even _); lia.
Qed.



(** C6.  For a non-negative latency, the value of
    [histogram_quantile(q, ...)] does not decrease when [q] grows within
    [0,1]: the two values are ordered, [ExecuteQuery] answers with the
    success responses that carry them, and the numbers of millionths
    these print are ordered too. *)
Theorem histogram_quantile_monotone (ms : MockServer) (now now' : time.Time)
    (query1 query2 run1 run2 rest1 rest2 : string) (q1 q2 : R) :
  gostrings.TrimSpace query1
    = "histogram_quantile(" +:+ run1 +:+ "," +:+ rest1 ->
  gostrings.TrimSpace query2
    = "histogram_quantile(" +:+ run2 +:+ "," +:+ rest2 ->
  strconv.ParseFloat run1 = Some q1 ->
  strconv.ParseFloat run2 = Some q2 ->
  (0 <= Latency (GetCurrentMetrics ms now))%R ->
  (0 <= q1 <= q2)%R -> (q2 <= 1)%R ->
  exists v1 v2 : R,
    parseQuery query1 (GetCurrentMetrics ms now) = Value_ v1 /\
    parseQuery query2 (GetCurrentMetrics ms now) = Value_ v2 /\
    ExecuteQuery ms now now' query1 = Spec.vectorResponse now' v1 /\
    ExecuteQuery ms now now' query2 = Spec.vectorResponse now' v2 /\
    (v1 <= v2)%R /\
    fmt.roundHalfEven (v1 * 1000000) <= fmt.roundHalfEven (v2 * 1000000).
Proof.
  intros Ht1 Ht2 Hp1 Hp2 Hl [Hq0 Hq12] Hq1.
  set (metrics := GetCurrentMetrics ms now) in *.
  exists (Latency metrics / 1000 * Spec.multiplier q1)%R,
         (Latency metrics / 1000 * Spec.multiplier q2)%R.
  assert (parseQuery query1 metrics
          = Value_ (Latency metrics / 1000 * Spec.multiplier q1)%R) as H1.
  { rewrite (parseQuery_histogram_quantile _ _ _ _ _ Ht1 Hp1).
    by rewrite !bool_decide_eq_false_2 by lra. }
  assert (parseQuery query2 metrics
          = Value_ (Latency metrics / 1000 * Spec.multiplier q2)%R) as H2.
  { rewrite (parseQuery_histogram_quantile _ _ _ _ _ Ht2 Hp2).
    by rewrite !bool_decide_eq_false_2 by lra. }
  assert (Latency metrics / 1000 * Spec.multiplier q1
          <= Latency metrics / 1000 * Spec.multiplier q2)%R as Hle.
  { apply Rmult_le_compat_l; [lra |]. by apply multiplier_monotone. }
  split; [exact H1 |]. split; [exact H2 |].
  split; [by apply ExecuteQuery_Value |].
  split; [by apply ExecuteQuery_Value |].
  split; [exact Hle |].
  apply roundHalfEven_monotone. lra.
Qed.

(** C6 at p50 and p95 on the healthy server at its start: the quantiles
    are 0.5 and the [float64] nearest to 0.95. *)
Lemma histogram_quantile_monotone_witness :
  let ms := NewMockServer ScenarioHealthy 0 in
  exists v1 v2 : R,
    parseQuery "histogram_quantile(0.50, x)" (GetCurrentMetrics ms 0)
      = Value_ v1 /\
    parseQuery "histogram_quantile(0.95, x)" (GetCurrentMetrics ms 0)
      = Value_ v2 /\
    ExecuteQuery ms 0 0 "histogram_quantile(0.50, x)"
      = Spec.vectorResponse 0 v1 /\
    ExecuteQuery ms 0 0 "histogram_quantile(0.95, x)"
      = Spec.vectorResponse 0 v2 /\
    (v1 <= v2)%R /\
    fmt.roundHalfEven (v1 * 1000000) <= fmt.roundHalfEven (v2 * 1000000).
Proof.
  intros ms.
  apply (histogram_quantile_monotone ms 0 0 _ _ "0.50" "0.95" " x)" " x)"
           (strconv.float64Value 4503599627370496 (-53))
           (strconv.float64Value 8556839292003942 (-53)));
    try reflexivity.
  - change (GetCurrentMetrics ms 0)
      with {| ErrorRate := 0.1; Latency := 100; UpValue := 1 |}.
    cbn [Latency]. lra.
  - change (strconv.float64Value 4503599627370496 (-53))
      with (IZR 4503599627370496 / IZR 9007199254740992)%R.
    change (strconv.float64Value 8556839292003942 (-53))
      with (IZR 8556839292003942 / IZR 9007199254740992)%R.
    lra.
  - change (strconv.float64Value 8556839292003942 (-53))
      with (IZR 8556839292003942 / IZR 9007199254740992)%R.
    lra.
Defined.

(** ** Direct metric queries *)

(** C10.  When the trimmed query starts neither with [rate(] nor with
    [histogram_quantile(], the three metric names are looked for as
    substrings of the query, in the order errors, duration, up, and the
    first one found gives the value; a query with [up] anywhere in it
    therefore succeeds. *)
Theorem parseQuery_direct (query : string) (metrics : MetricValues) :
  gostrings.HasPrefix (gostrings.TrimSpace query) "rate(" = false ->
  gostrings.HasPrefix (gostrings.TrimSpace query) "histogram_quantile("
    = false ->
  parseQuery query metrics =
  if gostrings.Contains query "http_requests_errors_total" then
    Value_ (ErrorRate metrics / 100.0 * baselineRequestsPerSecond)%R
  else if gostrings.Contains query "http_request_duration_seconds" then
    Value_ (Latency metrics / 1000.0)%R
  else if gostrings.Contains query "up" then Value_ (UpValue metrics)
  else Errorf ("unsupported metric query: " +:+ gostrings.TrimSpace query).
Proof.
  intros Hrate Hhist. unfold parseQuery. rewrite Hrate, Hhist.
  by rewrite TrimSpace_Contains_errors, TrimSpace_Contains_duration,
    TrimSpace_Contains_up.
Qed.

(** C10 at a query that has [up] inside another word, and at one that
    names two metrics. *)
Lemma parseQuery_direct_witness :
  parseQuery "supported_thing" (mkMetricValues 0.5 150 1) = Value_ 1%R /\
  parseQuery " up + http_requests_errors_total" (mkMetricValues 0.5 150 1)
    = Value_ (0.5 / 100.0 * baselineRequestsPerSecond)%R.
Proof.
  split.
  - rewrite (parseQuery_direct "supported_thing"); reflexivity.
  - rewrite (parseQuery_direct " up + http_requests_errors_total");
      reflexivity.
Defined.

(** ** Failed evaluations *)

(** C9.  Whatever makes the evaluation fail, the response is the same but
    for its message: status ["error"], error type ["bad_data"], no data. *)
Theorem ExecuteQuery_failure (ms : MockServer) (now now' : time.Time)
    (query message : string) :
  parseQuery query (GetCurrentMetrics ms now) = Errorf message ->
  ExecuteQuery ms now now' query =
  {| Status := "error"; Data := zeroData; Error := message;
     ErrorType := "bad_data" |}.
Proof. intros H. unfold ExecuteQuery. by rewrite H. Qed.

Lemma parseQuery_unknown_metric (metrics : MetricValues) :
  parseQuery "totally_invalid_metric" metrics
  = Errorf "unsupported metric query: totally_invalid_metric".
Proof. reflexivity. Qed.

Lemma parseQuery_rate_incomplete (metrics : MetricValues) :
  parseQuery "rate(incomplete" metrics = Errorf "invalid rate query format".
Proof. reflexivity. Qed.

Lemma parseQuery_histogram_incomplete (metrics : MetricValues) :
  parseQuery "histogram_quantile(incomplete" metrics
  = Errorf "invalid histogram_quantile format".
Proof. reflexivity. Qed.

Lemma parseQuery_negative_quantile (metrics : MetricValues) :
  parseQuery
    "histogram_quantile(-0.5, rate(http_request_duration_seconds_bucket[5m]))"
    metrics
  = Errorf "invalid histogram_quantile format".
Proof. reflexivity. Qed.

Lemma parseQuery_rate_unknown (metrics : MetricValues) :
  parseQuery "rate(foo[5m])" metrics
  = Errorf "unknown metric in rate query: foo".
Proof. reflexivity. Qed.

(** C9 at the four causes of failure. *)
Lemma ExecuteQuery_failure_witness :
  let ms := NewMockServer ScenarioHealthy 0 in
  ExecuteQuery ms 0 0 "totally_invalid_metric"
    = Spec.errorResponse "unsupported metric query: totally_invalid_metric" /\
  ExecuteQuery ms 0 0 "rate(incomplete"
    = Spec.errorResponse "invalid rate query format" /\
  ExecuteQuery ms 0 0 "histogram_quantile(incomplete"
    = Spec.errorResponse "invalid histogram_quantile format" /\
  ExecuteQuery ms 0 0 "histogram_quantile(1.2.3, x)"
    = Spec.errorResponse "invalid quantile value: 1.2.3".
Proof.
  intros ms.
  split; [| split; [| split]]; apply ExecuteQuery_failure; reflexivity.
Defined.

(** ** The rounding of [ParseFloat] *)

Lemma roundRatio_bounds (num den lo hi : Z) :
  0 < den -> lo * den <= num -> num <= hi * den ->
  lo <= strconv.roundRatio num den <= hi.
Proof.
  intros Hd Hlo Hhi. unfold strconv.roundRatio.
  pose proof (Z.div_mod num den ltac:(lia)) as Hdm.
  pose proof (Z.mod_pos_bound num den Hd) as Hr.
  set (quo := num / den) in *. set (r := num mod den) in *.
  assert (lo <= quo) by nia.
  assert (quo <= hi) by nia.
  assert (quo = hi -> r = 0) by nia.
  destruct (Z.ltb_spec (2 * r) den); [lia |].
  destruct (Z.ltb_spec den (2 * r)); [lia |].
  destruct (Z.even quo); lia.
Qed.

Lemma pow2_pos (n : Z) : 0 <= n -> 0 < 2 ^ n.
Proof. intros. by apply Z.pow_pos_nonneg. Qed.

Lemma pow2_succ (n : Z) : 0 <= n -> 2 ^ (n + 1) = 2 * 2 ^ n.
Proof. intros. rewrite Z.pow_add_r by lia. lia. Qed.

(** [floorLog2 p q] is the exponent [k] with [2^k <= p / q < 2^(k+1)]. *)
Lemma floorLog2_spec (p q : Z) :
  0 < p -> 0 < q ->
  let k := strconv.floorLog2 p q in
  (0 <= k -> q * 2 ^ k <= p) /\
  (k < 0 -> q <= p * 2 ^ (- k)) /\
  (0 <= k + 1 -> p < q * 2 ^ (k + 1)) /\
  (k + 1 < 0 -> p * 2 ^ (- (k + 1)) < q).
Proof.
  intros Hp Hq. unfold strconv.floorLog2.
  pose proof (Z.log2_spec p Hp) as [Hp0 Hp1].
  pose proof (Z.log2_spec q Hq) as [Hq0 Hq1].
  pose proof (Z.log2_nonneg p) as Hlp. pose proof (Z.log2_nonneg q) as Hlq.
  set (lp := Z.log2 p) in *. set (lq := Z.log2 q) in *.
  rewrite <- Z.add_1_r in Hp1, Hq1.
  rewrite pow2_succ in Hp1, Hq1 by done.
  pose proof (pow2_pos lp Hlp) as HP. pose proof (pow2_pos lq Hlq) as HQ.
  set (d := lp - lq).
  destruct (Z.leb_spec 0 d) as [Hd | Hd].
  - assert (2 ^ lp = 2 ^ d * 2 ^ lq) as Hsplit.
    { rewrite <- Z.pow_add_r by lia. f_equal. lia. }
    pose proof (pow2_pos d Hd) as HD.
    destruct (Z.leb_spec (q * 2 ^ d) p) as [Ht | Ht]; cbv zeta.
    + split; [done |]. split; [lia |]. split; [| lia].
      intros _. rewrite pow2_succ by done. nia.
    + split; [| split; [| split; [| lia]]].
      * intros Hk. replace d with (d - 1 + 1) in Hsplit, Ht by lia.
        rewrite pow2_succ in Hsplit, Ht by done.
        pose proof (pow2_pos (d - 1) Hk). nia.
      * intros Hk. assert (d = 0) as Hd0 by lia. rewrite Hd0 in *.
        change (- (0 - 1)) with 1. change (2 ^ 0) with 1 in *.
        change (2 ^ 1) with 2. lia.
      * intros _. by replace (d - 1 + 1) with d by lia.
  - assert (2 ^ lq = 2 ^ (- d) * 2 ^ lp) as Hsplit.
    { rewrite <- Z.pow_add_r by lia. f_equal. lia. }
    pose proof (pow2_pos (- d) ltac:(lia)) as HD.
    destruct (Z.leb_spec q (p * 2 ^ (- d))) as [Ht | Ht]; cbv zeta.
    + split; [lia |]. split; [done |]. split.
      * intros Hk. assert (d = -1) as Hd1 by lia. rewrite Hd1 in *.
        change (-1 + 1) with 0. change (- -1) with 1 in *.
        change (2 ^ 0) with 1. change (2 ^ 1) with 2 in *. lia.
      * intros Hk. replace (- d) with (- (d + 1) + 1) in Hsplit by lia.
        rewrite pow2_succ in Hsplit by lia.
        pose proof (pow2_pos (- (d + 1)) ltac:(lia)). nia.
    + split; [lia |]. split; [| split; [lia |]].
      * intros _. replace (- (d - 1)) with (- d + 1) by lia.
        rewrite pow2_succ by lia. nia.
      * intros _. by replace (- (d - 1 + 1)) with (- d) by lia.
Qed.

Lemma pow2_le (a b : Z) : 0 <= a <= b -> 2 ^ a <= 2 ^ b.
Proof. intros. apply Z.pow_le_mono_r; lia. Qed.

Lemma pow2_add (a b : Z) : 0 <= a -> 0 <= b -> 2 ^ (a + b) = 2 ^ a * 2 ^ b.
Proof. intros. by apply Z.pow_add_r. Qed.

(** [nearestFloat64 p q] is a [float64] next to [p / q]: the exponent is
    at least that of the subnormal numbers, the mantissa has at most 53
    bits (the value [2^53] stands for the next power of two) and has all
    of them above the subnormal range, and the value is within half a
    unit of the last place of [p / q]. *)
Lemma nearestFloat64_spec (p q m e : Z) :
  0 < p -> 0 < q -> strconv.nearestFloat64 p q = (m, e) ->
  -1074 <= e /\ 0 <= m <= 2 ^ 53 /\ (-1074 < e -> 2 ^ 52 <= m) /\
  (0 <= e -> 2 * Z.abs (m * (q * 2 ^ e) - p) <= q * 2 ^ e) /\
  (e < 0 -> 2 * Z.abs (m * q - p * 2 ^ (- e)) <= q).
Proof.
  intros Hp Hq. unfold strconv.nearestFloat64.
  destruct (Z.eqb_spec p 0); [lia |].
  destruct (floorLog2_spec p q Hp Hq) as (Hl0 & Hl1 & Hu0 & Hu1).
  set (k := strconv.floorLog2 p q) in *.
  set (e' := Z.max (k - 52) (-1074)). intros [= <- <-].
  split; [lia |].
  destruct (Z.leb_spec 0 e') as [He | He].
  - assert (e' = k - 52) as Hek by lia.
    pose proof (pow2_pos e' He) as HE.
    specialize (Hl0 ltac:(lia)). specialize (Hu0 ltac:(lia)).
    replace k with (e' + 52) in Hl0 by lia.
    replace (k + 1) with (e' + 53) in Hu0 by lia.
    rewrite pow2_add in Hl0, Hu0 by lia.
    assert (0 < q * 2 ^ e') as Hden by nia.
    pose proof (roundRatio_bounds p (q * 2 ^ e') (2 ^ 52) (2 ^ 53) Hden
                  ltac:(nia) ltac:(nia)) as [Hm0 Hm1].
    split; [lia |]. split; [done |]. split; [| lia].
    intros _. by apply roundRatio_near.
  - pose proof (pow2_pos (- e') ltac:(lia)) as HE.
    assert (p * 2 ^ (- e') <= 2 ^ 53 * q) as Hhi.
    { destruct (Z.leb_spec 0 (k + 1)) as [Hk | Hk].
      - specialize (Hu0 Hk).
        assert (2 ^ (k + 1) * 2 ^ (- e') <= 2 ^ 53) as Hpow.
        { rewrite <- pow2_add by lia. apply pow2_le. lia. }
        pose proof (pow2_pos (k + 1) Hk). nia.
      - specialize (Hu1 Hk).
        assert (2 ^ (- e') <= 2 ^ (- (k + 1)) * 2 ^ 53) as Hpow.
        { rewrite <- pow2_add by lia. apply pow2_le. lia. }
        pose proof (pow2_pos (- (k + 1)) ltac:(lia)). nia. }
    pose proof (roundRatio_bounds (p * 2 ^ (- e')) q 0 (2 ^ 53) Hq
                  ltac:(nia) ltac:(lia)) as [Hm0 Hm1].
    split; [lia |]. split; [| split; [lia |]].
    + intros Hnorm. assert (e' = k - 52) as Hek by lia.
      apply roundRatio_bounds with (hi := 2 ^ 53); [done | | lia].
      destruct (Z.leb_spec 0 k) as [Hk | Hk].
      * specialize (Hl0 Hk).
        assert (2 ^ 52 = 2 ^ k * 2 ^ (- e')) as Hpow.
        { rewrite <- pow2_add by lia. f_equal. lia. }
        pose proof (pow2_pos k Hk). nia.
      * specialize (Hl1 Hk).
        assert (2 ^ (- e') = 2 ^ (- k) * 2 ^ 52) as Hpow.
        { rewrite <- pow2_add by lia. f_equal. lia. }
        pose proof (pow2_pos (- k) ltac:(lia)). nia.
    + intros _. by apply roundRatio_near.
Qed.

(** ** Formatting of numbers that are decimal fractions *)

Section FormatFloat.

Local Open Scope R_scope.

Lemma roundHalfEven_IZR (z : Z) : fmt.roundHalfEven (IZR z) = z.
Proof.
  unfold fmt.roundHalfEven. rewrite ZfloorZ.
  destruct (Rlt_dec _ _) as [_ | Hn]; [done | lra].
Qed.

(** [%.<prec>f] of [m / 10^prec] prints the digits of [m]. *)
Lemma formatFloat_decimal (prec : nat) (m : Z) :
  (0 <= m)%Z ->
  fmt.formatFloat prec (IZR m / IZR (10 ^ Z.of_nat prec)) =
  fmt.formatInt (m / 10 ^ Z.of_nat prec) +:+
  (if (prec =? 0)%nat then ""
   else "." +:+ fmt.padZeros prec (fmt.formatInt (m mod 10 ^ Z.of_nat prec))).
Proof.
  intros Hm. unfold fmt.formatFloat.
  assert (Hs : 0 < IZR (10 ^ Z.of_nat prec)).
  { apply IZR_lt, Z.pow_pos_nonneg; lia. }
  assert (Hx : 0 <= IZR m / IZR (10 ^ Z.of_nat prec)).
  { apply Rmult_le_pos; [by apply IZR_le |].
    left. by apply Rinv_0_lt_compat. }
  rewrite Rabs_pos_eq by done.
  replace (IZR m / IZR (10 ^ Z.of_nat prec) * IZR (10 ^ Z.of_nat prec))
    with (IZR m) by (field; lra).
  rewrite roundHalfEven_IZR.
  destruct (Rlt_dec _ _) as [Hlt | _]; [lra | done].
Qed.

Lemma formatFloat_6_1_5 : fmt.formatFloat 6 1.5 = "1.500000".
Proof.
  replace 1.5 with (IZR 1500000 / IZR (10 ^ Z.of_nat 6))
    by (change (10 ^ Z.of_nat 6)%Z with 1000000%Z; lra).
  by rewrite formatFloat_decimal.
Qed.

(** Rounding a ratio of integers, on the integers. *)
Lemma roundHalfEven_ratio (a b : Z) :
  (0 < b)%Z -> fmt.roundHalfEven (IZR a / IZR b) = strconv.roundRatio a b.
Proof.
  intros Hb. unfold fmt.roundHalfEven, strconv.roundRatio.
  pose proof (Z.div_mod a b ltac:(lia)) as Hdm.
  pose proof (Z.mod_pos_bound a b Hb) as [Hr0 Hr1].
  set (quo := (a / b)%Z) in *. set (r := (a mod b)%Z) in *.
  assert (0 < IZR b) as HB by (apply IZR_lt; lia).
  assert (0 <= IZR r) as HR0 by (apply IZR_le; lia).
  assert (IZR r < IZR b) as HR1 by (apply IZR_lt; lia).
  assert (IZR a / IZR b = IZR quo + IZR r / IZR b) as Hx.
  { rewrite Hdm, plus_IZR, mult_IZR. field. lra. }
  set (t := IZR r / IZR b) in *.
  assert (IZR r = t * IZR b) as Hr by (unfold t; field; lra).
  assert (0 <= t < 1) as [Ht0 Ht1].
  { split.
    - apply Rmult_le_pos; [done |]. left. by apply Rinv_0_lt_compat.
    - apply (Rmult_lt_reg_r (IZR b)); [done |]. rewrite <- Hr. lra. }
  rewrite Hx.
  assert (Zfloor (IZR quo + t) = quo) as -> by (apply Zfloor_eq; lra).
  replace (IZR quo + t - IZR quo) with t by lra.
  destruct (Z.ltb_spec (2 * r) b) as [H1 | H1].
  { apply IZR_lt in H1. rewrite mult_IZR in H1.
    destruct (Rlt_dec t (1 / 2)) as [_ | Hn]; [done |]. exfalso. nra. }
  destruct (Z.ltb_spec b (2 * r)) as [H2 | H2].
  { apply IZR_lt in H2. rewrite mult_IZR in H2.
    destruct (Rlt_dec t (1 / 2)) as [Hl | _]; [exfalso; nra |].
    destruct (Rlt_dec (1 / 2) t) as [_ | Hn]; [done |]. exfalso. nra. }
  assert (b = 2 * r)%Z as Hb2 by lia.
  apply (f_equal IZR) in Hb2. rewrite mult_IZR in Hb2.
  destruct (Rlt_dec t (1 / 2)) as [Hl | _]; [exfalso; nra |].
  destruct (Rlt_dec (1 / 2) t) as [Hl | _]; [exfalso; nra | done].
Qed.

(** [%.<prec>f] of a non-negative ratio of integers. *)
Lemma formatFloat_ratio (prec : nat) (a b : Z) :
  (0 <= a)%Z -> (0 < b)%Z ->
  fmt.formatFloat prec (IZR a / IZR b) =
  let n := strconv.roundRatio (a * 10 ^ Z.of_nat prec) b in
  fmt.formatInt (n / 10 ^ Z.of_nat prec) +:+
  (if (prec =? 0)%nat then ""
   else "." +:+ fmt.padZeros prec (fmt.formatInt (n mod 10 ^ Z.of_nat prec))).
Proof.
  intros Ha Hb. unfold fmt.formatFloat.
  assert (0 < IZR b) as HB by (apply IZR_lt; lia).
  assert (0 <= IZR a / IZR b) as Hx.
  { apply Rmult_le_pos; [by apply IZR_le |].
    left. by apply Rinv_0_lt_compat. }
  rewrite Rabs_pos_eq by done.
  replace (IZR a / IZR b * IZR (10 ^ Z.of_nat prec))
    with (IZR (a * 10 ^ Z.of_nat prec) / IZR b)
    by (rewrite mult_IZR; field; lra).
  rewrite roundHalfEven_ratio by done.
  destruct (Rlt_dec _ _) as [Hlt | _]; [lra | done].
Qed.

(** The [float64] nearest to 1.0000005 lies above it, and prints as
    1.000001 at six decimals; the one nearest to 1.00000000000000000001
    is 1. *)
Lemma ParseFloat_above_tie :
  exists q : R,
    strconv.ParseFloat "1.0000005" = Some q /\ 1 < q /\
    fmt.formatFloat 6 q = "1.000001".
Proof.
  exists (IZR 4503601879170310 / IZR 4503599627370496).
  split; [reflexivity |]. split; [lra |].
  by rewrite formatFloat_ratio.
Qed.

Lemma ParseFloat_rounds_to_1 :
  exists q : R,
    strconv.ParseFloat "1.00000000000000000001" = Some q /\ q = 1.
Proof.
  exists (IZR 4503599627370496 / IZR 4503599627370496).
  split; [reflexivity | lra].
Qed.

End FormatFloat.

(** C4, as the code has it.  A failed evaluation is an error response with
    status ["error"], the one error type ["bad_data"] and a message that
    tells the cause: an unknown metric, a malformed [rate], a quantile
    argument of digits and points that is not a number (the message ends
    with the argument), a quantile that parses to a [float64] above 1 (the
    message ends with that value at six decimals).  Every query gets one
    of two responses: the error response with the message of the failed
    evaluation, or the success response with the value; the code has no
    other exit on this path. *)
Theorem evaluateQuery_errors (ms : MockServer) (now now' : time.Time) :
  ExecuteQuery ms now now' "totally_invalid_metric"
    = Spec.errorResponse "unsupported metric query: totally_invalid_metric" /\
  ExecuteQuery ms now now' "rate(incomplete"
    = Spec.errorResponse "invalid rate query format" /\
  (forall query run rest : string,
     gostrings.TrimSpace query
       = "histogram_quantile(" +:+ run +:+ "," +:+ rest ->
     run <> "" -> goregexp.allIn quantileClass run = true ->
     strconv.ParseFloat run = None ->
     ExecuteQuery ms now now' query
       = Spec.errorResponse ("invalid quantile value: " +:+ run)) /\
  (forall (query run rest : string) (q : R),
     gostrings.TrimSpace query
       = "histogram_quantile(" +:+ run +:+ "," +:+ rest ->
     strconv.ParseFloat run = Some q ->
     (1 < q)%R ->
     ExecuteQuery ms now now' query
       = Spec.errorResponse ("quantile must be between 0 and 1, got: " +:+
                             fmt.formatFloat 6 q)) /\
  (forall query : string,
     (exists message : string,
        parseQuery query (GetCurrentMetrics ms now) = Errorf message /\
        ExecuteQuery ms now now' query = Spec.errorResponse message) \/
     (exists value : R,
        parseQuery query (GetCurrentMetrics ms now) = Value_ value /\
        ExecuteQuery ms now now' query = Spec.vectorResponse now' value)).
Proof.
  split; [by apply ExecuteQuery_Errorf |].
  split; [by apply ExecuteQuery_Errorf |].
  split; [| split].
  - intros query run rest Htrim Hne Hall Hparse.
    apply ExecuteQuery_Errorf. unfold parseQuery. rewrite Htrim.
    assert (gostrings.HasPrefix
              ("histogram_quantile(" +:+ run +:+ "," +:+ rest) "rate("
            = false) as -> by reflexivity.
    rewrite HasPrefix_append. unfold handleHistogramQuantile.
    by rewrite histogramRegex_here, Hparse.
  - intros query run rest q Htrim Hparse Hq.
    apply ExecuteQuery_Errorf.
    rewrite (parseQuery_histogram_quantile _ _ _ _ _ Htrim Hparse).
    rewrite (bool_decide_eq_true_2 (q > 1)%R) by lra.
    by rewrite orb_true_r.
  - intros query.
    destruct (parseQuery query (GetCurrentMetrics ms now))
      as [value | message] eqn:H.
    + right. exists value. split; [done |]. by apply ExecuteQuery_Value.
    + left. exists message. split; [done |]. by apply ExecuteQuery_Errorf.
Qed.

(** C4 at [1.5], at [1.0000005] (whose [float64] prints as 1.000001) and
    at [1.2.3]. *)
Lemma evaluateQuery_errors_witness :
  let ms := NewMockServer ScenarioHealthy 0 in
  ExecuteQuery ms 0 0
    "histogram_quantile(1.5, rate(http_request_duration_seconds_bucket[5m]))"
    = Spec.errorResponse "quantile must be between 0 and 1, got: 1.500000" /\
  ExecuteQuery ms 0 0 "histogram_quantile(1.0000005, x)"
    = Spec.errorResponse "quantile must be between 0 and 1, got: 1.000001" /\
  ExecuteQuery ms 0 0 "histogram_quantile(1.2.3, x)"
    = Spec.errorResponse "invalid quantile value: 1.2.3".
Proof.
  intros ms.
  destruct (evaluateQuery_errors ms 0 0) as (_ & _ & Hsyntax & Hrange & _).
  split; [| split].
  - replace "1.500000"
      with (fmt.formatFloat 6
              (IZR 6755399441055744 / IZR 4503599627370496)%R)
      by (by rewrite formatFloat_ratio).
    apply (Hrange _ "1.5" " rate(http_request_duration_seconds_bucket[5m]))");
      [reflexivity | reflexivity | lra].
  - replace "1.000001"
      with (fmt.formatFloat 6
              (IZR 4503601879170310 / IZR 4503599627370496)%R)
      by (by rewrite formatFloat_ratio).
    apply (Hrange _ "1.0000005" " x)"); [reflexivity | reflexivity | lra].
  - apply (Hsyntax _ "1.2.3" " x)"); reflexivity || discriminate.
Defined.

(** C4 as stated fails.  The responses to an unknown metric and to a
    malformed query carry the same error type and differ in the message
    only, so no kind tells them apart; and a negative quantile gets the
    message of a malformed query, which does not include the value. *)
Lemma evaluateQuery_no_error_kind :
  let ms := NewMockServer ScenarioHealthy 0 in
  let unknown := ExecuteQuery ms 0 0 "totally_invalid_metric" in
  let malformed := ExecuteQuery ms 0 0 "rate(incomplete" in
  let negative :=
    ExecuteQuery ms 0 0
      "histogram_quantile(-0.5, rate(http_request_duration_seconds_bucket[5m]))"
  in
  (Status unknown, ErrorType unknown, Data unknown)
    = (Status malformed, ErrorType malformed, Data malformed) /\
  ErrorType unknown = "bad_data" /\
  negative = Spec.errorResponse "invalid histogram_quantile format" /\
  gostrings.Contains (Error negative) "0.5" = false.
Proof.
  intros ms unknown malformed negative.
  assert (Hu : unknown = Spec.errorResponse
                 "unsupported metric query: totally_invalid_metric")
    by (by apply ExecuteQuery_Errorf).
  assert (Hm : malformed = Spec.errorResponse "invalid rate query format")
    by (by apply ExecuteQuery_Errorf).
  assert (Hn : negative = Spec.errorResponse
                 "invalid histogram_quantile format")
    by (by apply ExecuteQuery_Errorf).
  rewrite Hu, Hm, Hn. repeat split.
Qed.

(** ** The histogram of the exposition *)

Section Histogram.

Local Open Scope R_scope.

Lemma latencySeconds_pos (metrics : MetricValues) :
  0 < latencySeconds metrics.
Proof. unfold latencySeconds. destruct (Rle_dec _ _); lra. Qed.

Lemma latencySeconds_floor (metrics : MetricValues) :
  Latency metrics <= 0 -> latencySeconds metrics = 0.001.
Proof.
  intros H. unfold latencySeconds. destruct (Rle_dec _ _); [done | lra].
Qed.


Lemma cumCount_full (L b : R) : L <= b -> cumCount L b = 100.
Proof.
  intros H. unfold cumCount, count, baselineRequestsPerSecond.
  destruct (Rge_dec _ _); lra.
Qed.

Lemma cumCount_below (L b : R) :
  b < L -> cumCount L b = 100 * sqrt (b / L).
Proof.
  intros H. unfold cumCount, count, baselineRequestsPerSecond.
  destruct (Rge_dec _ _); [lra |]. rewrite math_Pow_half. lra.
Qed.

Lemma ratio_lt_1 (L b : R) : 0 < L -> b < L -> b / L < 1.
Proof.
  intros HL Hb. apply (Rmult_lt_reg_r L); [done |].
  unfold Rdiv. rewrite Rmult_assoc, Rinv_l; lra.
Qed.

Lemma ratio_le (L b1 b2 : R) : 0 < L -> b1 <= b2 -> b1 / L <= b2 / L.
Proof.
  intros HL Hb. apply Rmult_le_compat_r; [| done].
  left. by apply Rinv_0_lt_compat.
Qed.

Lemma cumCount_le_count (L b : R) : 0 < L -> cumCount L b <= 100.
Proof.
  intros HL. destruct (Rle_dec L b) as [H | H].
  - rewrite cumCount_full; lra.
  - rewrite cumCount_below by lra.
    assert (sqrt (b / L) <= 1); [| lra].
    rewrite <- sqrt_1. apply sqrt_le_1_alt. left. apply ratio_lt_1; lra.
Qed.

Lemma cumCount_monotone (L b1 b2 : R) :
  0 < L -> b1 <= b2 -> cumCount L b1 <= cumCount L b2.
Proof.
  intros HL Hb. destruct (Rle_dec L b2) as [H2 | H2].
  - rewrite (cumCount_full L b2) by done. by apply cumCount_le_count.
  - rewrite !cumCount_below by lra.
    apply Rmult_le_compat_l; [lra |].
    apply sqrt_le_1_alt. by apply ratio_le.
Qed.

End Histogram.

(** The counts of the buckets, with the [+Inf] bucket after them, never
    decrease. *)
Lemma histogram_buckets_sorted (metrics : MetricValues) :
  StronglySorted Rle
    (map snd (bucketSamples (histogramOf metrics))
     ++ [infSample (histogramOf metrics)]).
Proof.
  pose proof (latencySeconds_pos metrics) as HL.
  unfold histogramOf, buckets.
  cbn [bucketSamples infSample map app snd].
  set (L := latencySeconds metrics) in *.
  unfold count, baselineRequestsPerSecond.
  repeat (apply SSorted_cons;
          [| repeat (constructor;
                     [first [apply cumCount_monotone; [exact HL | lra]
                            | apply (Rle_trans _ 100);
                              [apply cumCount_le_count; exact HL | lra] ]
                     |]);
             constructor]).
  apply SSorted_nil.
Qed.

(** The text of [FormatMetricsOf] around its numbers. *)
Lemma FormatMetricsOf_text (metrics : MetricValues) :
  let h := histogramOf metrics in
  FormatMetricsOf metrics
  = Spec.expositionText
      (fmt.formatFloat 2
         (ErrorRate metrics / 100.0 * baselineRequestsPerSecond)%R)
      (map bucketLine (bucketSamples h))
      (fmt.formatFloat 0 (infSample h))
      (fmt.formatFloat 3 (sumSample h))
      (fmt.formatFloat 0 (countSample h))
      (fmt.formatFloat 0 (UpValue metrics)).
Proof. reflexivity. Qed.






(** ** The counts as they are printed *)

Section Printed.

Local Open Scope R_scope.

(** [%.0f] of a non-negative number prints its rounding. *)
Lemma formatFloat_0 (x : R) :
  0 <= x -> fmt.formatFloat 0 x = fmt.formatInt (fmt.roundHalfEven x).
Proof.
  intros Hx. unfold fmt.formatFloat.
  destruct (Rlt_dec _ _) as [Hlt | _]; [lra |].
  rewrite Rabs_pos_eq by done.
  change (10 ^ Z.of_nat 0)%Z with 1%Z. rewrite Rmult_1_r, Z.div_1_r.
  by rewrite append_nil_l, append_nil_r.
Qed.

(** The integers printed for the buckets, with [+Inf] last, never
    decrease. *)
Lemma printed_counts_monotone (metrics : MetricValues) :
  let h := histogramOf metrics in
  StronglySorted Z.le
    (map fmt.roundHalfEven (map snd (bucketSamples h) ++ [infSample h])).
Proof.
  intros h.
  pose proof (histogram_buckets_sorted metrics) as Hs.
  fold h in Hs. revert Hs.
  generalize (map snd (bucketSamples h) ++ [infSample h]).
  intros l Hs. induction Hs as [| c l Hs IH Hall]; cbn [map].
  - constructor.
  - constructor; [done |]. clear -Hall.
    induction Hall as [| d l Hd Hall IH]; cbn [map]; constructor;
      [by apply roundHalfEven_monotone | done].
Qed.

End Printed.

(** ** Listing the scenarios *)

Section Listing.

Lemma scenarioListOf_map (order : list (ScenarioType * Scenario)) :
  scenarioListOf order = map entryOf order.
Proof.
  unfold scenarioListOf.
  enough (forall acc,
            fold_left (fun scenarioList kv => scenarioList ++ [entryOf kv])
              order acc = acc ++ map entryOf order) as H by apply (H []).
  induction order as [| kv order IH]; intros acc; cbn [fold_left map].
  - by rewrite app_nil_r.
  - by rewrite IH, <- app_assoc.
Qed.

(** The entries of the catalog, as a list in the order of the source. *)
Lemma AllScenarios_to_list :
  map_to_list AllScenarios ≡ₚ
  [ (ScenarioHealthy, healthy); (ScenarioHighErrors, high_errors);
    (ScenarioLatencySpike, latency_spike);
    (ScenarioGradualDegradation, gradual_degradation) ].
Proof.
  unfold AllScenarios.
  rewrite !map_to_list_insert, map_to_list_empty; [done | ..];
    by repeat (rewrite lookup_insert_ne by done); rewrite ?lookup_empty.
Qed.

Lemma HandleListScenarios_source_order :
  HandleListScenarios Spec.catalogEntries.
Proof.
  apply (HandleListScenarios_intro
           [ (ScenarioHealthy, healthy); (ScenarioHighErrors, high_errors);
             (ScenarioLatencySpike, latency_spike);
             (ScenarioGradualDegradation, gradual_degradation) ]).
  unfold rangeOrder. by rewrite AllScenarios_to_list.
Qed.

Lemma HandleListScenarios_reverse_order :
  HandleListScenarios (rev Spec.catalogEntries).
Proof.
  apply (HandleListScenarios_intro
           [ (ScenarioGradualDegradation, gradual_degradation);
             (ScenarioLatencySpike, latency_spike);
             (ScenarioHighErrors, high_errors);
             (ScenarioHealthy, healthy) ]).
  unfold rangeOrder. rewrite AllScenarios_to_list. symmetry.
  apply (Permutation_rev
           [ (ScenarioHealthy, healthy); (ScenarioHighErrors, high_errors);
             (ScenarioLatencySpike, latency_spike);
             (ScenarioGradualDegradation, gradual_degradation) ]).
Qed.

End Listing.

(** C8, as the code has it.  Every listing holds the four entries of the
    catalog, each once, so two listings hold the same entries; their order
    is the iteration order of a map, which is not fixed. *)
Theorem HandleListScenarios_entries (data1 data2 : list scenarioEntry) :
  HandleListScenarios data1 ->
  HandleListScenarios data2 ->
  data1 ≡ₚ Spec.catalogEntries /\ data2 ≡ₚ data1 /\ length data1 = 4%nat.
Proof.
  assert (H : forall data, HandleListScenarios data ->
                data ≡ₚ Spec.catalogEntries).
  { intros data [order Horder]. unfold rangeOrder in Horder.
    rewrite scenarioListOf_map, Horder, AllScenarios_to_list. done. }
  intros H1 H2. pose proof (H _ H1) as P1. pose proof (H _ H2) as P2.
  split; [done |]. split; [by rewrite P1, P2 |].
  by rewrite P1.
Qed.

(** C8 at the listing in source order and the listing in reverse order. *)
Lemma HandleListScenarios_entries_witness :
  rev Spec.catalogEntries ≡ₚ Spec.catalogEntries /\
  length (rev Spec.catalogEntries) = 4%nat.
Proof.
  destruct (HandleListScenarios_entries (rev Spec.catalogEntries)
              Spec.catalogEntries HandleListScenarios_reverse_order
              HandleListScenarios_source_order) as (H1 & _ & H2).
  split; [exact H1 | exact H2].
Defined.

(** C8 as stated fails: the listing in source order and the listing in
    reverse order are both possible, and they differ. *)
Lemma HandleListScenarios_order_not_fixed :
  HandleListScenarios Spec.catalogEntries /\
  HandleListScenarios (rev Spec.catalogEntries) /\
  Spec.catalogEntries <> rev Spec.catalogEntries.
Proof.
  split; [apply HandleListScenarios_source_order |].
  split; [apply HandleListScenarios_reverse_order | discriminate].
Qed.

(** ** Concrete checks *)

Section Checks.

Local Open Scope R_scope.

(** The healthy scenario at its start. *)
Example healthy_at_start :
  GetCurrentMetrics (NewMockServer ScenarioHealthy 0%Z) 0%Z
  = {| ErrorRate := 0.1; Latency := 100; UpValue := 1 |}.
Proof. reflexivity. Qed.

(** High errors after five minutes, the whole of its duration. *)
Example high_errors_after_5_minutes :
  ErrorRate (GetCurrentMetrics (NewMockServer ScenarioHighErrors 0%Z)
               (5 * time.Minute)%Z) = 25.0.
Proof.
  unfold GetCurrentMetrics, calculateCurrentMetrics. cbn [ErrorRate].
  by apply CalculateErrorRate_clamped.
Qed.

(** Switching the scenario and reading at once gives the start values of
    the new scenario. *)
Example switch_then_read (ms : MockServer) (now : time.Time) :
  GetCurrentMetrics (SetScenario ms ScenarioGradualDegradation now) now
  = {| ErrorRate := 0.5; Latency := 120; UpValue := 1 |}.
Proof.
  unfold GetCurrentMetrics, calculateCurrentMetrics, SetScenario.
  cbn [currentScenario startTime].
  assert (time.Since now now = 0%Z) as ->.
  { unfold time.Since, time.Sub. by rewrite Z.sub_diag. }
  change (GetScenario ScenarioGradualDegradation) with gradual_degradation.
  rewrite CalculateErrorRate_0, CalculateLatency_0 by done. done.
Qed.

Lemma formatFloat_6_1 : fmt.formatFloat 6 1 = "1.000000".
Proof.
  replace 1 with (IZR 1000000 / IZR (10 ^ Z.of_nat 6))
    by (change (10 ^ Z.of_nat 6)%Z with 1000000%Z; lra).
  by rewrite formatFloat_decimal.
Qed.

(** The query [up] against the healthy scenario. *)
Example query_up (now' : time.Time) :
  ExecuteQuery (NewMockServer ScenarioHealthy 0%Z) 0%Z now' "up"
  = {| Status := "success";
       Data :=
         {| ResultType := "vector";
            Result :=
              [ {| Metric := {[ "job"%string := "demo-app"%string ]};
                   Value := [ Float64 (IZR (time.Unix now'));
                              Str "1.000000" ] |} ] |};
       Error := "";
       ErrorType := "" |}.
Proof.
  unfold ExecuteQuery.
  change (parseQuery "up" (GetCurrentMetrics (NewMockServer ScenarioHealthy 0%Z) 0%Z))
    with (Value_ 1).
  cbv beta iota zeta. by rewrite formatFloat_6_1.
Qed.

(** [ParseFloat] rounds to the nearest [float64]: one tenth, zero, the
    largest [float64], and a number beyond the range. *)
Example ParseFloat_rounding :
  strconv.ParseFloat "0.1"
    = Some (strconv.float64Value 7205759403792794 (-56)) /\
  strconv.ParseFloat "0.0" = Some (strconv.float64Value 0 (-1074)) /\
  strconv.ParseFloat ("17976931348623157" +:+ fmt.zeros 292)
    = Some (strconv.float64Value 9007199254740991 971) /\
  strconv.ParseFloat ("1" +:+ fmt.zeros 309) = None.
Proof.
  split; [reflexivity |]. split; [reflexivity |].
  split; reflexivity.
Qed.

(** A quantile written just above 1 that rounds to 1 is answered like 1. *)
Example quantile_rounds_to_one (now' : time.Time) :
  ExecuteQuery (NewMockServer ScenarioHealthy 0%Z) 0%Z now'
    "histogram_quantile(1.00000000000000000001, x)"
  = Spec.vectorResponse now' (100 / 1000 * 2.5).
Proof.
  apply ExecuteQuery_Value.
  rewrite (parseQuery_histogram_quantile _ "1.00000000000000000001" " x)"
             (IZR 4503599627370496 / IZR 4503599627370496));
    [| reflexivity | reflexivity].
  rewrite !bool_decide_eq_false_2 by lra. cbn [orb].
  change (GetCurrentMetrics (NewMockServer ScenarioHealthy 0%Z) 0%Z)
    with {| ErrorRate := 0.1; Latency := 100; UpValue := 1 |}.
  cbn [Latency]. f_equal. f_equal.
  unfold Spec.multiplier. destruct (Rle_dec _ _); lra.
Qed.

(** The query of the tests, p99, against the healthy scenario: the
    [float64] nearest to 0.99 lies below 0.99, and the value prints as
    a quarter of a second. *)
Example query_p99 (now' : time.Time) :
  ExecuteQuery (NewMockServer ScenarioHealthy 0%Z) 0%Z now'
    "histogram_quantile(0.99, rate(http_request_duration_seconds_bucket[5m]))"
  = {| Status := "success";
       Data :=
         {| ResultType := "vector";
            Result :=
              [ {| Metric := {[ "job"%string := "demo-app"%string ]};
                   Value := [ Float64 (IZR (time.Unix now'));
                              Str "0.250000" ] |} ] |};
       Error := "";
       ErrorType := "" |}.
Proof.
  rewrite (ExecuteQuery_Value _ _ _ _
             (IZR 11258999068426239 / IZR 45035996273704960)).
  - unfold Spec.vectorResponse. by rewrite formatFloat_ratio.
  - rewrite (parseQuery_histogram_quantile _ "0.99"
               " rate(http_request_duration_seconds_bucket[5m]))"
               (IZR 8917127262193582 / IZR 9007199254740992));
      [| reflexivity | reflexivity].
    rewrite !bool_decide_eq_false_2 by lra. cbn [orb].
    change (GetCurrentMetrics (NewMockServer ScenarioHealthy 0%Z) 0%Z)
      with {| ErrorRate := 0.1; Latency := 100; UpValue := 1 |}.
    cbn [Latency]. f_equal.
    unfold Spec.multiplier, Spec.lerp.
    repeat destruct (Rle_dec _ _); lra.
Qed.

End Checks.

(** * Further properties of the package *)

(** ** Metrics over time *)

Section Progression.

Local Open Scope R_scope.

(** The interpolation fraction, for a positive duration. *)
Lemma progress_nonneg (elapsed duration : Z) :
  (0 <= elapsed)%Z -> (0 < duration)%Z -> 0 <= IZR elapsed / IZR duration.
Proof.
  intros He Hd. apply Rmult_le_pos; [by apply IZR_le |].
  left. apply Rinv_0_lt_compat, IZR_lt. lia.
Qed.

Lemma progress_monotone (e1 e2 duration : Z) :
  (e1 <= e2)%Z -> (0 < duration)%Z ->
  IZR e1 / IZR duration <= IZR e2 / IZR duration.
Proof.
  intros He Hd. apply Rmult_le_compat_r; [| by apply IZR_le].
  left. apply Rinv_0_lt_compat, IZR_lt. lia.
Qed.

Lemma progress_lt_1 (elapsed duration : Z) :
  (0 < duration)%Z -> (elapsed < duration)%Z ->
  IZR elapsed / IZR duration < 1.
Proof.
  intros Hd He. apply Rnot_ge_lt. intros H.
  assert (IZR elapsed / IZR duration >= 1.0) as H' by lra.
  apply (progress_ge_1 elapsed duration Hd) in H'. lia.
Qed.

Variable s : Scenario.

Lemma CalculateErrorRate_between (elapsed : time.Duration) :
  (0 <= elapsed)%Z -> (0 <= ErrorRateDuration s)%Z ->
  ErrorRateStart s <= ErrorRateEnd s ->
  ErrorRateStart s <= CalculateErrorRate s elapsed <= ErrorRateEnd s.
Proof.
  intros He Hd Hse.
  destruct (Z.eq_dec (ErrorRateDuration s) 0%Z) as [H0 | H0].
  { rewrite CalculateErrorRate_static by done. lra. }
  destruct (Z_lt_le_dec elapsed (ErrorRateDuration s)) as [Hlt | Hge].
  - rewrite CalculateErrorRate_linear by lia.
    pose proof (progress_nonneg elapsed (ErrorRateDuration s)) as Hp0.
    pose proof (progress_lt_1 elapsed (ErrorRateDuration s)) as Hp1.
    specialize (Hp0 ltac:(lia) ltac:(lia)).
    specialize (Hp1 ltac:(lia) ltac:(lia)). nra.
  - rewrite CalculateErrorRate_clamped by lia. lra.
Qed.

Lemma CalculateLatency_between (elapsed : time.Duration) :
  (0 <= elapsed)%Z -> (0 <= LatencyDuration s)%Z ->
  LatencyStart s <= LatencyEnd s ->
  LatencyStart s <= CalculateLatency s elapsed <= LatencyEnd s.
Proof.
  intros He Hd Hse.
  destruct (Z.eq_dec (LatencyDuration s) 0%Z) as [H0 | H0].
  { rewrite CalculateLatency_static by done. lra. }
  destruct (Z_lt_le_dec elapsed (LatencyDuration s)) as [Hlt | Hge].
  - rewrite CalculateLatency_quadratic by lia.
    pose proof (progress_nonneg elapsed (LatencyDuration s)) as Hp0.
    pose proof (progress_lt_1 elapsed (LatencyDuration s)) as Hp1.
    specialize (Hp0 ltac:(lia) ltac:(lia)).
    specialize (Hp1 ltac:(lia) ltac:(lia)).
    set (p := IZR elapsed / IZR (LatencyDuration s)) in *.
    replace (p ^ 2) with (p * p) by ring.
    assert (0 <= p * p <= 1) by nra. nra.
  - rewrite CalculateLatency_clamped by lia. lra.
Qed.

Lemma CalculateErrorRate_monotone (e1 e2 : time.Duration) :
  (0 <= e1 <= e2)%Z -> (0 <= ErrorRateDuration s)%Z ->
  ErrorRateStart s <= ErrorRateEnd s ->
  CalculateErrorRate s e1 <= CalculateErrorRate s e2.
Proof.
  intros [He1 He12] Hd Hse.
  destruct (Z.eq_dec (ErrorRateDuration s) 0%Z) as [H0 | H0].
  { rewrite !CalculateErrorRate_static by done. lra. }
  destruct (Z_lt_le_dec e2 (ErrorRateDuration s)) as [Hlt | Hge].
  - rewrite !CalculateErrorRate_linear by lia.
    pose proof (progress_monotone e1 e2 (ErrorRateDuration s)) as Hp.
    specialize (Hp ltac:(lia) ltac:(lia)). nra.
  - rewrite (CalculateErrorRate_clamped s e2) by lia.
    apply CalculateErrorRate_between; done.
Qed.

Lemma CalculateLatency_monotone (e1 e2 : time.Duration) :
  (0 <= e1 <= e2)%Z -> (0 <= LatencyDuration s)%Z ->
  LatencyStart s <= LatencyEnd s ->
  CalculateLatency s e1 <= CalculateLatency s e2.
Proof.
  intros [He1 He12] Hd Hse.
  destruct (Z.eq_dec (LatencyDuration s) 0%Z) as [H0 | H0].
  { rewrite !CalculateLatency_static by done. lra. }
  destruct (Z_lt_le_dec e2 (LatencyDuration s)) as [Hlt | Hge].
  - rewrite !CalculateLatency_quadratic by lia.
    pose proof (progress_monotone e1 e2 (LatencyDuration s)) as Hp.
    pose proof (progress_nonneg e1 (LatencyDuration s)) as Hp0.
    specialize (Hp ltac:(lia) ltac:(lia)).
    specialize (Hp0 ltac:(lia) ltac:(lia)).
    set (p1 := IZR e1 / IZR (LatencyDuration s)) in *.
    set (p2 := IZR e2 / IZR (LatencyDuration s)) in *.
    replace (p1 ^ 2) with (p1 * p1) by ring.
    replace (p2 ^ 2) with (p2 * p2) by ring.
    assert (p1 * p1 <= p2 * p2) by nra. nra.
  - rewrite (CalculateLatency_clamped s e2) by lia.
    apply CalculateLatency_between; done.
Qed.

(** At elapsed time zero both metrics are at their start, whatever the
    durations. *)
Lemma CalculateErrorRate_at_0 : CalculateErrorRate s 0%Z = ErrorRateStart s.
Proof.
  unfold CalculateErrorRate. destruct (_ =? _)%Z; [done |].
  destruct (Rge_dec _ _) as [Hge | _].
  - unfold Rdiv in Hge. rewrite Rmult_0_l in Hge. lra.
  - unfold Rdiv. ring.
Qed.

Lemma CalculateLatency_at_0 : CalculateLatency s 0%Z = LatencyStart s.
Proof.
  unfold CalculateLatency. destruct (_ =? _)%Z; [done |].
  destruct (Rge_dec _ _) as [Hge | _].
  - unfold Rdiv in Hge. rewrite Rmult_0_l in Hge. lra.
  - rewrite math_Pow_2. unfold Rdiv. ring.
Qed.

End Progression.

(** Facts of the four catalog entries. *)
Lemma catalog_values (name : ScenarioType) (s : Scenario) :
  AllScenarios !! name = Some s ->
  Type_ s = name /\ name ∈ ValidScenarioTypes /\
  (0 <= ErrorRateStart s <= ErrorRateEnd s)%R /\ (ErrorRateEnd s <= 100)%R /\
  (0 <= LatencyStart s <= LatencyEnd s)%R /\ Up s = 1%R.
Proof.
  intros H. apply AllScenarios_lookup in H.
  destruct H as [[-> ->] | [[-> ->] | [[-> ->] | [-> ->]]]];
    (split; [reflexivity |]); (split; [unfold ValidScenarioTypes; set_solver |]);
    cbn; lra.
Qed.

Lemma GetScenario_catalog (name : ScenarioType) :
  AllScenarios !! Type_ (GetScenario name) = Some (GetScenario name).
Proof.
  unfold GetScenario. destruct (AllScenarios !! name) as [s |] eqn:H.
  - by destruct (catalog_values _ _ H) as [-> _].
  - reflexivity.
Qed.

Lemma Since_nonneg (now t : time.Time) : t <= now -> 0 <= time.Since now t.
Proof.
  intros H. unfold time.Since, time.Sub, time.minDuration, time.maxDuration.
  destruct (Z.ltb_spec (now - t) (- 2 ^ 63)); [lia |].
  destruct (Z.ltb_spec (2 ^ 63 - 1) (now - t)); lia.
Qed.

Lemma Since_monotone (now1 now2 t : time.Time) :
  now1 <= now2 -> time.Since now1 t <= time.Since now2 t.
Proof.
  intros H. unfold time.Since, time.Sub, time.minDuration, time.maxDuration.
  repeat match goal with
         | |- context [Z.ltb ?a ?b] => destruct (Z.ltb_spec a b)
         end; lia.
Qed.

(** X1.  Whatever names were passed to [NewMockServer] and [SetScenario],
    the scenario of the server is an entry of the catalog, filed under its
    own type, and that type is a valid name. *)
Theorem reachable_catalog (ms : MockServer) :
  reachable ms ->
  AllScenarios !! Type_ (currentScenario ms) = Some (currentScenario ms) /\
  Type_ (currentScenario ms) ∈ ValidScenarioTypes.
Proof.
  intros H.
  enough (AllScenarios !! Type_ (currentScenario ms)
          = Some (currentScenario ms)) as Hc.
  { split; [done |]. by destruct (catalog_values _ _ Hc) as (_ & ? & _). }
  induction H as [name now | ms name now _ _ | ms now _ IH]; cbn.
  - apply GetScenario_catalog.
  - apply GetScenario_catalog.
  - exact IH.
Qed.

Lemma reachable_catalog_witness :
  Type_ (currentScenario
           (ResetTimer (SetScenario (NewMockServer "healthy" 0)
                          "no-such-scenario" 5) 9))
  ∈ ValidScenarioTypes.
Proof.
  apply reachable_catalog. apply reachable_reset, reachable_set, reachable_new.
Defined.

(** X2.  On a server these operations produce, read at or after its start
    time, the error rate lies between the start and end values of the
    scenario, within 0 and 100, the latency lies between its start and end
    values and is not negative, and up is 1. *)
Theorem metrics_in_range (ms : MockServer) (now : time.Time) :
  reachable ms ->
  startTime ms <= now ->
  let s := currentScenario ms in
  let m := GetCurrentMetrics ms now in
  (0 <= ErrorRateStart s <= ErrorRate m)%R /\
  (ErrorRate m <= ErrorRateEnd s <= 100)%R /\
  (0 <= LatencyStart s <= Latency m)%R /\
  (Latency m <= LatencyEnd s)%R /\
  UpValue m = 1%R.
Proof.
  intros Hr Ht s m. destruct (reachable_catalog ms Hr) as [Hc _].
  fold s in Hc.
  destruct (catalog_values _ _ Hc) as (_ & _ & He & He' & Hl & Hu).
  destruct (catalog_durations _ _ Hc) as [Hd1 Hd2].
  pose proof (Since_nonneg now (startTime ms) Ht) as Hs.
  pose proof (CalculateErrorRate_between s _ Hs Hd1 ltac:(lra)) as B1.
  pose proof (CalculateLatency_between s _ Hs Hd2 ltac:(lra)) as B2.
  unfold m, GetCurrentMetrics, calculateCurrentMetrics. cbn.
  fold s. unfold CalculateUp. repeat split; try lra; done.
Qed.

Lemma metrics_in_range_witness :
  let m := GetCurrentMetrics (NewMockServer "gradual-degradation" 0)
             (7 * time.Minute) in
  (0 <= ErrorRate m <= 100)%R /\ (0 <= Latency m)%R /\ UpValue m = 1%R.
Proof.
  intros m.
  destruct (metrics_in_range (NewMockServer "gradual-degradation" 0)
              (7 * time.Minute)) as (H1 & H2 & H3 & H4 & H5);
    [apply reachable_new | discriminate |].
  fold m in H1, H2, H3, H4, H5.
  split; [lra |]. split; [lra | exact H5].
Defined.

(** X3.  On such a server the error rate and the latency never decrease as
    the clock advances from the start time. *)
Theorem metrics_never_decrease (ms : MockServer) (now1 now2 : time.Time) :
  reachable ms ->
  startTime ms <= now1 <= now2 ->
  (ErrorRate (GetCurrentMetrics ms now1)
   <= ErrorRate (GetCurrentMetrics ms now2))%R /\
  (Latency (GetCurrentMetrics ms now1)
   <= Latency (GetCurrentMetrics ms now2))%R.
Proof.
  intros Hr [Ht1 Ht12]. destruct (reachable_catalog ms Hr) as [Hc _].
  destruct (catalog_values _ _ Hc) as (_ & _ & He & He' & Hl & Hu).
  destruct (catalog_durations _ _ Hc) as [Hd1 Hd2].
  pose proof (Since_nonneg now1 (startTime ms) Ht1) as Hs.
  pose proof (Since_monotone now1 now2 (startTime ms) Ht12) as Hm.
  unfold GetCurrentMetrics, calculateCurrentMetrics. cbn. split.
  - apply CalculateErrorRate_monotone; [done | done | lra].
  - apply CalculateLatency_monotone; [done | done | lra].
Qed.

Lemma metrics_never_decrease_witness :
  let ms := NewMockServer "latency-spike" 0 in
  (Latency (GetCurrentMetrics ms time.Minute)
   <= Latency (GetCurrentMetrics ms (2 * time.Minute)%Z))%R.
Proof.
  intros ms.
  destruct (metrics_never_decrease ms time.Minute (2 * time.Minute))
    as [_ H]; [apply reachable_new | split; discriminate | exact H].
Defined.

(** ** Switching and resetting *)

Lemma formatDuration_0 : formatDuration 0 = "0s".
Proof. rewrite formatDuration_unfold; [reflexivity | discriminate]. Qed.

Lemma Since_same (now : time.Time) : time.Since now now = 0.
Proof. unfold time.Since, time.Sub. by rewrite Z.sub_diag. Qed.

(** X4.  Read at the instant of the switch, a server shows the start
    values of the scenario that [SetScenario] looked up and an elapsed time
    of ["0s"]; read at the instant of a reset, it shows the start values of
    the scenario it already had, which the reset keeps. *)
Theorem switch_or_reset_restarts (ms : MockServer) (name : ScenarioType)
    (now : time.Time) :
  let s := GetScenario name in
  GetCurrentMetrics (SetScenario ms name now) now
    = {| ErrorRate := ErrorRateStart s; Latency := LatencyStart s;
         UpValue := Up s |} /\
  status_Elapsed (GetStatus (SetScenario ms name now) now) = "0s" /\
  currentScenario (ResetTimer ms now) = currentScenario ms /\
  GetCurrentMetrics (ResetTimer ms now) now
    = {| ErrorRate := ErrorRateStart (currentScenario ms);
         Latency := LatencyStart (currentScenario ms);
         UpValue := Up (currentScenario ms) |} /\
  status_Elapsed (GetStatus (ResetTimer ms now) now) = "0s".
Proof.
  intros s.
  unfold GetCurrentMetrics, GetStatus, calculateCurrentMetrics, SetScenario,
    ResetTimer.
  cbn [currentScenario startTime status_Elapsed]. rewrite !Since_same.
  fold s. rewrite !CalculateErrorRate_at_0, !CalculateLatency_at_0.
  by rewrite formatDuration_0.
Qed.

(** ** Setting the scenario over HTTP *)

Lemma existsb_eqb_elem_of (name : string) (names : list string) :
  existsb (String.eqb name) names = true <-> name ∈ names.
Proof.
  rewrite existsb_exists, list_elem_of_In. split.
  - intros (x & Hin & Heq). apply String.eqb_eq in Heq. by subst.
  - intros Hin. exists name. split; [done | apply String.eqb_refl].
Qed.

Lemma AllScenarios_lookup_valid (name : ScenarioType) :
  name ∈ ValidScenarioTypes ->
  AllScenarios !! name = Some (GetScenario name).
Proof.
  unfold ValidScenarioTypes. rewrite !elem_of_cons, elem_of_nil.
  intros [-> | [-> | [-> | [-> | []]]]]; reflexivity.
Qed.

(** X5.  [HandleSetScenario] changes the server only for one of the four
    valid names: it then answers 200 and the server holds the catalog entry
    filed under that very name, started at the clock of the call; for any
    other name it answers 400 and leaves the server as it was, so the
    fallback of [GetScenario] is never taken through this handler. *)
Theorem HandleSetScenario_gate (ms : MockServer) (now now' : time.Time)
    (name : string) :
  let result := HandleSetScenario ms now now' (inr name) in
  ((name ∈ ValidScenarioTypes) /\
   code (snd result) = 200 /\
   AllScenarios !! name = Some (currentScenario (fst result)) /\
   startTime (fst result) = now /\
   body (snd result)
     = BodyH [("status", HString "success");
              ("data", HStatus (GetStatus (fst result) now'))]) \/
  ((name ∉ ValidScenarioTypes) /\
   code (snd result) = 400 /\
   fst result = ms).
Proof.
  intros result. unfold result, HandleSetScenario.
  destruct (existsb (String.eqb name) ValidScenarioTypes) eqn:Hv; cbn.
  - apply existsb_eqb_elem_of in Hv. left.
    split; [done |]. split; [done |]. split; [| done].
    by apply AllScenarios_lookup_valid.
  - right. split; [| done]. intros Hin.
    apply existsb_eqb_elem_of in Hin. congruence.
Qed.

(** ** rate queries *)

Section RateQueries.

Import gostrings goregexp.

Lemma rateRegex_here (name rest : string) :
  name <> "" -> allIn rateClass name = true ->
  rateRegex ("rate(" +:+ name +:+ "[" +:+ rest) = Some name.
Proof.
  intros Hne Hname. unfold rateRegex.
  apply FindStringSubmatch_here, matchHere_run; done.
Qed.

(** A match of either pattern contains the byte that ends the group. *)
Lemma FindStringSubmatch_stop (lit : string) (class : ascii -> bool)
    (stop : ascii) (s group : string) :
  class stop = false ->
  FindStringSubmatch lit class stop s = Some group ->
  Contains s (String stop "") = true.
Proof.
  intros Hstop H. apply FindStringSubmatch_Some in H; [| done].
  destruct H as (pre & post & (-> & _ & _) & _).
  apply Contains_spec. exists (pre +:+ lit +:+ group), post.
  by rewrite !append_assoc.
Qed.

(** No match where the literal text of the pattern only stands at the
    start and the attempt there fails. *)
Lemma FindStringSubmatch_fails (lit : string) (class : ascii -> bool)
    (stop : ascii) (c : ascii) (s : string) :
  matchHere lit class stop (String c s) = None ->
  Contains s lit = false ->
  FindStringSubmatch lit class stop (String c s) = None.
Proof.
  intros Hhere Hlater. cbn [FindStringSubmatch]. rewrite Hhere.
  apply FindStringSubmatch_None. intros pre post -> .
  unfold matchHere.
  destruct (cutPrefix post lit) as [rest |] eqn:Hcut; [| done].
  apply cutPrefix_Some in Hcut as ->.
  assert (Contains (pre +:+ lit +:+ rest) lit = true) as Hc
    by (apply Contains_spec; by exists pre, rest).
  congruence.
Qed.

Lemma TrimSpace_Contains_bracket (s : string) :
  Contains (TrimSpace s) "[" = Contains s "[".
Proof. by eapply TrimSpace_Contains. Qed.

End RateQueries.

(** X6.  A query that reads [rate(<name>[...] after trimming, with a name
    of at least one byte and no bracket in it, is answered from the name
    alone: the error rate if the name contains the error metric, else the
    latency in seconds if it contains the duration metric, else an error
    that quotes the trimmed name.  The direct checks are never reached, so
    [rate(up[5m])] is an error. *)
Theorem rate_query (query name rest : string) (metrics : MetricValues) :
  gostrings.TrimSpace query = "rate(" +:+ name +:+ "[" +:+ rest ->
  name <> "" ->
  goregexp.allIn rateClass name = true ->
  parseQuery query metrics =
  if gostrings.Contains name "http_requests_errors_total" then
    Value_ (ErrorRate metrics / 100.0 * baselineRequestsPerSecond)%R
  else if gostrings.Contains name "http_request_duration_seconds" then
    Value_ (Latency metrics / 1000.0)%R
  else Errorf ("unknown metric in rate query: " +:+ gostrings.TrimSpace name).
Proof.
  intros Htrim Hne Hname. unfold parseQuery. rewrite Htrim.
  rewrite HasPrefix_append. unfold handleRate.
  rewrite rateRegex_here by done.
  by rewrite TrimSpace_Contains_errors, TrimSpace_Contains_duration.
Qed.

Lemma rate_query_witness :
  parseQuery "rate(up[5m])" (mkMetricValues 0.5 150 1)
    = Errorf "unknown metric in rate query: up" /\
  parseQuery " rate( http_request_duration_seconds_bucket [1h])"
    (mkMetricValues 0.5 150 1) = Value_ (150 / 1000.0)%R.
Proof.
  split.
  - rewrite (rate_query _ "up" "5m])"); [reflexivity | reflexivity | | ];
      discriminate || reflexivity.
  - rewrite (rate_query _ " http_request_duration_seconds_bucket " "1h])");
      [reflexivity | reflexivity | | ]; discriminate || reflexivity.
Defined.

(** X7.  A query that starts with [rate(] after trimming and has no
    opening bracket anywhere fails with ["invalid rate query format"],
    whatever metric it names. *)
Theorem rate_query_without_bracket (query : string) (metrics : MetricValues) :
  gostrings.HasPrefix (gostrings.TrimSpace query) "rate(" = true ->
  gostrings.Contains query "[" = false ->
  parseQuery query metrics = Errorf "invalid rate query format".
Proof.
  intros Hrate Hbr. unfold parseQuery. rewrite Hrate. unfold handleRate.
  destruct (rateRegex (gostrings.TrimSpace query)) as [g |] eqn:Hre;
    [| done].
  apply FindStringSubmatch_stop in Hre; [| done].
  rewrite TrimSpace_Contains_bracket in Hre. congruence.
Qed.

Lemma rate_query_without_bracket_witness :
  parseQuery "rate(http_requests_errors_total)" (mkMetricValues 0.5 150 1)
  = Errorf "invalid rate query format".
Proof. apply rate_query_without_bracket; reflexivity. Defined.

(** ** The errors of a query *)

(** The group that the quantile pattern captures is a run of digits and
    points. *)
Lemma histogramRegex_class (s group : string) :
  histogramRegex s = Some group ->
  goregexp.allIn quantileClass group = true.
Proof.
  intros H. apply histogramRegex_leftmost in H.
  by destruct H as (pre & post & (_ & _ & Hall) & _).
Qed.

(** X8.  The message of a failed evaluation has one of six forms.  A
    query that starts with [rate(] fails as malformed or as naming an
    unknown metric; one that starts with [histogram_quantile(] fails as
    malformed, with an argument of digits and points that is not a number,
    or with a number above 1 (never with a number below 0, which the
    pattern cannot capture); any other query fails only when it contains
    none of the three metric names. *)
Theorem parseQuery_errors (query : string) (metrics : MetricValues)
    (message : string) :
  parseQuery query metrics = Errorf message ->
  let trimmed := gostrings.TrimSpace query in
  (gostrings.HasPrefix trimmed "rate(" = true /\
   (message = "invalid rate query format" \/
    exists name, message = "unknown metric in rate query: " +:+ name)) \/
  (gostrings.HasPrefix trimmed "rate(" = false /\
   gostrings.HasPrefix trimmed "histogram_quantile(" = true /\
   (message = "invalid histogram_quantile format" \/
    (exists run,
       goregexp.allIn quantileClass run = true /\
       strconv.ParseFloat run = None /\
       message = "invalid quantile value: " +:+ run) \/
    (exists (run : string) (q : R),
       strconv.ParseFloat run = Some q /\ (1 < q)%R /\
       message = "quantile must be between 0 and 1, got: " +:+
                 fmt.formatFloat 6 q))) \/
  (gostrings.HasPrefix trimmed "rate(" = false /\
   gostrings.HasPrefix trimmed "histogram_quantile(" = false /\
   gostrings.Contains query "http_requests_errors_total" = false /\
   gostrings.Contains query "http_request_duration_seconds" = false /\
   gostrings.Contains query "up" = false /\
   message = "unsupported metric query: " +:+ trimmed).
Proof.
  intros H trimmed. unfold parseQuery in H. fold trimmed in H.
  destruct (gostrings.HasPrefix trimmed "rate(") eqn:Hrate.
  { left. split; [done |]. unfold handleRate in H.
    destruct (rateRegex trimmed) as [g |]; [| left; congruence].
    repeat destruct (gostrings.Contains _ _); try discriminate.
    right. eexists. by injection H as <-. }
  destruct (gostrings.HasPrefix trimmed "histogram_quantile(") eqn:Hhist.
  { right. left. split; [done |]. split; [done |].
    unfold handleHistogramQuantile in H.
    destruct (histogramRegex trimmed) as [run |] eqn:Hre;
      [| left; congruence].
    apply histogramRegex_class in Hre.
    destruct (strconv.ParseFloat run) as [q |] eqn:Hp.
    - destruct (bool_decide (q < 0)%R || bool_decide (q > 1)%R) eqn:Hb;
        [| discriminate].
      right. right. exists run, q. split; [done |].
      split; [| congruence].
      destruct (ParseFloat_Some _ _ Hp) as (_ & _ & Hq).
      apply orb_prop in Hb as [Hb | Hb]; apply bool_decide_eq_true_1 in Hb;
        lra.
    - right. left. exists run. split; [done |]. split; [done | congruence]. }
  right. right. unfold trimmed in H.
  rewrite TrimSpace_Contains_errors, TrimSpace_Contains_duration,
    TrimSpace_Contains_up in H.
  repeat destruct (gostrings.Contains _ _); try discriminate.
  injection H as <-. repeat split.
Qed.

Lemma parseQuery_errors_witness :
  exists (run : string) (q : R),
    strconv.ParseFloat run = Some q /\ (1 < q)%R /\
    "quantile must be between 0 and 1, got: " +:+ fmt.formatFloat 6 2.5
    = "quantile must be between 0 and 1, got: " +:+ fmt.formatFloat 6 q.
Proof.
  destruct (parseQuery_errors "histogram_quantile(2.5, x)"
              (mkMetricValues 0.5 150 1)
              ("quantile must be between 0 and 1, got: " +:+
               fmt.formatFloat 6 2.5))
    as [[H _] | [(_ & _ & [H | [(run & _ & _ & H) | H]]) | (_ & H & _)]].
  - rewrite (parseQuery_histogram_quantile _ "2.5" " x)"
               (IZR 5629499534213120 / IZR 2251799813685248)%R);
      [| reflexivity | reflexivity].
    rewrite (bool_decide_eq_true_2
               (IZR 5629499534213120 / IZR 2251799813685248 > 1)%R) by lra.
    rewrite orb_true_r. do 3 f_equal. lra.
  - discriminate H.
  - discriminate H.
  - discriminate H.
  - exact H.
  - discriminate H.
Defined.

(** X9.  A [histogram_quantile(] query whose argument is empty or starts
    with a byte that is neither a digit nor a point (a sign, a letter, a
    space), with no second [histogram_quantile(] further on, fails with
    ["invalid histogram_quantile format"]: a negative or alphabetic
    quantile is reported as a malformed query, without its value. *)
Theorem histogram_quantile_bad_argument (query arg : string)
    (metrics : MetricValues) :
  gostrings.TrimSpace query = "histogram_quantile(" +:+ arg ->
  match arg with
  | "" => True
  | String c _ => quantileClass c = false
  end ->
  gostrings.Contains arg "histogram_quantile(" = false ->
  parseQuery query metrics = Errorf "invalid histogram_quantile format".
Proof.
  intros Htrim Hfirst Hlater. unfold parseQuery. rewrite Htrim.
  assert (gostrings.HasPrefix ("histogram_quantile(" +:+ arg) "rate("
          = false) as -> by reflexivity.
  rewrite HasPrefix_append. unfold handleHistogramQuantile, histogramRegex.
  change ("histogram_quantile(" +:+ arg)
    with (String "h" ("istogram_quantile(" +:+ arg)).
  rewrite FindStringSubmatch_fails; [done | |].
  - change (String "h" ("istogram_quantile(" +:+ arg))
      with ("histogram_quantile(" +:+ arg).
    unfold goregexp.matchHere. rewrite cutPrefix_append.
    destruct arg as [| c rest]; [done |]. cbn [goregexp.span].
    by rewrite Hfirst.
  - change ("istogram_quantile(" +:+ arg)
      with (String "i" (String "s" (String "t" (String "o" (String "g"
           (String "r" (String "a" (String "m" (String "_" (String "q"
           (String "u" (String "a" (String "n" (String "t" (String "i"
           (String "l" (String "e" (String "(" arg)))))))))))))))))).
    by rewrite !Contains_cons_ne by discriminate.
Qed.

Lemma histogram_quantile_bad_argument_witness :
  parseQuery "histogram_quantile(-0.5, rate(x[5m]))" (mkMetricValues 0.5 150 1)
  = Errorf "invalid histogram_quantile format".
Proof.
  apply (histogram_quantile_bad_argument _ "-0.5, rate(x[5m]))");
    reflexivity.
Defined.

(** ** The bucket lines of the exposition *)

Section BucketLines.

Local Open Scope R_scope.

Lemma formatFloat_3 (x : R) (m : Z) :
  (0 <= m)%Z -> x = IZR m / 1000 ->
  fmt.formatFloat 3 x =
  fmt.formatInt (m / 1000) +:+ "." +:+
  fmt.padZeros 3 (fmt.formatInt (m mod 1000)).
Proof.
  intros Hm ->.
  change 1000 with (IZR (10 ^ Z.of_nat 3)).
  by rewrite formatFloat_decimal.
Qed.

Lemma cumCount_nonneg (L b : R) : 0 <= cumCount L b.
Proof.
  unfold cumCount, count, baselineRequestsPerSecond.
  destruct (Rge_dec _ _); [lra |]. rewrite math_Pow_half.
  pose proof (sqrt_pos (b / L)). lra.
Qed.

Lemma roundHalfEven_count (c : R) :
  0 <= c <= 100 -> (0 <= fmt.roundHalfEven c <= 100)%Z.
Proof.
  intros [H0 H1]. rewrite <- (roundHalfEven_IZR 0), <- (roundHalfEven_IZR 100).
  split; by apply roundHalfEven_monotone.
Qed.

Lemma bucketLine_printed (label : string) (m : Z) (b L : R) :
  0 < L -> (0 <= m)%Z -> b = IZR m / 1000 ->
  label = fmt.formatInt (m / 1000) +:+ "." +:+
          fmt.padZeros 3 (fmt.formatInt (m mod 1000)) ->
  bucketLine (b, cumCount L b)
  = printedBucketLine label (fmt.roundHalfEven (cumCount L b)).
Proof.
  intros HL Hm Hb ->. unfold bucketLine, printedBucketLine. cbn [fst snd].
  rewrite (formatFloat_3 b m) by done.
  by rewrite formatFloat_0 by apply cumCount_nonneg.
Qed.

End BucketLines.

(** One line of the list: the boundary is [m] thousandths. *)
Ltac bucket_line m HL :=
  apply (f_equal2 cons);
  [apply (bucketLine_printed _ m); [exact HL | lia | lra | reflexivity] |].

(** The bucket lines with their labels and whole-number counts. *)
Lemma histogram_bucket_lines (metrics : MetricValues) :
  let h := histogramOf metrics in
  exists counts : list Z,
    map bucketLine (bucketSamples h)
      = zip_with printedBucketLine leLabels counts /\
    length counts = 11%nat /\
    Forall (fun n => 0 <= n <= 100) counts /\
    StronglySorted Z.le (counts ++ [100]) /\
    fmt.formatFloat 0 (infSample h) = "100".
Proof.
  intros h.
  exists (map fmt.roundHalfEven (map snd (bucketSamples h))).
  pose proof (latencySeconds_pos metrics) as HL.
  split; [| split; [| split; [| split]]].
  - unfold h, histogramOf, buckets, leLabels.
    cbn [bucketSamples map snd zip_with].
    bucket_line 5 HL. bucket_line 10 HL. bucket_line 25 HL.
    bucket_line 50 HL. bucket_line 100 HL. bucket_line 250 HL.
    bucket_line 500 HL. bucket_line 1000 HL. bucket_line 2500 HL.
    bucket_line 5000 HL. bucket_line 10000 HL. done.
  - reflexivity.
  - unfold h, histogramOf, buckets. cbn [bucketSamples map snd].
    repeat (constructor;
            [apply roundHalfEven_count; split;
             [apply cumCount_nonneg | by apply cumCount_le_count] |]).
    constructor.
  - pose proof (printed_counts_monotone metrics) as Hs. cbv zeta in Hs.
    fold h in Hs. rewrite map_app in Hs. cbn [map] in Hs.
    replace (fmt.roundHalfEven (infSample h)) with 100 in Hs; [done |].
    unfold h, histogramOf, count, baselineRequestsPerSecond.
    cbn [infSample].
    replace (100.0)%R with (IZR 100) by lra. by rewrite roundHalfEven_IZR.
  - unfold h, histogramOf, count, baselineRequestsPerSecond. cbn [infSample].
    replace (100.0)%R with (IZR 100 / IZR (10 ^ Z.of_nat 0))%R
      by (change (10 ^ Z.of_nat 0) with 1; lra).
    by rewrite formatFloat_decimal.
Qed.

Lemma latencySeconds_small (metrics : MetricValues) :
  (Latency metrics <= 5)%R -> (latencySeconds metrics <= 0.005)%R.
Proof.
  intros H. unfold latencySeconds. destruct (Rle_dec _ _); lra.
Qed.

Ltac full_bucket_line k HL Hs :=
  apply (f_equal2 cons);
  [etrans;
   [eapply bucketLine_printed with (m := k);
    [exact HL | lia | lra | reflexivity] |];
   rewrite cumCount_full by lra;
   by rewrite roundHalfEven_IZR |].

(** The bucket lines of a latency of at most 5 milliseconds. *)
Lemma histogram_small_latency (metrics : MetricValues) :
  (Latency metrics <= 5)%R ->
  let h := histogramOf metrics in
  map bucketLine (bucketSamples h)
    = map (fun label => printedBucketLine label 100) leLabels /\
  ((Latency metrics <= 0)%R -> fmt.formatFloat 3 (sumSample h) = "0.100").
Proof.
  intros Hl h. pose proof (latencySeconds_pos metrics) as HL.
  pose proof (latencySeconds_small metrics Hl) as Hs. split.
  - unfold h, histogramOf, buckets, leLabels. cbn [bucketSamples map].
    full_bucket_line 5 HL Hs. full_bucket_line 10 HL Hs.
    full_bucket_line 25 HL Hs. full_bucket_line 50 HL Hs.
    full_bucket_line 100 HL Hs. full_bucket_line 250 HL Hs.
    full_bucket_line 500 HL Hs. full_bucket_line 1000 HL Hs.
    full_bucket_line 2500 HL Hs. full_bucket_line 5000 HL Hs.
    full_bucket_line 10000 HL Hs. done.
  - intros H0. unfold h, histogramOf. cbn [sumSample].
    rewrite latencySeconds_floor by done.
    by rewrite (formatFloat_3 _ 100)
      by (lia || (unfold count, baselineRequestsPerSecond; lra)).
Qed.

Lemma formatFloat_0_100 : fmt.formatFloat 0 100%R = "100".
Proof.
  replace 100%R with (IZR 100 / IZR (10 ^ Z.of_nat 0))%R
    by (change (10 ^ Z.of_nat 0) with 1; lra).
  by rewrite formatFloat_decimal.
Qed.

Lemma histogram_inf_count (metrics : MetricValues) :
  fmt.formatFloat 0 (infSample (histogramOf metrics)) = "100"
  /\ fmt.formatFloat 0 (countSample (histogramOf metrics)) = "100".
Proof.
  unfold histogramOf, count, baselineRequestsPerSecond.
  cbn [infSample countSample].
  replace (100.0)%R with 100%R by lra. by rewrite formatFloat_0_100.
Qed.

(** X10.  The histogram block of the text that [FormatMetrics] writes has
    eleven bucket lines with the labels 0.005, 0.010, ... 10.000 and
    whole-number counts; the printed counts lie between 0 and 100 and
    never decrease from one line to the next, and the [+Inf] line after
    them prints 100. *)
Theorem exposition_bucket_lines (metrics : MetricValues) :
  exists (counts : list Z) (errors sum up : string),
    FormatMetricsOf metrics
    = Spec.expositionText errors
        (zip_with printedBucketLine leLabels counts) "100" sum "100" up /\
    length counts = 11%nat /\
    Forall (fun n => 0 <= n <= 100) counts /\
    StronglySorted Z.le (counts ++ [100]).
Proof.
  destruct (histogram_bucket_lines metrics)
    as (counts & Hlines & Hlen & Hrange & Hsorted & _).
  destruct (histogram_inf_count metrics) as [Hinf Hcount].
  exists counts. eexists _, _, _.
  split; [| done].
  rewrite FormatMetricsOf_text. cbv zeta.
  rewrite Hlines, Hinf, Hcount. reflexivity.
Qed.

(** X11.  With a latency of at most 5 milliseconds, and so with a latency
    of zero or less, which the guard turns into one millisecond, every
    bucket line of the text that [FormatMetrics] writes prints the full
    count of 100; with a latency of zero or less the [_sum] line prints
    0.100. *)
Theorem small_latency_buckets (metrics : MetricValues) :
  (Latency metrics <= 5)%R ->
  exists errors sum up : string,
    FormatMetricsOf metrics
    = Spec.expositionText errors
        (map (fun label => printedBucketLine label 100) leLabels)
        "100" sum "100" up /\
    ((Latency metrics <= 0)%R -> sum = "0.100").
Proof.
  intros Hl.
  destruct (histogram_small_latency metrics Hl) as [Hlines Hsum].
  destruct (histogram_inf_count metrics) as [Hinf Hcount].
  eexists _, (fmt.formatFloat 3 (sumSample (histogramOf metrics))), _.
  split; [| exact Hsum].
  rewrite FormatMetricsOf_text. cbv zeta.
  rewrite Hlines, Hinf, Hcount. reflexivity.
Qed.

Lemma small_latency_buckets_witness :
  exists errors sum up : string,
    FormatMetricsOf (mkMetricValues 0 0 1)
    = Spec.expositionText errors
        (map (fun label => printedBucketLine label 100) leLabels)
        "100" sum "100" up /\
    sum = "0.100".
Proof.
  destruct (small_latency_buckets (mkMetricValues 0 0 1))
    as (errors & sum & up & Htext & Hsum); [cbn; lra |].
  exists errors, sum, up. split; [exact Htext | apply Hsum; cbn; lra].
Defined.


(** ** The cache of transformed files *)

Lemma cacheRun_snoc (calls : list cacheCall) (call : cacheCall) :
  cacheRun (calls ++ [call]) = cacheStep (cacheRun calls) call.
Proof. unfold cacheRun. by rewrite fold_left_app. Qed.

Lemma cacheRun_app_files (c : transformer.Cache) (calls : list cacheCall)
    (path : string) :
  forallb (fun call => negb (setsPath path call)) calls = true ->
  transformer.files (fold_left cacheStep calls c) !! path
  = transformer.files c !! path.
Proof.
  revert c. induction calls as [| call calls IH]; intros c H; [done |].
  cbn [forallb] in H. apply andb_true_iff in H as [Hc H].
  cbn [fold_left]. rewrite IH by done.
  destruct call as [p | p x]; cbn [cacheStep].
  - unfold transformer.Get. by destruct (transformer.files c !! p).
  - cbn in Hc. apply negb_true_iff, bool_decide_eq_false in Hc.
    cbn. by rewrite lookup_insert_ne.
Qed.

(** X12.  The cache is last-write-wins.  After any sequence of calls from a
    new cache, [Get] of a path returns the content of the last [Set] of
    that path with the flag true, whatever calls on other paths and
    whatever [Get]s came in between; and it returns the nil slice with the
    flag false when the path was never [Set]. *)
Theorem cache_last_write (calls : list cacheCall) (path : string) :
  (forall before after content,
      calls = before ++ CallSet path content :: after ->
      forallb (fun call => negb (setsPath path call)) after = true ->
      fst (transformer.Get (cacheRun calls) path) = (content, true))
  /\ (forallb (fun call => negb (setsPath path call)) calls = true ->
      fst (transformer.Get (cacheRun calls) path) = ("", false)).
Proof.
  split.
  - intros before after content -> Hafter.
    unfold cacheRun. rewrite fold_left_app. cbn [fold_left cacheStep].
    unfold transformer.Get at 1.
    rewrite cacheRun_app_files by done.
    cbn. by rewrite lookup_insert_eq.
  - intros Hnever. unfold cacheRun, transformer.Get.
    by rewrite cacheRun_app_files by done.
Qed.

Lemma cache_last_write_witness :
  fst (transformer.Get
         (cacheRun [CallSet "a.js" "1"; CallGet "a.js"; CallSet "a.js" "2";
                    CallSet "b.js" "3"; CallGet "c.js"]) "a.js") = ("2", true)
  /\ fst (transformer.Get (cacheRun [CallSet "b.js" "3"]) "a.js")
     = ("", false).
Proof.
  split.
  - apply (proj1 (cache_last_write
             [CallSet "a.js" "1"; CallGet "a.js"; CallSet "a.js" "2";
              CallSet "b.js" "3"; CallGet "c.js"] "a.js")
             [CallSet "a.js" "1"; CallGet "a.js"]
             [CallSet "b.js" "3"; CallGet "c.js"] "2");
      reflexivity.
  - apply (proj2 (cache_last_write [CallSet "b.js" "3"] "a.js")).
    reflexivity.
Defined.

Lemma uint64_range (z : Z) : 0 <= uint64 z < 2 ^ 64.
Proof. unfold uint64. apply Z.mod_pos_bound. lia. Qed.

Lemma cacheRun_counters (calls : list cacheCall) :
  0 <= transformer.hits (cacheRun calls) < 2 ^ 64
  /\ 0 <= transformer.misses (cacheRun calls) < 2 ^ 64
  /\ uint64 (transformer.hits (cacheRun calls)
             + transformer.misses (cacheRun calls))
     = uint64 (Z.of_nat (length (List.filter isGet calls))).
Proof.
  induction calls as [| call calls IH] using rev_ind.
  - cbn. repeat split; lia.
  - rewrite cacheRun_snoc, List.filter_app, length_app.
    destruct IH as (Hh & Hm & IH).
    destruct call as [p | p x]; cbn [cacheStep List.filter isGet length].
    + unfold transformer.Get.
      destruct (transformer.files (cacheRun calls) !! p);
        cbn [snd transformer.hits transformer.misses];
        (split; [| split]); try done; try apply uint64_range.
      * unfold uint64 in *.
        rewrite Zplus_mod_idemp_l.
        replace (transformer.hits (cacheRun calls) + 1
                 + transformer.misses (cacheRun calls))
          with (transformer.hits (cacheRun calls)
                + transformer.misses (cacheRun calls) + 1) by lia.
        rewrite <- Zplus_mod_idemp_l, IH, Zplus_mod_idemp_l.
        f_equal. cbn [bool_decide]. rewrite Nat2Z.inj_add. done.
      * unfold uint64 in *.
        rewrite Zplus_mod_idemp_r.
        replace (transformer.hits (cacheRun calls)
                 + (transformer.misses (cacheRun calls) + 1))
          with (transformer.hits (cacheRun calls)
                + transformer.misses (cacheRun calls) + 1) by lia.
        rewrite <- Zplus_mod_idemp_l, IH, Zplus_mod_idemp_l.
        f_equal. rewrite Nat2Z.inj_add. done.
    + cbn [transformer.Set_ transformer.hits transformer.misses].
      rewrite Nat.add_0_r. done.
Qed.

(** X13.  Every [Get] is counted exactly once, as a hit or as a miss, and a
    [Set] is not counted: after any sequence of calls from a new cache with
    fewer than 2^64 calls of [Get], the two counters add up to the number
    of calls of [Get]. *)
Theorem cache_counts_every_Get (calls : list cacheCall) :
  Z.of_nat (length (List.filter isGet calls)) < 2 ^ 64 ->
  transformer.hits (cacheRun calls) + transformer.misses (cacheRun calls)
  = Z.of_nat (length (List.filter isGet calls)).
Proof.
  intros Hfew.
  induction calls as [| call calls IH] using rev_ind; [done |].
  rewrite List.filter_app, length_app in Hfew |- *.
  rewrite cacheRun_snoc.
  destruct (cacheRun_counters calls) as (Hh & Hm & _).
  destruct call as [p | p x]; cbn [cacheStep List.filter isGet length] in *.
  - assert (IH' := IH ltac:(lia)).
    unfold transformer.Get.
    destruct (transformer.files (cacheRun calls) !! p);
      cbn [snd transformer.hits transformer.misses];
      unfold uint64; rewrite Z.mod_small; lia.
  - cbn [transformer.Set_ transformer.hits transformer.misses].
    rewrite Nat.add_0_r in *. by apply IH.
Qed.

Lemma cache_counts_every_Get_witness :
  transformer.hits
    (cacheRun [CallGet "a.js"; CallSet "a.js" "1"; CallGet "a.js"])
  + transformer.misses
      (cacheRun [CallGet "a.js"; CallSet "a.js" "1"; CallGet "a.js"])
  = 2.
Proof.
  apply (cache_counts_every_Get
           [CallGet "a.js"; CallSet "a.js" "1"; CallGet "a.js"]).
  vm_compute. reflexivity.
Defined.

Lemma sizeBytesIn_from (order : list (string * string)) (a : Z) :
  fold_left
    (fun sizeBytes kv => sizeBytes + Z.of_nat (String.length (snd kv)))
    order a
  = a + transformer.sizeBytesIn order.
Proof.
  unfold transformer.sizeBytesIn.
  revert a. induction order as [| kv order IH]; intros a; cbn [fold_left].
  - lia.
  - rewrite IH, (IH (0 + _)). lia.
Qed.

Lemma sizeBytesIn_cons (kv : string * string)
    (order : list (string * string)) :
  transformer.sizeBytesIn (kv :: order)
  = Z.of_nat (String.length (snd kv)) + transformer.sizeBytesIn order.
Proof.
  unfold transformer.sizeBytesIn at 1. cbn [fold_left].
  rewrite sizeBytesIn_from. lia.
Qed.

Lemma sizeBytesIn_perm (order order' : list (string * string)) :
  order ≡ₚ order' ->
  transformer.sizeBytesIn order = transformer.sizeBytesIn order'.
Proof.
  induction 1 as [| kv l l' _ IH | kv kv' l | l l' l'' _ IH _ IH'].
  - done.
  - by rewrite !sizeBytesIn_cons, IH.
  - rewrite !sizeBytesIn_cons. lia.
  - by rewrite IH.
Qed.

Lemma Stats_unique (c : transformer.Cache) (r r' : Z * Z * Z) :
  transformer.Stats c r -> transformer.Stats c r' -> r = r'.
Proof.
  intros [order H] [order' H']. f_equal.
  apply sizeBytesIn_perm. unfold rangeOrder in *. by rewrite H, H'.
Qed.

Lemma Stats_total (c : transformer.Cache) :
  transformer.Stats c
    (transformer.hits c, transformer.misses c,
     transformer.sizeBytesIn (map_to_list (transformer.files c))).
Proof. constructor. by unfold rangeOrder. Qed.

(** X14.  [Stats] and [Size] do not depend on the iteration order of the
    map, and a [Set] changes them by the stored content only: the counters
    stay, the size in bytes loses the length of the content the path had
    (if any) and gains the length of the new content, and the number of
    files grows by one exactly when the path is new.  (The lengths are
    summed without wrap-around: the slices are in memory together.) *)
Theorem Stats_after_Set (c : transformer.Cache) (path content : string)
    (h m b : Z) (r : Z * Z * Z) :
  transformer.Stats c (h, m, b) ->
  transformer.Stats (transformer.Set_ c path content) r ->
  r = (h, m,
       b - Z.of_nat (String.length (default "" (transformer.files c !! path)))
       + Z.of_nat (String.length content))
  /\ transformer.Size (transformer.Set_ c path content)
     = transformer.Size c
       + match transformer.files c !! path with Some _ => 0 | None => 1 end.
Proof.
  intros Hc Hset. split.
  - inversion Hc as [order Horder [Hh Hm Hb]]. subst h m.
    inversion Hset as [order' Horder' Hr]. clear Hc Hset Hr.
    cbn [transformer.Set_ transformer.files transformer.hits
         transformer.misses] in *.
    f_equal. unfold rangeOrder in *.
    rewrite (sizeBytesIn_perm _ _ Horder), (sizeBytesIn_perm _ _ Horder').
    destruct (transformer.files c !! path) as [old |] eqn:Hold; cbn [default].
    + rewrite <- (sizeBytesIn_perm _ _ (map_to_list_delete _ _ _ Hold)).
      rewrite <- (insert_delete_eq (transformer.files c)).
      rewrite (sizeBytesIn_perm _ _
                 (map_to_list_insert _ path content
                    (lookup_delete_eq (transformer.files c) path))).
      rewrite !sizeBytesIn_cons. cbn [snd]. change (Datatypes.id old) with old. lia.
    + rewrite (sizeBytesIn_perm _ _
                 (map_to_list_insert _ path content Hold)).
      rewrite sizeBytesIn_cons. cbn [snd String.length]. lia.
  - unfold transformer.Size. cbn [transformer.Set_ transformer.files].
    rewrite map_size_insert.
    destruct (transformer.files c !! path); cbn; lia.
Qed.

Lemma Stats_after_Set_witness :
  (0, 0, 2) = (0, 0, 0 - 0 + 2)
  /\ transformer.Size (transformer.Set_ transformer.NewCache "a.js" "ab")
     = transformer.Size transformer.NewCache + 1.
Proof.
  apply (Stats_after_Set transformer.NewCache "a.js" "ab" 0 0 0 (0, 0, 2)).
  - apply (transformer.Stats_intro transformer.NewCache []).
    unfold rangeOrder. cbn. by rewrite map_to_list_empty.
  - apply (transformer.Stats_intro
             (transformer.Set_ transformer.NewCache "a.js" "ab")
             [("a.js", "ab")]).
    unfold rangeOrder. cbn. by rewrite insert_empty, map_to_list_singleton.
Defined.

(** ** The replacement of placeholders *)

Lemma replaceFrom_skip (old new p rest : string) :
  replaceFrom old new (String.length p) (p +:+ rest)
  = replaceFrom old new 0 rest.
Proof.
  induction p as [| c p IH]; [by rewrite append_nil_l |].
  rewrite append_cons. cbn [String.length replaceFrom]. done.
Qed.

(** [ReplaceAll] replaces the occurrence its input starts with and goes on
    behind it; it keeps a byte no occurrence starts at. *)
Lemma ReplaceAll_match (old new rest : string) :
  old <> "" ->
  ReplaceAll (old +:+ rest) old new = new +:+ ReplaceAll rest old new.
Proof.
  intros Hold. unfold ReplaceAll.
  pose proof (HasPrefix_append old rest) as Hp.
  destruct old as [| a old]; [done |].
  rewrite append_cons in Hp |- *. cbn [replaceFrom]. rewrite Hp.
  cbn [String.length]. rewrite Nat.sub_succ, Nat.sub_0_r.
  by rewrite replaceFrom_skip.
Qed.

Lemma ReplaceAll_mismatch (c : ascii) (s old new : string) :
  gostrings.HasPrefix (String c s) old = false ->
  ReplaceAll (String c s) old new = String c (ReplaceAll s old new).
Proof. intros H. unfold ReplaceAll. cbn [replaceFrom]. by rewrite H. Qed.

Lemma ReplaceAll_absent (s old new : string) :
  gostrings.Contains s old = false -> ReplaceAll s old new = s.
Proof.
  induction s as [| c s IH]; [done |].
  intros H. cbn [gostrings.Contains] in H.
  apply orb_false_iff in H as [Hp Hs].
  rewrite ReplaceAll_mismatch by done. by rewrite IH.
Qed.

(** X15.  A content in which no placeholder of the replacements occurs
    between double underscores is returned as it is, in every iteration
    order of the replacements; in particular a content without a double
    underscore, and every content when there are no replacements. *)
Theorem transform_without_placeholder (replacements : gmap string string)
    (content result : string) :
  (forall placeholder value,
      replacements !! placeholder = Some value ->
      gostrings.Contains content ("__" +:+ placeholder +:+ "__") = false) ->
  transformer.transform replacements content result ->
  result = content.
Proof.
  intros Habsent [order Horder]. unfold rangeOrder in Horder.
  assert (Forall
            (fun kv =>
               gostrings.Contains content ("__" +:+ fst kv +:+ "__") = false)
            order) as Hall.
  { apply Forall_forall. intros [p v] Hin.
    apply (Habsent p v), elem_of_map_to_list. by rewrite <- Horder. }
  clear Horder Habsent. unfold transformer.transformIn.
  induction Hall as [| kv order Hkv _ IH]; [done |].
  cbn [fold_left]. unfold transformer.replacePlaceholder at 2.
  by rewrite ReplaceAll_absent.
Qed.

Lemma transform_without_placeholder_witness :
  "<p>__TITLE__</p>" = "<p>__TITLE__</p>".
Proof.
  apply (transform_without_placeholder {["NAME" := "x"]} "<p>__TITLE__</p>"
           "<p>__TITLE__</p>").
  - intros placeholder value H.
    apply lookup_singleton_Some in H as [<- _]. reflexivity.
  - apply (transformer.transform_intro {["NAME" := "x"]} "<p>__TITLE__</p>"
             [("NAME", "x")]).
    unfold rangeOrder. by rewrite map_to_list_singleton.
Defined.

(** X16.  The result of [transform] can depend on the iteration order of
    the replacements, even when no value contains an underscore: two
    placeholders that overlap in the content are replaced in the order
    the map is ranged over, and the first one replaced takes the
    underscores they share. *)
Theorem transform_order_dependent :
  exists (replacements : gmap string string) (content r1 r2 : string),
    (forall placeholder value,
        replacements !! placeholder = Some value ->
        gostrings.Contains value "_" = false)
    /\ transformer.transform replacements content r1
    /\ transformer.transform replacements content r2
    /\ r1 <> r2.
Proof.
  exists (<["A" := "a"]> {["B" := "b"]}), "__A__B__", "aB__", "__Ab".
  assert (rangeOrder (<["A" := "a"]> ({["B" := "b"]} : gmap string string))
            [("A", "a"); ("B", "b")]) as Horder.
  { unfold rangeOrder.
    rewrite map_to_list_insert by done. by rewrite map_to_list_singleton. }
  split; [| split; [| split]].
  - intros placeholder value H.
    apply lookup_insert_Some in H as [[_ <-] | [_ H]]; [done |].
    by apply lookup_singleton_Some in H as [_ <-].
  - apply (transformer.transform_intro _ "__A__B__" [("A", "a"); ("B", "b")]).
    exact Horder.
  - apply (transformer.transform_intro _ "__A__B__" [("B", "b"); ("A", "a")]).
    unfold rangeOrder in *. rewrite <- Horder. apply Permutation_swap.
  - done.
Qed.

(** ** File extensions: what is transformed and how it is served *)

Lemma Contains_slash_head (a : ascii) (s : string) :
  gostrings.Contains (String a s) (String a "") = true.
Proof. cbn. by rewrite Ascii.eqb_refl. Qed.

Lemma extFrom_empty_iff (r acc : string) :
  filepath.extFrom r acc = "" <->
  forall seg rest,
    r = seg +:+ rest ->
    gostrings.Contains seg "/" = false -> gostrings.Contains seg "." = false.
Proof.
  revert acc. induction r as [| c r IH]; intros acc.
  - split; [| done]. intros _ seg rest H _. by destruct seg.
  - cbn [filepath.extFrom].
    destruct (Ascii.eqb_spec c "/") as [-> | Hslash].
    { split; [| done]. intros _ seg rest H Hseg.
      destruct seg as [| d seg]; [done |].
      rewrite append_cons in H. injection H as <- _.
      by rewrite Contains_slash_head in Hseg. }
    destruct (Ascii.eqb_spec c ".") as [-> | Hdot].
    { split; [done |]. intros H.
      by specialize (H "." r eq_refl eq_refl). }
    rewrite IH. split.
    + intros H seg rest Hr Hseg.
      destruct seg as [| d seg]; [done |].
      rewrite append_cons in Hr. injection Hr as <- ->.
      rewrite Contains_cons_ne in Hseg |- * by done.
      by apply (H seg rest).
    + intros H seg rest -> Hseg.
      specialize (H (String c seg) rest eq_refl).
      rewrite !Contains_cons_ne in H by done. by apply H.
Qed.

(** [Ext] is empty exactly when there is no point behind the last [/]. *)
Lemma Ext_empty_iff (path : string) :
  filepath.Ext path = "" <->
  forall pre seg,
    path = pre +:+ seg ->
    gostrings.Contains seg "/" = false -> gostrings.Contains seg "." = false.
Proof.
  unfold filepath.Ext. rewrite extFrom_empty_iff. split.
  - intros H pre seg -> Hseg.
    specialize (H (String.rev seg) (String.rev pre) (rev_append _ _)).
    change "/" with (String.rev "/") in H.
    change "." with (String.rev ".") in H.
    rewrite !Contains_rev in H. by apply H.
  - intros H seg rest Hr Hseg.
    specialize (H (String.rev rest) (String.rev seg)).
    change "/" with (String.rev "/") in Hseg.
    change "." with (String.rev ".").
    rewrite <- (rev_involutive seg), Contains_rev in Hseg |- *.
    apply H; [| done].
    by rewrite <- rev_append, <- Hr, rev_involutive.
Qed.

(** X17.  An unknown path falls back to the single-page application
    exactly when it does not start with [/api/], [/.well-known/],
    [/metrics] or [/health] and has no point behind its last [/].  The
    prefixes are compared as strings, not as path elements. *)
Theorem shouldFallbackToSPA_spec (path : string) :
  shouldFallbackToSPA path = true <->
  gostrings.HasPrefix path "/api/" = false
  /\ gostrings.HasPrefix path "/.well-known/" = false
  /\ gostrings.HasPrefix path "/metrics" = false
  /\ gostrings.HasPrefix path "/health" = false
  /\ (forall pre seg,
        path = pre +:+ seg ->
        gostrings.Contains seg "/" = false ->
        gostrings.Contains seg "." = false).
Proof.
  rewrite <- Ext_empty_iff. unfold shouldFallbackToSPA, specialPaths.
  cbn [existsb]. rewrite orb_false_r.
  destruct (gostrings.HasPrefix path "/api/");
    [split; [done | by intros [? _]] |].
  destruct (gostrings.HasPrefix path "/.well-known/");
    [split; [done | by intros (_ & ? & _)] |].
  destruct (gostrings.HasPrefix path "/metrics");
    [split; [done | by intros (_ & _ & ? & _)] |].
  destruct (gostrings.HasPrefix path "/health");
    [split; [done | by intros (_ & _ & _ & ? & _)] |].
  cbn [orb]. rewrite bool_decide_eq_true.
  split; [by intros ? | by intros (_ & _ & _ & _ & ?)].
Qed.

Lemma lowerByte_fixes (c : ascii) :
  (Ascii.eqb (lowerByte c) "/" = Ascii.eqb c "/")
  /\ (Ascii.eqb (lowerByte c) "." = Ascii.eqb c ".")
  /\ ((N_of_ascii (lowerByte c) <? 128)%N = (N_of_ascii c <? 128)%N)
  /\ lowerByte (lowerByte c) = lowerByte c.
Proof. by destruct c as [[] [] [] [] [] [] [] []]. Qed.

Lemma lowerASCII_append (s1 s2 : string) :
  lowerASCII (s1 +:+ s2) = lowerASCII s1 +:+ lowerASCII s2.
Proof.
  induction s1 as [| c s1 IH]; [done |].
  rewrite append_cons. cbn [lowerASCII]. by rewrite IH, append_cons.
Qed.

Lemma lowerASCII_rev (s : string) :
  lowerASCII (String.rev s) = String.rev (lowerASCII s).
Proof.
  induction s as [| c s IH]; [done |].
  cbn [lowerASCII]. by rewrite !rev_cons, lowerASCII_append, IH.
Qed.

Lemma lowerASCII_idemp (s : string) :
  lowerASCII (lowerASCII s) = lowerASCII s.
Proof.
  induction s as [| c s IH]; [done |].
  cbn [lowerASCII]. rewrite IH.
  by destruct (lowerByte_fixes c) as (_ & _ & _ & ->).
Qed.

Lemma isASCII_lowerASCII (s : string) :
  isASCII (lowerASCII s) = isASCII s.
Proof.
  induction s as [| c s IH]; [done |].
  cbn [lowerASCII isASCII]. rewrite IH.
  by destruct (lowerByte_fixes c) as (_ & _ & -> & _).
Qed.

Lemma extFrom_lowerASCII (r acc : string) :
  filepath.extFrom (lowerASCII r) (lowerASCII acc)
  = lowerASCII (filepath.extFrom r acc).
Proof.
  revert acc. induction r as [| c r IH]; intros acc; [done |].
  cbn [lowerASCII filepath.extFrom].
  destruct (lowerByte_fixes c) as (-> & -> & _ & _).
  destruct (Ascii.eqb c "/"); [done |].
  destruct (Ascii.eqb c "."); [done |].
  apply (IH (String c acc)).
Qed.

Lemma Ext_lowerASCII (path : string) :
  filepath.Ext (lowerASCII path) = lowerASCII (filepath.Ext path).
Proof.
  unfold filepath.Ext. rewrite <- lowerASCII_rev.
  apply (extFrom_lowerASCII _ "").
Qed.

Lemma ToLower_Ext_lowerASCII (mapToLower : string -> string)
    (path : string) :
  isASCII (filepath.Ext path) = true ->
  ToLower mapToLower (filepath.Ext (lowerASCII path))
  = ToLower mapToLower (filepath.Ext path).
Proof.
  intros H. unfold ToLower.
  by rewrite Ext_lowerASCII, isASCII_lowerASCII, H, lowerASCII_idemp.
Qed.

(** X18.  Extensions are matched without regard to ASCII case: for a path
    whose extension is ASCII, lowering the ASCII capitals of the whole path
    changes neither whether the file is transformed nor the content type
    it is served with. *)
Theorem extension_case_insensitive (mapToLower : string -> string)
    (path : string) :
  isASCII (filepath.Ext path) = true ->
  shouldTransform mapToLower (lowerASCII path)
  = shouldTransform mapToLower path
  /\ getContentType mapToLower (lowerASCII path)
     = getContentType mapToLower path.
Proof.
  intros H. unfold shouldTransform, getContentType.
  by rewrite ToLower_Ext_lowerASCII.
Qed.

Lemma extension_case_insensitive_witness :
  shouldTransform (fun s => s) (lowerASCII "Docs/README.MD")
  = shouldTransform (fun s => s) "Docs/README.MD"
  /\ getContentType (fun s => s) (lowerASCII "Docs/README.MD")
     = getContentType (fun s => s) "Docs/README.MD".
Proof.
  apply (extension_case_insensitive (fun s => s) "Docs/README.MD").
  reflexivity.
Defined.

Ltac not_in_list H :=
  repeat (apply elem_of_cons in H as [H | H]; [discriminate H |]);
  by apply elem_of_nil in H.

(** X19.  Every file that is transformed has a content type of its own,
    except for six extensions: a transformed file is served as
    [application/octet-stream] exactly when its lowered extension is
    [.jsx], [.ts], [.tsx], [.env], [.yml] or [.yaml]. *)
Theorem transformed_content_types (mapToLower : string -> string)
    (path : string) :
  shouldTransform mapToLower path = true ->
  (getContentType mapToLower path = "application/octet-stream" <->
   ToLower mapToLower (filepath.Ext path)
   ∈ [".jsx"; ".ts"; ".tsx"; ".env"; ".yml"; ".yaml"]).
Proof.
  unfold shouldTransform, getContentType.
  generalize (ToLower mapToLower (filepath.Ext path)). intros ext H.
  destruct (transformableExts !! ext) as [b |] eqn:Hext; [| done].
  apply elem_of_list_to_map_2 in Hext.
  repeat (apply elem_of_cons in Hext as [Hext | Hext];
          [injection Hext as -> _; vm_compute;
           split;
           [first [discriminate | intros _; repeat constructor]
           |first [reflexivity | intros Hin; not_in_list Hin]] |]).
  by apply elem_of_nil in Hext.
Qed.

Lemma transformed_content_types_witness :
  getContentType (fun s => s) "src/App.tsx" = "application/octet-stream" <->
  ToLower (fun s => s) (filepath.Ext "src/App.tsx")
  ∈ [".jsx"; ".ts"; ".tsx"; ".env"; ".yml"; ".yaml"].
Proof.
  apply (transformed_content_types (fun s => s) "src/App.tsx").
  reflexivity.
Defined.

(** ** The configuration *)

Lemma readDigits_uint_acc (d : Decimal.uint) (acc : positive) :
  readDigits (NilEmpty.string_of_uint d) (Z.pos acc)
  = Some (Z.pos (Pos.of_uint_acc d acc)).
Proof.
  revert acc. induction d as [| d IH | d IH | d IH | d IH | d IH | d IH
                               | d IH | d IH | d IH | d IH]; intros acc;
    [done | cbn [NilEmpty.string_of_uint readDigits Ascii.is_nat
                 Pos.of_uint_acc]; rewrite <- IH; f_equal; lia ..].
Qed.

Lemma readDigits_uint (d : Decimal.uint) :
  readDigits (NilEmpty.string_of_uint d) 0 = Some (Z.of_N (Pos.of_uint d)).
Proof.
  induction d as [| d IH | d IH | d IH | d IH | d IH | d IH
                  | d IH | d IH | d IH | d IH];
    [done | exact IH
    | cbn [NilEmpty.string_of_uint readDigits Ascii.is_nat Pos.of_uint];
      apply readDigits_uint_acc ..].
Qed.

Lemma string_of_uint_head (d : Decimal.uint) :
  d <> Decimal.Nil ->
  exists c rest,
    NilEmpty.string_of_uint d = String c rest
    /\ Ascii.eqb c "-" = false /\ Ascii.eqb c "+" = false.
Proof. destruct d; [done | intros _; eexists _, _; by repeat split ..]. Qed.

(** [Atoi] reads back what [%d] prints, when it fits. *)
Lemma Atoi_formatInt (n : Z) :
  Atoi (fmt.formatInt n)
  = if (- 2 ^ 63 <=? n) && (n <=? 2 ^ 63 - 1) then Some n else None.
Proof.
  unfold fmt.formatInt. destruct n as [| p | p]; [done | |];
    cbn [Z.to_int NilEmpty.string_of_int].
  - destruct (string_of_uint_head (Pos.to_uint p)
                (DecimalPos.Unsigned.to_uint_nonnil p))
      as (c & rest & Hs & Hm & Hp).
    unfold Atoi.
    pose proof (readDigits_uint (Pos.to_uint p)) as Hr.
    rewrite DecimalPos.Unsigned.of_to in Hr.
    rewrite Hs in Hr |- *. rewrite Hm, Hp, Hr. done.
  - destruct (string_of_uint_head (Pos.to_uint p)
                (DecimalPos.Unsigned.to_uint_nonnil p))
      as (c & rest & Hs & _).
    unfold Atoi. rewrite Ascii.eqb_refl.
    pose proof (readDigits_uint (Pos.to_uint p)) as Hr.
    rewrite DecimalPos.Unsigned.of_to in Hr.
    rewrite Hs in Hr |- *. rewrite Hr. done.
Qed.

Lemma formatInt_nonempty (n : Z) : fmt.formatInt n <> "".
Proof.
  unfold fmt.formatInt. destruct n as [| p | p]; [done | | done].
  cbn [Z.to_int NilEmpty.string_of_int].
  destruct (string_of_uint_head (Pos.to_uint p)
              (DecimalPos.Unsigned.to_uint_nonnil p)) as (c & rest & -> & _).
  done.
Qed.

(** X20.  [Validate] accepts a port written in decimal exactly when it is
    between 1 and 65535.  For every integer [n] printed as [%d] prints it:
    outside that range the error names the port as it was given, whatever
    the asset directory; inside it the result is decided by the asset
    directory alone, and is nil for a non-empty directory that exists. *)
Theorem Validate_port (notExist : string -> bool) (c : config.Config)
    (n : Z) :
  config.Port c = fmt.formatInt n ->
  (n < 1 \/ 65535 < n ->
   config.Validate notExist c
   = Some ("PORT must be a number between 1 and 65535, got: "
           +:+ fmt.formatInt n))
  /\ (1 <= n <= 65535 ->
      config.AssetDir c <> "" -> notExist (config.AssetDir c) = false ->
      config.Validate notExist c = None).
Proof.
  intros Hport. unfold config.Validate. rewrite Hport.
  destruct (String.eqb_spec (fmt.formatInt n) "") as [He | _];
    [by apply formatInt_nonempty in He |].
  rewrite Atoi_formatInt. split.
  - intros Hout.
    destruct ((- 2 ^ 63 <=? n) && (n <=? 2 ^ 63 - 1)); [| done].
    destruct (Z.ltb_spec n 1); [done |].
    destruct (Z.gtb_spec n 65535); [done | lia].
  - intros Hin Hdir Hexists.
    destruct (Z.leb_spec (- 2 ^ 63) n); [| lia].
    destruct (Z.leb_spec n (2 ^ 63 - 1)); [| lia].
    cbn [andb].
    destruct (Z.ltb_spec n 1); [lia |].
    destruct (Z.gtb_spec n 65535); [lia |].
    cbn [orb].
    destruct (String.eqb_spec (config.AssetDir c) ""); [done |].
    by rewrite Hexists.
Qed.

Lemma Validate_port_witness :
  config.Validate (fun _ => false)
    (config.mkConfig "70000" "/app/assets" "0.0.0.0" "" true "healthy" ∅)
  = Some ("PORT must be a number between 1 and 65535, got: "
          +:+ fmt.formatInt 70000)
  /\ config.Validate (fun _ => false)
       (config.mkConfig "8080" "/app/assets" "0.0.0.0" "" true "healthy" ∅)
     = None.
Proof.
  split.
  - apply (proj1 (Validate_port (fun _ => false)
                    (config.mkConfig "70000" "/app/assets" "0.0.0.0" "" true
                       "healthy" ∅) 70000 eq_refl)).
    right. lia.
  - apply (proj2 (Validate_port (fun _ => false)
                    (config.mkConfig "8080" "/app/assets" "0.0.0.0" "" true
                       "healthy" ∅) 8080 eq_refl));
      [lia | discriminate | reflexivity].
Defined.

Lemma cutByte_Some (sep : ascii) (e k v : string) :
  cutByte sep e = Some (k, v) <->
  e = k +:+ String sep v /\ gostrings.Contains k (String sep "") = false.
Proof.
  revert k. induction e as [| c r IH]; intros k; cbn [cutByte].
  - split; [done |]. intros [H _]. by destruct k.
  - destruct (Ascii.eqb_spec c sep) as [-> | Hne].
    + split.
      * intros [= <- <-]. done.
      * intros [H Hk]. destruct k as [| d k].
        -- rewrite append_nil_l in H. by injection H as <-.
        -- rewrite append_cons in H. injection H as <- _.
           by rewrite Contains_slash_head in Hk.
    + destruct k as [| d k].
      * split.
        -- destruct (cutByte sep r) as [[? ?] |]; done.
        -- intros [H _]. rewrite append_nil_l in H. by injection H.
      * rewrite append_cons. specialize (IH k).
        destruct (cutByte sep r) as [[k' v'] |].
        -- split.
           ++ intros [= -> -> ->]. destruct (proj1 IH eq_refl) as [-> Hk].
              by rewrite Contains_cons_ne.
           ++ intros [[= <- ->] Hk]. rewrite Contains_cons_ne in Hk by done.
              by injection (proj2 IH (conj eq_refl Hk)) as -> ->.
        -- split; [done |].
           intros [[= <- ->] Hk]. rewrite Contains_cons_ne in Hk by done.
           discriminate (proj2 IH (conj eq_refl Hk)).
Qed.

(** The entry [STAGE_<name>=<value>] of an environment. *)
Lemma cutByte_stage (name value : string) :
  gostrings.Contains name "=" = false ->
  cutByte "=" ("STAGE_" +:+ name +:+ "=" +:+ value)
  = Some ("STAGE_" +:+ name, value).
Proof.
  intros H. apply cutByte_Some. split.
  - by rewrite append_assoc.
  - rewrite !append_cons, append_nil_l.
    by rewrite !Contains_cons_ne by discriminate.
Qed.

Lemma loadEntry_cut (replacements : gmap string string) (e : string) :
  config.loadEntry replacements e
  = match cutByte "=" e with
    | Some (key, value) =>
        match gostrings.cutPrefix key "STAGE_" with
        | Some placeholder =>
            if String.eqb (gostrings.TrimSpace placeholder) ""
            then replacements
            else <[placeholder := value]> replacements
        | None => replacements
        end
    | None => replacements
    end.
Proof.
  unfold config.loadEntry, SplitN_eq_2.
  destruct (cutByte "=" e) as [[key value] |]; [| done].
  destruct (gostrings.cutPrefix key "STAGE_") as [p |] eqn:Hcut.
  - apply cutPrefix_Some in Hcut as ->.
    rewrite HasPrefix_append. unfold TrimPrefix.
    rewrite cutPrefix_append. cbn [default].
    change (Datatypes.id p) with p.
    destruct (String.eqb_spec p "") as [-> | _]; reflexivity.
  - destruct (gostrings.HasPrefix key "STAGE_") eqn:Hpre; [| done].
    apply HasPrefix_spec in Hpre as [p ->].
    by rewrite cutPrefix_append in Hcut.
Qed.

Lemma loadLoop_lookup (l : list string) (name value : string) :
  NoDup (config.envKeys l) ->
  fold_left config.loadEntry l ∅ !! name = Some value <->
  gostrings.TrimSpace name <> ""
  /\ gostrings.Contains name "=" = false
  /\ ("STAGE_" +:+ name +:+ "=" +:+ value) ∈ l.
Proof.
  revert value. induction l as [| e l IH] using rev_ind; intros value Hnd.
  - cbn. rewrite lookup_empty. split; [done |].
    intros (_ & _ & H). by apply elem_of_nil in H.
  - unfold config.envKeys in Hnd. rewrite omap_app in Hnd.
    apply NoDup_app in Hnd as (Hnd & Hfresh & _).
    rewrite fold_left_app. cbn [fold_left]. rewrite loadEntry_cut.
    assert (forall value', 
              ("STAGE_" +:+ name +:+ "=" +:+ value') ∈ l ++ [e] <->
              ("STAGE_" +:+ name +:+ "=" +:+ value') ∈ l
              \/ "STAGE_" +:+ name +:+ "=" +:+ value' = e) as Hin.
    { intros value'. by rewrite elem_of_app, list_elem_of_singleton. }
    destruct (cutByte "=" e) as [[k v] |] eqn:Hcut.
    2: { rewrite (IH value Hnd), Hin. split.
         - intros (? & ? & ?). auto.
         - intros (? & Hname & [? | <-]); [done |].
           by rewrite cutByte_stage in Hcut. }
    destruct (gostrings.cutPrefix k "STAGE_") as [p |] eqn:Hpre.
    2: { rewrite (IH value Hnd), Hin. split.
         - intros (? & ? & ?). auto.
         - intros (? & Hname & [? | <-]); [done |].
           rewrite cutByte_stage in Hcut by done. injection Hcut as <- <-.
           by rewrite cutPrefix_append in Hpre. }
    apply cutPrefix_Some in Hpre as ->.
    assert (gostrings.Contains p "=" = false) as Hp.
    { apply cutByte_Some in Hcut as [_ Hk].
      rewrite !append_cons, append_nil_l in Hk.
      by rewrite !Contains_cons_ne in Hk by discriminate. }
    destruct (String.eqb_spec (gostrings.TrimSpace p) "") as [Hblank | Hok].
    { rewrite (IH value Hnd), Hin. split.
      - intros (? & ? & ?). auto.
      - intros (Hname & Hname' & [? | <-]); [done |].
        rewrite cutByte_stage in Hcut by done. injection Hcut as Hk <-.
        change (name = p) in Hk. by subst. }
    destruct (decide (name = p)) as [-> | Hne].
    + rewrite lookup_insert_eq, Hin. split.
      * intros [= ->]. repeat split; [done .. |]. right.
        apply cutByte_Some in Hcut as [-> _]. by rewrite append_assoc.
      * intros (_ & _ & [Hl | <-]).
        -- exfalso. apply (Hfresh ("STAGE_" +:+ p)).
           ++ apply list_elem_of_omap. eexists. split; [exact Hl |].
              by rewrite cutByte_stage.
           ++ apply list_elem_of_omap. exists e.
              split; [by apply list_elem_of_singleton | by rewrite Hcut].
        -- rewrite cutByte_stage in Hcut by done. by injection Hcut as <-.
    + rewrite lookup_insert_ne by done. rewrite (IH value Hnd), Hin. split.
      * intros (? & ? & ?). auto.
      * intros (? & Hname & [? | <-]); [done |].
        rewrite cutByte_stage in Hcut by done. injection Hcut as Hk _.
        by change (name = p) in Hk.
Qed.

Lemma lookupEnv_elem (l : list string) (key v : string) :
  config.lookupEnv l key = v -> v <> "" -> (key +:+ "=" +:+ v) ∈ l.
Proof.
  intros <-. induction l as [| e l IH]; [done |].
  cbn [config.lookupEnv]. intros Hv.
  destruct (cutByte "=" e) as [[k value] |] eqn:Hcut;
    [| by apply list_elem_of_further, IH].
  destruct (String.eqb_spec k key) as [-> | _];
    [| by apply list_elem_of_further, IH].
  apply cutByte_Some in Hcut as [-> _]. apply list_elem_of_here.
Qed.

Lemma Load_Loaded (environ : list string) (notExist : string -> bool)
    (mapToLower : string -> string) (cfg : config.Config) :
  config.Load environ notExist mapToLower = config.Loaded cfg ->
  config.FMKey cfg = config.Getenv environ "FM_KEY"
  /\ config.PrometheusScenario cfg
     = config.getEnvOrDefault environ "STAGE_PROMETHEUS_SCENARIO" "healthy"
  /\ config.Replacements cfg
     = (if negb (String.eqb (config.Getenv environ "FM_KEY") "")
        then <["FM_KEY" := config.Getenv environ "FM_KEY"]>
               (fold_left config.loadEntry environ ∅)
        else fold_left config.loadEntry environ ∅).
Proof.
  unfold config.Load.
  destruct (config.Validate _ _); [done |]. by intros [= <-].
Qed.

Lemma Load_Replacements_lookup (environ : list string)
    (notExist : string -> bool) (mapToLower : string -> string)
    (cfg : config.Config) (name value : string) :
  NoDup (config.envKeys environ) ->
  config.Load environ notExist mapToLower = config.Loaded cfg ->
  name <> "FM_KEY" \/ config.Getenv environ "FM_KEY" = "" ->
  config.Replacements cfg !! name = Some value <->
  gostrings.TrimSpace name <> ""
  /\ gostrings.Contains name "=" = false
  /\ ("STAGE_" +:+ name +:+ "=" +:+ value) ∈ environ.
Proof.
  intros Hnd Hload Hname.
  destruct (Load_Loaded _ _ _ _ Hload) as (_ & _ & ->).
  rewrite <- (loadLoop_lookup environ name value Hnd).
  destruct (String.eqb_spec (config.Getenv environ "FM_KEY") "") as [| Hfm];
    [done |].
  destruct Hname as [Hname | Hname]; [| done].
  cbn [negb]. by rewrite lookup_insert_ne.
Qed.

(** X21.  [Load] fails in two ways only: with a port that was set in the
    environment and is not a number between 1 and 65535, or with an asset
    directory that does not exist.  The errors [PORT cannot be empty] and
    [ASSET_DIR cannot be empty] of [Validate] are never returned by [Load]:
    an empty variable is replaced by its default first, and the default
    port is valid. *)
Theorem Load_errors (environ : list string) (notExist : string -> bool)
    (mapToLower : string -> string) (msg : string) :
  config.Load environ notExist mapToLower = config.LoadError msg ->
  (config.Getenv environ "PORT" <> ""
   /\ msg = "PORT must be a number between 1 and 65535, got: "
            +:+ config.Getenv environ "PORT")
  \/ (notExist (config.getEnvOrDefault environ "ASSET_DIR" "/app/assets")
      = true
      /\ msg = "asset directory does not exist: "
               +:+ config.getEnvOrDefault environ "ASSET_DIR" "/app/assets").
Proof.
  unfold config.Load, config.Validate.
  cbn [config.Port config.AssetDir].
  assert (config.getEnvOrDefault environ "ASSET_DIR" "/app/assets" <> "")
    as Hdir.
  { unfold config.getEnvOrDefault.
    by destruct (String.eqb_spec (config.Getenv environ "ASSET_DIR") ""). }
  apply String.eqb_neq in Hdir. rewrite Hdir. clear Hdir.
  unfold config.getEnvOrDefault at 1 2 3.
  destruct (String.eqb_spec (config.Getenv environ "PORT") "") as [-> | Hport];
    cbn [negb].
  - change (Atoi "8080") with (Some 8080). cbn.
    destruct (notExist _); [| done]. intros [= <-]. by right.
  - apply String.eqb_neq in Hport as Hport'. rewrite Hport'.
    match goal with
    | |- context [if ?b then Some (_ +:+ config.Getenv environ "PORT")
                  else _] => destruct b
    end.
    + intros [= <-]. by left.
    + destruct (notExist _); [| done]. intros [= <-]. by right.
Qed.

Lemma Load_errors_witness :
  (config.Getenv ["PORT=http"] "PORT" <> ""
   /\ "PORT must be a number between 1 and 65535, got: http"
      = "PORT must be a number between 1 and 65535, got: "
        +:+ config.Getenv ["PORT=http"] "PORT")
  \/ ((fun _ : string => false)
        (config.getEnvOrDefault ["PORT=http"] "ASSET_DIR" "/app/assets")
      = true
      /\ "PORT must be a number between 1 and 65535, got: http"
         = "asset directory does not exist: "
           +:+ config.getEnvOrDefault ["PORT=http"] "ASSET_DIR"
                 "/app/assets").
Proof.
  apply (Load_errors ["PORT=http"] (fun _ => false) (fun s => s)
           "PORT must be a number between 1 and 65535, got: http").
  reflexivity.
Defined.

(** X22.  The replacements of a loaded configuration are the [STAGE_]
    variables and [FM_KEY].  In an environment with one entry for a key,
    [name] is replaced by [value] exactly when the environment has the
    entry [STAGE_<name>=<value>] with a name that is not blank (and, being
    a key, has no [=]); the value may be empty and may contain [=].  The
    one exception is the name [FM_KEY] when the variable [FM_KEY] is not
    empty: then its value is the replacement, whatever [STAGE_FM_KEY]
    says. *)
Theorem Load_replacements (environ : list string)
    (notExist : string -> bool) (mapToLower : string -> string)
    (cfg : config.Config) :
  NoDup (config.envKeys environ) ->
  config.Load environ notExist mapToLower = config.Loaded cfg ->
  (config.Getenv environ "FM_KEY" <> "" ->
   config.Replacements cfg !! "FM_KEY"
   = Some (config.Getenv environ "FM_KEY"))
  /\ (forall name value,
        name <> "FM_KEY" \/ config.Getenv environ "FM_KEY" = "" ->
        config.Replacements cfg !! name = Some value <->
        gostrings.TrimSpace name <> ""
        /\ gostrings.Contains name "=" = false
        /\ ("STAGE_" +:+ name +:+ "=" +:+ value) ∈ environ).
Proof.
  intros Hnd Hload. split.
  - intros Hfm. destruct (Load_Loaded _ _ _ _ Hload) as (_ & _ & ->).
    apply String.eqb_neq in Hfm. rewrite Hfm. cbn [negb].
    by rewrite lookup_insert_eq.
  - intros name value. by apply Load_Replacements_lookup with notExist mapToLower.
Qed.

Lemma Load_replacements_witness :
  config.Replacements
    (config.mkConfig "8080" "/app/assets" "0.0.0.0" "k1" true "healthy"
       (<["FM_KEY" := "k1"]> (<["API_URL" := "http://api?v=1"]> ∅)))
  !! "API_URL" = Some "http://api?v=1"
  /\ config.Replacements
       (config.mkConfig "8080" "/app/assets" "0.0.0.0" "k1" true "healthy"
          (<["FM_KEY" := "k1"]> (<["API_URL" := "http://api?v=1"]> ∅)))
     !! "FM_KEY" = Some "k1".
Proof.
  destruct (Load_replacements
              ["STAGE_API_URL=http://api?v=1"; "FM_KEY=k1";
               "STAGE_FM_KEY=k2"; "STAGE_=x"]
              (fun _ => false) (fun s => s)
              (config.mkConfig "8080" "/app/assets" "0.0.0.0" "k1" true
                 "healthy"
                 (<["FM_KEY" := "k1"]> (<["API_URL" := "http://api?v=1"]> ∅))))
    as [Hfm Hrep].
  - apply (bool_decide_unpack _). vm_compute. reflexivity.
  - vm_compute. reflexivity.
  - split.
    + apply Hrep; [by left |].
      split; [done |]. split; [reflexivity |]. apply list_elem_of_here.
    + apply Hfm. done.
Defined.

(** X23.  The scenario variable has two roles.  When
    [STAGE_PROMETHEUS_SCENARIO] is set to a non-empty value, a loaded
    configuration has it as the Prometheus scenario and also as the
    replacement of the placeholder [PROMETHEUS_SCENARIO] in the assets. *)
Theorem Load_scenario_is_replacement (environ : list string)
    (notExist : string -> bool) (mapToLower : string -> string)
    (cfg : config.Config) (scenario : string) :
  NoDup (config.envKeys environ) ->
  config.Load environ notExist mapToLower = config.Loaded cfg ->
  config.Getenv environ "STAGE_PROMETHEUS_SCENARIO" = scenario ->
  scenario <> "" ->
  config.PrometheusScenario cfg = scenario
  /\ config.Replacements cfg !! "PROMETHEUS_SCENARIO" = Some scenario.
Proof.
  intros Hnd Hload Hget Hset. split.
  - destruct (Load_Loaded _ _ _ _ Hload) as (_ & -> & _).
    unfold config.getEnvOrDefault. rewrite Hget.
    by destruct (String.eqb_spec scenario "").
  - apply (Load_Replacements_lookup _ _ _ _ _ _ Hnd Hload); [by left |].
    repeat split; [done .. |].
    by apply (lookupEnv_elem environ "STAGE_PROMETHEUS_SCENARIO").
Qed.

Lemma Load_scenario_is_replacement_witness :
  config.PrometheusScenario
    (config.mkConfig "9090" "/app/assets" "0.0.0.0" "" true "high_errors"
       (<["PROMETHEUS_SCENARIO" := "high_errors"]> ∅))
  = "high_errors"
  /\ config.Replacements
       (config.mkConfig "9090" "/app/assets" "0.0.0.0" "" true "high_errors"
          (<["PROMETHEUS_SCENARIO" := "high_errors"]> ∅))
     !! "PROMETHEUS_SCENARIO" = Some "high_errors".
Proof.
  apply (Load_scenario_is_replacement
           ["PORT=9090"; "STAGE_PROMETHEUS_SCENARIO=high_errors"]
           (fun _ => false) (fun s => s)
           (config.mkConfig "9090" "/app/assets" "0.0.0.0" "" true
              "high_errors"
              (<["PROMETHEUS_SCENARIO" := "high_errors"]> ∅))
           "high_errors").
  - apply (bool_decide_unpack _). vm_compute. reflexivity.
  - vm_compute. reflexivity.
  - reflexivity.
  - discriminate.
Defined.
